(** * The voucher claim pipeline

    A shallow embedding of the claim pipeline of the voucher service:
    the circuit breaker ([utils/circuitBreaker.ts]), the sliding-window rate
    limiter ([RateLimitService]), the cache ([CacheService]), the claim
    coordinator and the refund ([VoucherService]), the queue worker
    ([workers/voucherWorker.ts]), the rate-limit middleware, the error
    handler and the claim and refund routes, and the part of the SQL schema
    they run against (tables, column types, check constraints, the foreign
    key of [refunded_by], triggers and functions).

    Conventions of the embedding.
    - Integers and millisecond timestamps are [Z]; [Date.now()] and SQL
      [NOW()] are the parameter [now] of each operation (one instant per
      operation; where a reply or a job carries a value computed from a
      second reading of the clock, that reading is a parameter of its
      own).
    - A table is the list of its rows; [SELECT ... WHERE] is a filter,
      [UPDATE ... WHERE] a map followed by the check constraints of the
      table, [INSERT] an append followed by the AFTER INSERT triggers.
    - Redis is a pair of finite maps from the key string to the value and
      its expiry instant: one for string values, one for sorted sets.  The
      string values are kept in parsed form: [JSON.stringify] followed by
      [JSON.parse] (and [toString] followed by [parseInt]) is the identity
      on what the service stores.
    - Asynchronous code is sequential state passing: an operation is a
      function from the world to a result and the next world.  Failures
      ([throw]) are the [Err] results; effects made before a throw stay,
      except those on the database inside a transaction.  The one race of
      the code, between the claim transaction and the timer of the breaker,
      is decided by a parameter of the operation.
    - A column of the type [UUID], [INET] or [VARCHAR(n)] holds a value of
      its type: the text a statement passes for it goes through the input
      function of the type, and a text the type refuses makes the statement
      fail.  Texts are free of the character NUL and integers are within
      the range of their column.
    - The queue (BullMQ) is not part of the service: the model records the
      jobs the service hands to [Queue.add], in order, and nothing of what
      the queue does with them.
    - Logging, Prometheus metrics, the in-process hit and miss counters and
      the columns nobody reads back ([created_at], [updated_at],
      [session_id], the purchase amounts) are left out. *)

From stdpp Require Import base option list gmap strings pretty.
From Stdlib Require Import ZArith Lia Ascii.

Local Open Scope Z_scope.

(** ** Errors and results *)

(** The error classes of [types/index.ts], the plain [Error] thrown by the
    service and the worker, and the error the store raises when it rejects
    a statement, named by the constraint that is violated or, for a value
    that does not fit the type of its column, by the condition raised
    ([invalid_text_representation], [string_data_right_truncation]). *)
Inductive error : Type :=
| VoucherLimitExceeded (message : string)
| RateLimitExceeded (message : string)
| InvalidVoucherCode (message : string)
| PlainError (message : string)
| StoreError (constraint : string).

Definition statusCode (e : error) : Z :=
  match e with
  | VoucherLimitExceeded _ => 403
  | RateLimitExceeded _ => 429
  | InvalidVoucherCode _ => 400
  | PlainError _ | StoreError _ => 500
  end.

Definition code (e : error) : string :=
  match e with
  | VoucherLimitExceeded _ => "LIMIT_EXCEEDED"
  | RateLimitExceeded _ => "RATE_LIMIT_EXCEEDED"
  | InvalidVoucherCode _ => "INVALID_VOUCHER"
  | PlainError _ | StoreError _ => "INTERNAL_ERROR"
  end.

Inductive result (A : Type) : Type :=
| Ok (a : A)
| Err (e : error).
Arguments Ok {A} a.
Arguments Err {A} e.

(** ** The circuit breaker ([utils/circuitBreaker.ts]) *)

Module CircuitBreaker.

Inductive CircuitState : Type := CLOSED | OPEN | HALF_OPEN.

Record CircuitBreakerOptions : Type := mkOptions {
    failureThreshold : Z;
    successThreshold : Z;
    timeout : Z;
    resetTimeout : Z
  }.

Record t : Type := mk {
    state : CircuitState;
    failureCount : Z;
    successCount : Z;
    nextAttempt : Z;
    options : CircuitBreakerOptions
  }.

  (** [options.x || default]: a missing or zero option takes the default. *)
Definition or_default (o : option Z) (d : Z) : Z :=
    match o with
    | Some v => if v =? 0 then d else v
    | None => d
    end.

Definition new (now : Z) (failureThreshold' successThreshold' timeout' resetTimeout' : option Z) : t :=
    {| state := CLOSED;
       failureCount := 0;
       successCount := 0;
       nextAttempt := now;
       options := {| failureThreshold := or_default failureThreshold' 5;
                     successThreshold := or_default successThreshold' 2;
                     timeout := or_default timeout' 60000;
                     resetTimeout := or_default resetTimeout' 30000 |} |}.

Definition set_state (s : CircuitState) (cb : t) : t :=
    {| state := s; failureCount := failureCount cb; successCount := successCount cb;
       nextAttempt := nextAttempt cb; options := options cb |}.

Definition set_failureCount (n : Z) (cb : t) : t :=
    {| state := state cb; failureCount := n; successCount := successCount cb;
       nextAttempt := nextAttempt cb; options := options cb |}.

Definition set_successCount (n : Z) (cb : t) : t :=
    {| state := state cb; failureCount := failureCount cb; successCount := n;
       nextAttempt := nextAttempt cb; options := options cb |}.

Definition set_nextAttempt (n : Z) (cb : t) : t :=
    {| state := state cb; failureCount := failureCount cb; successCount := successCount cb;
       nextAttempt := n; options := options cb |}.

Definition is_half_open (cb : t) : bool :=
    match state cb with HALF_OPEN => true | _ => false end.

Definition is_open (cb : t) : bool :=
    match state cb with OPEN => true | _ => false end.

Definition onSuccess (cb : t) : t :=
    let cb := set_failureCount 0 cb in
    if is_half_open cb then
      let cb := set_successCount (successCount cb + 1) cb in
      if successCount cb >=? successThreshold (options cb) then
        set_successCount 0 (set_state CLOSED cb)
      else cb
    else cb.

Definition onFailure (now : Z) (cb : t) : t :=
    let cb := set_failureCount (failureCount cb + 1) cb in
    if failureCount cb >=? failureThreshold (options cb) then
      set_nextAttempt (now + resetTimeout (options cb)) (set_state OPEN cb)
    else cb.

  (** [execute]: the wrapped action [fn] runs on a state of type [S]; the
      race against the timer is decided by the action's outcome, a timeout
      being one of its failures.  The result is the outcome, the breaker
      and the state the action left. *)
Definition execute {S T : Type} (now : Z) (fn : S → result T * S) (cb : t) (s : S)
    : result T * t * S :=
    if is_open cb && (now <? nextAttempt cb) then
      (Err (PlainError "Circuit breaker is OPEN"), cb, s)
    else
      let cb := if is_open cb then set_state HALF_OPEN cb else cb in
      match fn s with
      | (Ok r, s') => (Ok r, onSuccess cb, s')
      | (Err e, s') => (Err e, onFailure now cb, s')
      end.

Definition reset (cb : t) : t :=
    set_successCount 0 (set_failureCount 0 (set_state CLOSED cb)).

End CircuitBreaker.

(** ** The column types of the store

    The input functions of the types [uuid] and [inet] and the assignment
    to a [VARCHAR(n)] column, as PostgreSQL defines them for the columns
    [request_id], [ip_address] and [device_id] of the schema. *)

(** A value of type [uuid]: its sixteen bytes. *)
Definition uuid : Type := list Z.

(** A value of type [inet]: the family, the address bytes (4 or 16) and the
    netmask length; two values are the same when the three agree. *)
Inductive ip_family : Type := AF_INET | AF_INET6.

Record inet : Type := mkInet {
  family : ip_family;
  ip_addr : list Z;
  ip_bits : Z
}.

Global Instance ip_family_eq_dec : EqDecision ip_family.
Proof. solve_decision. Defined.

Global Instance inet_eq_dec : EqDecision inet.
Proof. solve_decision. Defined.

Definition digit (c : ascii) : option Z :=
  let n := nat_of_ascii c in
  if ((48 <=? n) && (n <=? 57))%nat then Some (Z.of_nat n - 48) else None.

Definition xdigit (c : ascii) : option Z :=
  let n := nat_of_ascii c in
  if ((48 <=? n) && (n <=? 57))%nat then Some (Z.of_nat n - 48)
  else if ((97 <=? n) && (n <=? 102))%nat then Some (Z.of_nat n - 87)
  else if ((65 <=? n) && (n <=? 70))%nat then Some (Z.of_nat n - 55)
  else None.

(** The sixteen bytes of a [uuid] text, from byte [i] on: two hexadecimal
    digits each, a hyphen being allowed after every group of four digits
    but the last. *)
Fixpoint uuid_bytes (n : nat) (i : Z) (src : string) : option (uuid * string) :=
  match n with
  | O => Some ([], src)
  | S n' =>
      match src with
      | String a (String b rest) =>
          match xdigit a, xdigit b with
          | Some x, Some y =>
              let rest' :=
                match rest with
                | String "-" r => if Z.odd i && (i <? 15) then r else rest
                | _ => rest
                end in
              match uuid_bytes n' (i + 1) rest' with
              | Some (bs, tl) => Some (16 * x + y :: bs, tl)
              | None => None
              end
          | _, _ => None
          end
      | _ => None
      end
  end.

(** The input function of the type [uuid]: 32 hexadecimal digits in either
    case, with the optional hyphens, optionally in braces. *)
Definition uuid_in (s : string) : option uuid :=
  match s with
  | String "{" src =>
      match uuid_bytes 16 0 src with
      | Some (bs, "}") => Some bs
      | _ => None
      end
  | _ =>
      match uuid_bytes 16 0 s with
      | Some (bs, "") => Some bs
      | _ => None
      end
  end.

(** A decimal number that is at most [max], read digit by digit from the
    value [val] on: the number and the rest of the text after it. *)
Fixpoint number (max val : Z) (src : string) : option (Z * string) :=
  match src with
  | String c rest =>
      match digit c with
      | Some n => if 10 * val + n >? max then None else number max (10 * val + n) rest
      | None => Some (val, src)
      end
  | "" => Some (val, src)
  end.

Definition starts_with_digit (src : string) : bool :=
  match src with
  | String c _ => bool_decide (is_Some (digit c))
  | "" => false
  end.

(** The next character of a text, if any, and the text after it. *)
Definition read (src : string) : option ascii * string :=
  match src with
  | String c rest => (Some c, rest)
  | "" => (None, "")
  end.

(** The octets of an IPv4 text: decimal numbers up to 255 separated by
    dots, at most four; the result is the octets, the character read after
    them and the text that follows it.  Five rounds are enough: the fifth
    number is refused. *)
Fixpoint octets (fuel : nat) (acc : list Z) (src : string)
    : option (list Z * option ascii * string) :=
  match fuel with
  | O => None
  | S fuel' =>
      if starts_with_digit src then
        match number 255 0 src with
        | Some (o, rest) =>
            if (4 <=? length acc)%nat then None
            else
              match read rest with
              | (None, rest') => Some (acc ++ [o], None, rest')
              | (Some "/"%char, rest') => Some (acc ++ [o], Some "/"%char, rest')
              | (Some "."%char, rest') => octets fuel' (acc ++ [o]) rest'
              | _ => None
              end
        | None => None
        end
      else let '(ch, rest) := read src in Some (acc, ch, rest)
  end.

(** An IPv4 text of the type [inet]: the octets, then an optional [/bits]
    up to 32.  Without [/bits] all four octets are needed; with it the
    missing octets are zero, and the length may not reach beyond the
    octets given. *)
Definition inet_pton_ipv4 (src : string) : option (list Z * Z) :=
  match octets 5 [] src with
  | Some (acc, ch, rest) =>
      let bits :=
        match ch with
        | Some "/"%char =>
            if starts_with_digit rest && negb (bool_decide (acc = [])) then
              match number 32 0 rest with
              | Some (b, "") => Some (Some b)
              | _ => None
              end
            else None
        | Some _ => None
        | None => Some None
        end in
      match bits with
      | None => None
      | Some None =>
          if (length acc =? 4)%nat then Some (acc, 32) else None
      | Some (Some b) =>
          if Z.of_nat (length acc) <? b / 8 then None
          else Some (acc ++ replicate (4 - length acc) 0, b)
      end
  | None => None
  end.

(** [/bits] of an IPv6 text: a decimal number up to 128 without leading
    zeros, and nothing after it. *)
Fixpoint getbits (n : nat) (val : Z) (src : string) : option Z :=
  match src with
  | String c rest =>
      match digit c with
      | Some d =>
          if negb (n =? 0)%nat && (val =? 0) then None
          else if 10 * val + d >? 128 then None
          else getbits (S n) (10 * val + d) rest
      | None => None
      end
  | "" => if (n =? 0)%nat then None else Some val
  end.

(** The dotted quad that may end an IPv6 text: up to four numbers up to
    255 without leading zeros, then an optional [/bits]. *)
Fixpoint getv4 (n : nat) (val : Z) (acc : list Z) (src : string)
    : option (list Z * option Z) :=
  match src with
  | String c rest =>
      match digit c with
      | Some d =>
          if negb (n =? 0)%nat && (val =? 0) then None
          else if 10 * val + d >? 255 then None
          else getv4 (S n) (10 * val + d) acc rest
      | None =>
          if bool_decide (c = "."%char ∨ c = "/"%char) then
            if (3 <? length acc)%nat then None
            else if bool_decide (c = "/"%char) then
              match getbits 0 0 rest with
              | Some b => Some (acc ++ [val], Some b)
              | None => None
              end
            else getv4 0 0 (acc ++ [val]) rest
          else None
      end
  | "" =>
      if (n =? 0)%nat then None
      else if (3 <? length acc)%nat then None
      else Some (acc ++ [val], None)
  end.

(** The end of an IPv6 text: a pending group is written, the run of zeros
    of [::] is placed, and sixteen bytes must result. *)
Definition finish6 (tp : list Z) (colonp : option nat) (saw : bool) (val : Z)
    (bits : option Z) : option (list Z * Z) :=
  let tp' := if saw then
               if (16 <? length tp + 2)%nat then None
               else Some (tp ++ [val / 256; val mod 256])
             else Some tp in
  match tp' with
  | None => None
  | Some tp =>
      match colonp with
      | Some c =>
          if (length tp =? 16)%nat then None
          else Some (take c tp ++ replicate (16 - length tp) 0 ++ drop c tp, default 128 bits)
      | None =>
          if (length tp =? 16)%nat then Some (tp, default 128 bits) else None
      end
  end.

(** An IPv6 text, character by character: groups of up to four hexadecimal
    digits separated by colons, one [::], an optional dotted quad at the
    end, an optional [/bits].  [curtok] is the text from the start of the
    current group, [tp] the bytes written, [colonp] the place of [::]. *)
Fixpoint pton6 (src curtok : string) (tp : list Z) (colonp : option nat)
    (saw : bool) (val : Z) (digits : nat) : option (list Z * Z) :=
  match src with
  | "" => finish6 tp colonp saw val None
  | String ch rest =>
      match xdigit ch with
      | Some d =>
          if (4 <=? digits)%nat then None
          else pton6 rest curtok tp colonp true (16 * val + d) (S digits)
      | None =>
          if bool_decide (ch = ":"%char) then
            if negb saw then
              match colonp with
              | Some _ => None
              | None => pton6 rest rest tp (Some (length tp)) false val digits
              end
            else if bool_decide (rest = "") then None
            else if (16 <? length tp + 2)%nat then None
            else pton6 rest rest (tp ++ [val / 256; val mod 256]) colonp false 0 0%nat
          else if bool_decide (ch = "."%char) && (length tp + 4 <=? 16)%nat then
            match getv4 0 0 [] curtok with
            | Some (bytes, bits) =>
                finish6 (tp ++ bytes ++ replicate (4 - length bytes) 0) colonp false val bits
            | None => None
            end
          else if bool_decide (ch = "/"%char) then
            match getbits 0 0 rest with
            | Some b => finish6 tp colonp saw val (Some b)
            | None => None
            end
          else None
      end
  end.

Definition inet_pton_ipv6 (src : string) : option (list Z * Z) :=
  match src with
  | String ":" (String ":" _ as rest) => pton6 rest rest [] None false 0 0%nat
  | String ":" _ => None
  | _ => pton6 src src [] None false 0 0%nat
  end.

Fixpoint has_colon (s : string) : bool :=
  match s with
  | String c rest => bool_decide (c = ":"%char) || has_colon rest
  | "" => false
  end.

(** The input function of the type [inet]: a text with a colon is read as
    IPv6, any other as IPv4. *)
Definition inet_in (s : string) : option inet :=
  if has_colon s then
    match inet_pton_ipv6 s with
    | Some (a, b) => Some {| family := AF_INET6; ip_addr := a; ip_bits := b |}
    | None => None
    end
  else
    match inet_pton_ipv4 s with
    | Some (a, b) => Some {| family := AF_INET; ip_addr := a; ip_bits := b |}
    | None => None
    end.

Fixpoint all_spaces (s : string) : bool :=
  match s with
  | String c rest => bool_decide (c = " "%char) && all_spaces rest
  | "" => true
  end.

Fixpoint string_take (n : nat) (s : string) : string :=
  match n, s with
  | S n', String c rest => String c (string_take n' rest)
  | _, _ => ""
  end.

Fixpoint string_drop (n : nat) (s : string) : string :=
  match n, s with
  | S n', String _ rest => string_drop n' rest
  | _, _ => s
  end.

(** Assignment to a column of type [VARCHAR(n)]: a longer text is refused
    unless what exceeds [n] characters is spaces, which are cut. *)
Definition varchar_in (n : nat) (s : string) : option string :=
  if (String.length s <=? n)%nat then Some s
  else if all_spaces (string_drop n s) then Some (string_take n s)
  else None.

(** ** The persisted layout (the SQL schema) *)

Inductive voucher_status : Type := pending | success | failed | refunded.

Inductive audit_action : Type :=
| CLAIM_SUCCESS | CLAIM_DENIED | LIMIT_REACHED | REFUND
| CODE_CREATED | CODE_DEACTIVATED | SUSPICIOUS_ACTIVITY.

Global Instance voucher_status_eq_dec : EqDecision voucher_status.
Proof. solve_decision. Defined.

Global Instance audit_action_eq_dec : EqDecision audit_action.
Proof. solve_decision. Defined.

(** The JSON documents the core writes into a [metadata] column. *)
Inductive metadata : Type :=
| MetaEmpty
| MetaDiscount (discountType : option string) (discountValue : option Z)
| MetaRefund (reason : string) (adminId : option Z).

(** Table [users]. *)
Module Users.
Record row : Type := mk {
    id : Z;
    email : string;
    vouchers_claimed : Z;
    voucher_limit : Z;
    is_premium : bool;
    is_admin : bool;
    is_active : bool
  }.

Definition set_vouchers_claimed (n : Z) (u : row) : row :=
    {| id := id u; email := email u; vouchers_claimed := n;
       voucher_limit := voucher_limit u; is_premium := is_premium u;
       is_admin := is_admin u; is_active := is_active u |}.

  (** [check_vouchers_non_negative], [check_limit_positive],
      [check_vouchers_not_exceed_limit]; the trigger [enforce_voucher_limit]
      raises on the same condition as the last one. *)
Definition check (u : row) : bool :=
    (0 <=? vouchers_claimed u) && (0 <? voucher_limit u)
    && (vouchers_claimed u <=? voucher_limit u).
End Users.

(** Table [voucher_codes]. *)
Module VoucherCodes.
Record row : Type := mk {
    id : Z;
    code : string;
    is_active : bool;
    is_used : bool;
    used_by : option Z;
    used_at : option Z;
    usage_limit : Z;
    usage_count : Z;
    valid_from : option Z;
    expires_at : option Z;
    discount_type : option string;
    discount_value : option Z;
    allowed_user_ids : option (list Z)
  }.

Definition set_usage (count : Z) (used : bool) (by_ : option Z) (at_ : option Z)
      (v : row) : row :=
    {| id := id v; code := code v; is_active := is_active v; is_used := used;
       used_by := by_; used_at := at_; usage_limit := usage_limit v;
       usage_count := count; valid_from := valid_from v;
       expires_at := expires_at v; discount_type := discount_type v;
       discount_value := discount_value v;
       allowed_user_ids := allowed_user_ids v |}.

  (** [check_usage_count_not_negative], [check_usage_limit_positive],
      [check_usage_count_not_exceed_limit]. *)
Definition check (v : row) : bool :=
    (0 <=? usage_count v) && (0 <? usage_limit v)
    && (usage_count v <=? usage_limit v).
End VoucherCodes.

(** Table [voucher_claims]. *)
Module VoucherClaims.
Record row : Type := mk {
    id : Z;
    user_id : Z;
    voucher_code : string;
    voucher_code_id : option Z;
    status : voucher_status;
    claimed_at : Z;
    ip_address : inet;
    user_agent : string;
    device_id : option string;
    request_id : option uuid;
    refunded_at : option Z;
    refunded_by : option Z;
    refund_reason : option string;
    meta : metadata
  }.

Definition set_refunded (at_ : Z) (by_ : option Z) (reason : string) (c : row) : row :=
    {| id := id c; user_id := user_id c; voucher_code := voucher_code c;
       voucher_code_id := voucher_code_id c; status := refunded;
       claimed_at := claimed_at c; ip_address := ip_address c;
       user_agent := user_agent c; device_id := device_id c;
       request_id := request_id c; refunded_at := Some at_;
       refunded_by := by_; refund_reason := Some reason; meta := meta c |}.

  (** [check_status_refund_consistency]. *)
Definition check (c : row) : bool :=
    match status c, refunded_at c with
    | refunded, Some _ => true
    | refunded, None => false
    | _, None => true
    | _, Some _ => false
    end.
End VoucherClaims.

(** Table [voucher_audit_log]. *)
Module AuditLog.
Record row : Type := mk {
    user_id : option Z;
    action : audit_action;
    voucher_code : option string;
    voucher_code_id : option Z;
    claim_id : option Z;
    ip_address : option inet;
    user_agent : option string;
    device_id : option string;
    meta : metadata
  }.
End AuditLog.

(** The database: the four tables of the core and the sequence behind
    [voucher_claims.id]. *)
Record DB : Type := mkDB {
  users : list Users.row;
  voucher_codes : list VoucherCodes.row;
  voucher_claims : list VoucherClaims.row;
  voucher_audit_log : list AuditLog.row;
  voucher_claims_id_seq : Z
}.

Definition set_users (us : list Users.row) (d : DB) : DB :=
  {| users := us; voucher_codes := voucher_codes d;
     voucher_claims := voucher_claims d;
     voucher_audit_log := voucher_audit_log d;
     voucher_claims_id_seq := voucher_claims_id_seq d |}.

Definition set_voucher_codes (vs : list VoucherCodes.row) (d : DB) : DB :=
  {| users := users d; voucher_codes := vs;
     voucher_claims := voucher_claims d;
     voucher_audit_log := voucher_audit_log d;
     voucher_claims_id_seq := voucher_claims_id_seq d |}.

Definition set_voucher_claims (cs : list VoucherClaims.row) (d : DB) : DB :=
  {| users := users d; voucher_codes := voucher_codes d;
     voucher_claims := cs;
     voucher_audit_log := voucher_audit_log d;
     voucher_claims_id_seq := voucher_claims_id_seq d |}.

Definition set_voucher_audit_log (ls : list AuditLog.row) (d : DB) : DB :=
  {| users := users d; voucher_codes := voucher_codes d;
     voucher_claims := voucher_claims d;
     voucher_audit_log := ls;
     voucher_claims_id_seq := voucher_claims_id_seq d |}.

Definition set_voucher_claims_id_seq (n : Z) (d : DB) : DB :=
  {| users := users d; voucher_codes := voucher_codes d;
     voucher_claims := voucher_claims d;
     voucher_audit_log := voucher_audit_log d;
     voucher_claims_id_seq := n |}.

(** *** Statements *)

(** [UPDATE t SET ... WHERE p]: every row selected by [p] is replaced by
    its image under [f]; the statement is rejected when a new row fails
    the table's check constraints. *)
Definition update_where {R : Type} (p : R → bool) (f : R → R) (check : R → bool)
    (rows : list R) : option (list R) :=
  if forallb (λ r, negb (p r) || check (f r)) rows
  then Some (map (λ r, if p r then f r else r) rows)
  else None.

(** [SELECT ... FROM users WHERE id = $1 AND is_active = TRUE FOR UPDATE]. *)
Definition select_active_user (userId : Z) (d : DB) : list Users.row :=
  filter (λ u, Users.id u = userId ∧ Users.is_active u = true) (users d).

(** [SELECT ... FROM voucher_codes WHERE code = $1 FOR UPDATE]. *)
Definition select_voucher_code (c : string) (d : DB) : list VoucherCodes.row :=
  filter (λ v, VoucherCodes.code v = c) (voucher_codes d).

(** [SELECT id FROM voucher_claims WHERE user_id = $1 AND voucher_code = $2
    AND status = 'success']. *)
Definition select_success_claims (userId : Z) (c : string) (d : DB)
    : list VoucherClaims.row :=
  filter (λ r, VoucherClaims.user_id r = userId ∧ VoucherClaims.voucher_code r = c
               ∧ VoucherClaims.status r = success) (voucher_claims d).

(** [SELECT ... FROM voucher_claims WHERE id = $1 FOR UPDATE]. *)
Definition select_claim (claimId : Z) (d : DB) : list VoucherClaims.row :=
  filter (λ r, VoucherClaims.id r = claimId) (voucher_claims d).

(** [UPDATE users SET vouchers_claimed = vouchers_claimed + 1 WHERE id = $1]. *)
Definition update_user_claimed_incr (userId : Z) (d : DB) : result DB :=
  match update_where (λ u, Users.id u =? userId)
          (λ u, Users.set_vouchers_claimed (Users.vouchers_claimed u + 1) u)
          Users.check (users d) with
  | Some us => Ok (set_users us d)
  | None => Err (StoreError "check_vouchers_not_exceed_limit")
  end.

(** [UPDATE users SET vouchers_claimed = GREATEST(0, vouchers_claimed - 1)
    WHERE id = $1]. *)
Definition update_user_claimed_decr (userId : Z) (d : DB) : result DB :=
  match update_where (λ u, Users.id u =? userId)
          (λ u, Users.set_vouchers_claimed (Z.max 0 (Users.vouchers_claimed u - 1)) u)
          Users.check (users d) with
  | Some us => Ok (set_users us d)
  | None => Err (StoreError "check_vouchers_non_negative")
  end.

(** The explicit usage update of the fast path:
    [UPDATE voucher_codes SET usage_count = usage_count + 1,
       is_used = CASE WHEN usage_count + 1 >= usage_limit THEN TRUE ELSE is_used END,
       used_by = CASE WHEN usage_limit = 1 THEN $1 ELSE used_by END,
       used_at = CASE WHEN usage_limit = 1 THEN NOW() ELSE used_at END
     WHERE id = $2]. *)
Definition update_voucher_usage_fast (now userId voucherId : Z) (d : DB) : result DB :=
  match update_where (λ v, VoucherCodes.id v =? voucherId)
          (λ v, VoucherCodes.set_usage (VoucherCodes.usage_count v + 1)
                  (if VoucherCodes.usage_count v + 1 >=? VoucherCodes.usage_limit v
                   then true else VoucherCodes.is_used v)
                  (if VoucherCodes.usage_limit v =? 1 then Some userId
                   else VoucherCodes.used_by v)
                  (if VoucherCodes.usage_limit v =? 1 then Some now
                   else VoucherCodes.used_at v) v)
          VoucherCodes.check (voucher_codes d) with
  | Some vs => Ok (set_voucher_codes vs d)
  | None => Err (StoreError "check_usage_count_not_exceed_limit")
  end.

(** The usage update of the worker and of the trigger function
    [increment_voucher_code_usage] (the same statement):
    [UPDATE voucher_codes SET usage_count = usage_count + 1,
       is_used = CASE WHEN usage_count + 1 >= usage_limit THEN TRUE ELSE is_used END
     WHERE id = $1]. *)
Definition update_voucher_usage (voucherId : Z) (d : DB) : result DB :=
  match update_where (λ v, VoucherCodes.id v =? voucherId)
          (λ v, VoucherCodes.set_usage (VoucherCodes.usage_count v + 1)
                  (if VoucherCodes.usage_count v + 1 >=? VoucherCodes.usage_limit v
                   then true else VoucherCodes.is_used v)
                  (VoucherCodes.used_by v) (VoucherCodes.used_at v) v)
          VoucherCodes.check (voucher_codes d) with
  | Some vs => Ok (set_voucher_codes vs d)
  | None => Err (StoreError "check_usage_count_not_exceed_limit")
  end.

(** [UPDATE voucher_codes SET usage_count = GREATEST(0, usage_count - 1),
    is_used = FALSE WHERE id = $1]. *)
Definition update_voucher_usage_decr (voucherId : Z) (d : DB) : result DB :=
  match update_where (λ v, VoucherCodes.id v =? voucherId)
          (λ v, VoucherCodes.set_usage (Z.max 0 (VoucherCodes.usage_count v - 1))
                  false (VoucherCodes.used_by v) (VoucherCodes.used_at v) v)
          VoucherCodes.check (voucher_codes d) with
  | Some vs => Ok (set_voucher_codes vs d)
  | None => Err (StoreError "check_usage_count_not_negative")
  end.

(** [refunded_by INTEGER REFERENCES users(id)]: a row that is updated must
    name a user that exists, or nobody. *)
Definition refunded_by_fkey (adminId : option Z) (claimId : Z) (d : DB) : bool :=
  match adminId with
  | Some a =>
      negb (existsb (λ c, VoucherClaims.id c =? claimId) (voucher_claims d))
      || existsb (λ u, Users.id u =? a) (users d)
  | None => true
  end.

(** [UPDATE voucher_claims SET status = 'refunded', refunded_at = NOW(),
    refunded_by = $1, refund_reason = $2 WHERE id = $3]. *)
Definition update_claim_refunded (now : Z) (adminId : option Z) (reason : string)
    (claimId : Z) (d : DB) : result DB :=
  match update_where (λ c, VoucherClaims.id c =? claimId)
          (VoucherClaims.set_refunded now adminId reason)
          VoucherClaims.check (voucher_claims d) with
  | Some cs =>
      if refunded_by_fkey adminId claimId d then Ok (set_voucher_claims cs d)
      else Err (StoreError "voucher_claims_refunded_by_fkey")
  | None => Err (StoreError "check_status_refund_consistency")
  end.

(** [INSERT INTO voucher_audit_log ...]. *)
Definition insert_audit (a : AuditLog.row) (d : DB) : DB :=
  set_voucher_audit_log (voucher_audit_log d ++ [a]) d.

(** Trigger function [increment_voucher_code_usage] (trigger
    [increment_voucher_usage], AFTER INSERT ON voucher_claims). *)
Definition increment_voucher_code_usage (NEW : VoucherClaims.row) (d : DB) : result DB :=
  match VoucherClaims.status NEW, VoucherClaims.voucher_code_id NEW with
  | success, Some vid => update_voucher_usage vid d
  | _, _ => Ok d
  end.

(** Trigger function [log_claim_to_audit] (trigger [log_voucher_claim],
    AFTER INSERT ON voucher_claims). *)
Definition log_claim_to_audit (NEW : VoucherClaims.row) (d : DB) : DB :=
  insert_audit
    {| AuditLog.user_id := Some (VoucherClaims.user_id NEW);
       AuditLog.action := match VoucherClaims.status NEW with
                          | success => CLAIM_SUCCESS
                          | _ => CLAIM_DENIED
                          end;
       AuditLog.voucher_code := Some (VoucherClaims.voucher_code NEW);
       AuditLog.voucher_code_id := VoucherClaims.voucher_code_id NEW;
       AuditLog.claim_id := Some (VoucherClaims.id NEW);
       AuditLog.ip_address := Some (VoucherClaims.ip_address NEW);
       AuditLog.user_agent := Some (VoucherClaims.user_agent NEW);
       AuditLog.device_id := VoucherClaims.device_id NEW;
       AuditLog.meta := VoucherClaims.meta NEW |} d.

(** The insert of a row of [voucher_claims] whose values are of the types
    of their columns: the id is drawn from the sequence, the row is checked
    and appended, and the two AFTER INSERT triggers run in the order of
    their names ([increment_voucher_usage] before [log_voucher_claim]).
    The result is the stored row; a rejected insert leaves only the
    sequence advanced. *)
Definition insert_row (mkrow : Z → VoucherClaims.row) (d : DB)
    : result VoucherClaims.row * DB :=
  let new_id := voucher_claims_id_seq d + 1 in
  let NEW := mkrow new_id in
  let d0 := set_voucher_claims_id_seq new_id d in
  if VoucherClaims.check NEW then
    match increment_voucher_code_usage NEW
            (set_voucher_claims (voucher_claims d0 ++ [NEW]) d0) with
    | Ok d1 => (Ok NEW, log_claim_to_audit NEW d1)
    | Err e => (Err e, d0)
    end
  else (Err (StoreError "check_status_refund_consistency"), d0).

(** [INSERT INTO voucher_claims (...) VALUES (...) RETURNING id], with the
    texts the code passes for [ip_address], [device_id] and [request_id].
    The parameters are converted before the statement runs: a text that
    is no [inet] or no [uuid] fails when it is bound, and a device id that
    does not fit [VARCHAR(255)] fails when the statement is planned with
    the bound values; in both cases no id has been drawn yet.  [user_id]
    and [voucher_code_id] are the ids of rows the transaction has just
    read, so their foreign keys hold. *)
Definition insert_claim (ipAddress : string) (deviceId : option string)
    (requestId : string)
    (mkrow : inet → option string → uuid → Z → VoucherClaims.row) (d : DB)
    : result VoucherClaims.row * DB :=
  match inet_in ipAddress, uuid_in requestId with
  | Some ip, Some rid =>
      match deviceId with
      | Some dev =>
          match varchar_in 255 dev with
          | Some dev' => insert_row (mkrow ip (Some dev') rid) d
          | None => (Err (StoreError "string_data_right_truncation"), d)
          end
      | None => insert_row (mkrow ip None rid) d
      end
  | _, _ => (Err (StoreError "invalid_text_representation"), d)
  end.

(** ** The types of [types/index.ts] *)

Module User.
Record t : Type := mk {
  id : Z;
  email : string;
  vouchersClaimed : Z;
  voucherLimit : Z;
  isPremium : bool;
  isAdmin : bool;
  isActive : bool
}.
End User.

Module VoucherCode.
Record t : Type := mk {
  id : Z;
  code : string;
  isActive : bool;
  isUsed : bool;
  usageLimit : Z;
  usageCount : Z;
  validFrom : option Z;
  expiresAt : option Z;
  allowedUserIds : option (list Z)
}.
End VoucherCode.

Module ClaimStatus.
Inductive t : Type := pending | success | limit_reached.
End ClaimStatus.

Module ClaimVoucherRequest.
Record t : Type := mk {
  userId : Z;
  voucherCode : string;
  ipAddress : string;
  userAgent : string;
  deviceId : option string;
  idempotencyKey : string
}.
End ClaimVoucherRequest.

Module ClaimVoucherResponse.
Record t : Type := mk {
  success : bool;
  message : string;
  vouchersRemaining : option Z;
  requestId : option string;
  status : option ClaimStatus.t
}.
End ClaimVoucherResponse.

Module QueueJob.
Record t : Type := mk {
  id : string;
  userId : Z;
  voucherCode : string;
  ipAddress : string;
  userAgent : string;
  deviceId : option string;
  idempotencyKey : string;
  timestamp : Z
}.
End QueueJob.

Module RateLimitResult.
Record t : Type := mk {
  allowed : bool;
  remainingRequests : Z;
  resetTime : Z
}.
End RateLimitResult.

(** ** Redis ([config/redis.ts] and the commands the services issue) *)

(** What the service stores under a string key, in parsed form: an integer
    (a voucher count, an [INCR] counter), a serialized [User], a serialized
    claim result. *)
Inductive payload : Type :=
| PInt (n : Z)
| PUser (u : User.t)
| PResult (r : ClaimVoucherResponse.t).

(** A sorted set: members with their scores. *)
Abbreviation zset := (list (Z * string)).

Record Redis : Type := mkRedis {
  strings : gmap string (payload * option Z);
  zsets : gmap string (zset * option Z)
}.

Definition set_strings (m : gmap string (payload * option Z)) (r : Redis) : Redis :=
  {| strings := m; zsets := zsets r |}.

Definition set_zsets (m : gmap string (zset * option Z)) (r : Redis) : Redis :=
  {| strings := strings r; zsets := m |}.

(** A key whose expiry instant has been reached is gone. *)
Definition live {V : Type} (now : Z) (e : V * option Z) : option V :=
  match e.2 with
  | Some t => if t <=? now then None else Some e.1
  | None => Some e.1
  end.

Definition live_entry {V : Type} (now : Z) (e : V * option Z) : option (V * option Z) :=
  match live now e with Some _ => Some e | None => None end.

Module redis.

(** [GET key]. *)
Definition get (now : Z) (key : string) (r : Redis) : option payload :=
  strings r !! key ≫= live now.

(** [redis.set(key, value, ttl)]: [SETEX] when [ttl] is given and not zero,
    plain [SET] otherwise. *)
Definition set (now : Z) (key : string) (value : payload) (ttl : option Z)
    (r : Redis) : Redis :=
  match ttl with
  | Some s => if s =? 0 then set_strings (<[key := (value, None)]> (strings r)) r
              else set_strings (<[key := (value, Some (now + s * 1000))]> (strings r)) r
  | None => set_strings (<[key := (value, None)]> (strings r)) r
  end.

(** [DEL key]. *)
Definition del (key : string) (r : Redis) : Redis :=
  {| strings := delete key (strings r); zsets := delete key (zsets r) |}.

(** [INCR key]: a missing key counts as 0; the expiry of a live key is
    kept; a value that is not an integer is an error. *)
Definition incr (now : Z) (key : string) (r : Redis) : result Z * Redis :=
  match strings r !! key ≫= live_entry now with
  | None => (Ok 1, set_strings (<[key := (PInt 1, None)]> (strings r)) r)
  | Some (PInt n, e) => (Ok (n + 1), set_strings (<[key := (PInt (n + 1), e)]> (strings r)) r)
  | Some _ => (Err (PlainError "ERR value is not an integer or out of range"), r)
  end.

(** [EXPIRE key seconds] on a string key or a sorted-set key: a live key
    gets the new expiry; a timeout that is not positive deletes it. *)
Definition expire (now : Z) (key : string) (seconds : Z) (r : Redis) : Redis :=
  if seconds <=? 0 then del key r
  else
    {| strings := match strings r !! key ≫= live_entry now with
                  | Some (v, _) => <[key := (v, Some (now + seconds * 1000))]> (strings r)
                  | None => strings r
                  end;
       zsets := match zsets r !! key ≫= live_entry now with
                | Some (z, _) => <[key := (z, Some (now + seconds * 1000))]> (zsets r)
                | None => zsets r
                end |}.

(** The live sorted set under [key]; a missing key is the empty set. *)
Definition zget (now : Z) (key : string) (r : Redis) : zset :=
  default [] (zsets r !! key ≫= live now).

(** Write a sorted set back: an empty set removes the key, a live key keeps
    its expiry, a new key has none. *)
Definition zput (now : Z) (key : string) (z : zset) (r : Redis) : Redis :=
  match z with
  | [] => set_zsets (delete key (zsets r)) r
  | _ => let e := match zsets r !! key ≫= live_entry now with
                  | Some (_, e) => e
                  | None => None
                  end in
         set_zsets (<[key := (z, e)]> (zsets r)) r
  end.

(** [ZREMRANGEBYSCORE key min max]. *)
Definition zremrangebyscore (now : Z) (key : string) (min max : Z) (r : Redis) : Redis :=
  zput now key
    (filter (λ e : Z * string, ¬ (min ≤ e.1 ∧ e.1 ≤ max)) (zget now key r)) r.

(** [ZCARD key]. *)
Definition zcard (now : Z) (key : string) (r : Redis) : Z :=
  Z.of_nat (length (zget now key r)).

(** [ZADD key score member]: a member already present takes the new
    score. *)
Definition zadd (now : Z) (key : string) (score : Z) (member : string) (r : Redis) : Redis :=
  zput now key
    (filter (λ e : Z * string, e.2 ≠ member) (zget now key r) ++ [(score, member)]) r.

(** The order of a sorted set: by score, then by member. *)
Definition zlt (a b : Z * string) : bool :=
  (a.1 <? b.1) || ((a.1 =? b.1) && match String.compare a.2 b.2 with Lt => true | _ => false end).

Definition zmin (a b : Z * string) : Z * string := if zlt b a then b else a.

(** [ZRANGE key 0 0 WITHSCORES]: the first element in the order of the set,
    if any. *)
Definition zrange_first (now : Z) (key : string) (r : Redis) : option (Z * string) :=
  match zget now key r with
  | [] => None
  | e :: z => Some (foldr zmin e z)
  end.

(** [SCAN ... MATCH prefix*], iterated until the cursor is back at 0: the
    live keys that start with [prefix]. *)
Definition scan_prefix (now : Z) (prefix : string) (r : Redis) : list string :=
  filter (λ k, String.prefix prefix k = true)
    (elements (dom (filter (λ kv : string * (payload * option Z), is_Some (live now kv.2)) (strings r))
               ∪ dom (filter (λ kv : string * (zset * option Z), is_Some (live now kv.2)) (zsets r)))).

End redis.

(** ** The world and its operations *)

(** The state the pipeline runs against: the database, Redis, the jobs
    handed to the queue so far, and the breaker of the [VoucherService]
    instance. *)
Record World : Type := mkWorld {
  db : DB;
  kv : Redis;
  queue : list QueueJob.t;
  dbCircuitBreaker : CircuitBreaker.t
}.

Definition set_db (d : DB) (w : World) : World :=
  {| db := d; kv := kv w; queue := queue w; dbCircuitBreaker := dbCircuitBreaker w |}.

Definition set_kv (r : Redis) (w : World) : World :=
  {| db := db w; kv := r; queue := queue w; dbCircuitBreaker := dbCircuitBreaker w |}.

Definition set_queue (q : list QueueJob.t) (w : World) : World :=
  {| db := db w; kv := kv w; queue := q; dbCircuitBreaker := dbCircuitBreaker w |}.

Definition set_dbCircuitBreaker (cb : CircuitBreaker.t) (w : World) : World :=
  {| db := db w; kv := kv w; queue := queue w; dbCircuitBreaker := cb |}.

(** An operation: a result (a value or a thrown error) and the next world. *)
Definition M (A : Type) : Type := World → result A * World.

Definition ret {A : Type} (a : A) : M A := λ w, (Ok a, w).

Definition throw {A : Type} (e : error) : M A := λ w, (Err e, w).

Definition bind {A B : Type} (m : M A) (k : A → M B) : M B :=
  λ w, match m w with
       | (Ok a, w') => k a w'
       | (Err e, w') => (Err e, w')
       end.

Notation "'let*' x := m 'in' k" := (bind m (λ x, k))
  (at level 10, x name, m at level 100, k at level 200).
Notation "m ;; k" := (bind m (λ _, k))
  (at level 100, k at level 200, right associativity).

(** A query: reads the database. *)
Definition query {A : Type} (q : DB → A) : M A := λ w, (Ok (q (db w)), w).

(** A statement: changes the database or is rejected by the store. *)
Definition exec (s : DB → result DB) : M unit :=
  λ w, match s (db w) with
       | Ok d => (Ok tt, set_db d w)
       | Err e => (Err e, w)
       end.

(** A statement with a reply. *)
Definition stmt {A : Type} (s : DB → result A * DB) : M A :=
  λ w, let '(r, d) := s (db w) in (r, set_db d w).

(** A Redis read and a Redis write. *)
Definition kv_read {A : Type} (f : Redis → A) : M A := λ w, (Ok (f (kv w)), w).

Definition kv_write (f : Redis → Redis) : M unit := λ w, (Ok tt, set_kv (f (kv w)) w).

(** [Database.transaction] ([config/database.ts]; in the sources the class
    is at the end of [middleware/auth.ts]): [BEGIN], the callback, [COMMIT]
    and the result of the callback; when the callback throws, [ROLLBACK]
    and the error is thrown on.  A rollback restores the tables; a sequence
    keeps the values it has handed out, and what the body did outside the
    database stays. *)
Definition transaction {A : Type} (body : M A) : M A :=
  λ w, match body w with
       | (Ok a, w') => (Ok a, w')
       | (Err e, w') =>
           (Err e, set_db (set_voucher_claims_id_seq
                             (voucher_claims_id_seq (db w')) (db w)) w')
       end.

(** ** [CacheService] *)

Module cacheService.

Definition USER_CACHE_TTL : Z := 300.
Definition VOUCHER_COUNT_TTL : Z := 300.
Definition USER_CACHE_PREFIX : string := "user:".
Definition CLAIM_RESULT_PREFIX : string := "claim:result:".

(** Only integers are ever stored under a [user:{id}:vouchers] key; another
    payload there reads as a miss. *)
Definition getUserVoucherCount (now : Z) (userId : Z) : M (option Z) :=
  let key := USER_CACHE_PREFIX +:+ pretty userId +:+ ":vouchers" in
  let* cached := kv_read (redis.get now key) in
  match cached with
  | Some (PInt n) => ret (Some n)
  | _ => ret None
  end.

Definition setUserVoucherCount (now : Z) (userId : Z) (count : Z) : M unit :=
  let key := USER_CACHE_PREFIX +:+ pretty userId +:+ ":vouchers" in
  kv_write (redis.set now key (PInt count) (Some VOUCHER_COUNT_TTL)).

(** Only users are ever stored under a [user:{id}:data] key. *)
Definition getUser (now : Z) (userId : Z) : M (option User.t) :=
  let key := USER_CACHE_PREFIX +:+ pretty userId +:+ ":data" in
  let* cached := kv_read (redis.get now key) in
  match cached with
  | Some (PUser u) => ret (Some u)
  | _ => ret None
  end.

Definition setUser (now : Z) (user : User.t) : M unit :=
  let key := USER_CACHE_PREFIX +:+ pretty (User.id user) +:+ ":data" in
  kv_write (redis.set now key (PUser user) (Some USER_CACHE_TTL)).

(** [getKeysByPattern] with the pattern [user:{id}:*], then a pipeline of
    [DEL]s. *)
Definition invalidateUserCache (now : Z) (userId : Z) : M unit :=
  let prefix := USER_CACHE_PREFIX +:+ pretty userId +:+ ":" in
  let* keys := kv_read (redis.scan_prefix now prefix) in
  kv_write (λ r, foldr redis.del r keys).

Definition cacheClaimResult (now : Z) (idempotencyKey : string)
    (result : ClaimVoucherResponse.t) : M unit :=
  let key := CLAIM_RESULT_PREFIX +:+ idempotencyKey in
  kv_write (redis.set now key (PResult result) (Some 3600)).

(** Only claim results are ever stored under a [claim:result:] key. *)
Definition getClaimResult (now : Z) (idempotencyKey : string)
    : M (option ClaimVoucherResponse.t) :=
  let key := CLAIM_RESULT_PREFIX +:+ idempotencyKey in
  let* cached := kv_read (redis.get now key) in
  match cached with
  | Some (PResult r) => ret (Some r)
  | _ => ret None
  end.

End cacheService.

(** ** [RateLimitService] *)

Module rateLimitService.

(** Sliding window rate limiter.  The four pipelined commands run in order
    on the key [rate_limit:user:{id}]; the count is the reply of [ZCARD]. *)
Definition checkRateLimit (now : Z) (userId : Z) (maxRequests windowSeconds : Z)
    : M RateLimitResult.t :=
  let key := "rate_limit:user:" +:+ pretty userId in
  let windowStart := now - windowSeconds * 1000 in
  kv_write (redis.zremrangebyscore now key 0 windowStart);;
  let* requestCount := kv_read (redis.zcard now key) in
  kv_write (redis.zadd now key now (pretty now));;
  kv_write (redis.expire now key windowSeconds);;
  if requestCount >=? maxRequests then
    let* oldestRequest := kv_read (redis.zrange_first now key) in
    let resetTime :=
      match oldestRequest with
      | Some (score, _) => score + windowSeconds * 1000
      | None => now + windowSeconds * 1000
      end in
    ret {| RateLimitResult.allowed := false;
           RateLimitResult.remainingRequests := 0;
           RateLimitResult.resetTime := resetTime |}
  else
    ret {| RateLimitResult.allowed := true;
           RateLimitResult.remainingRequests := maxRequests - requestCount - 1;
           RateLimitResult.resetTime := now + windowSeconds * 1000 |}.

(** Check IP-based rate limit. *)
Definition checkIPRateLimit (now : Z) (ipAddress : string) (maxRequests windowSeconds : Z)
    : M bool :=
  let key := "rate_limit:ip:" +:+ ipAddress in
  let* count := (λ w, let '(c, r) := redis.incr now key (kv w) in (c, set_kv r w)) in
  (if count =? 1 then kv_write (redis.expire now key windowSeconds) else ret tt);;
  if count >? maxRequests then ret false else ret true.

End rateLimitService.

(** ** The claim queue ([config/queue.ts]) *)

Module queueService.

(** [voucherQueue.add("claim-voucher", data, {priority, jobId})] with the
    idempotency key as [jobId]: the job is handed to the queue.  The reply
    is the id of the job, which is the [jobId] that was passed. *)
Definition addClaimJob (data : QueueJob.t) : M string :=
  λ w, (Ok (QueueJob.idempotencyKey data), set_queue (queue w ++ [data]) w).

End queueService.

(** ** [VoucherService] *)

Module voucherService.

(** Get user by ID with caching. *)
Definition getUser (now : Z) (userId : Z) : M User.t :=
  let* cachedUser := cacheService.getUser now userId in
  match cachedUser with
  | Some u => ret u
  | None =>
      let* rows := query (select_active_user userId) in
      match rows with
      | [] => throw (PlainError "User not found or inactive")
      | row :: _ =>
          let user := {| User.id := Users.id row;
                         User.email := Users.email row;
                         User.vouchersClaimed := Users.vouchers_claimed row;
                         User.voucherLimit := Users.voucher_limit row;
                         User.isPremium := Users.is_premium row;
                         User.isAdmin := Users.is_admin row;
                         User.isActive := Users.is_active row |} in
          cacheService.setUser now user;;
          ret user
      end
  end.

(** Get voucher code from database. *)
Definition getVoucherCode (c : string) : M (option VoucherCode.t) :=
  let* rows := query (select_voucher_code c) in
  match rows with
  | [] => ret None
  | row :: _ =>
      ret (Some {| VoucherCode.id := VoucherCodes.id row;
                   VoucherCode.code := VoucherCodes.code row;
                   VoucherCode.isActive := VoucherCodes.is_active row;
                   VoucherCode.isUsed := VoucherCodes.is_used row;
                   VoucherCode.usageLimit := VoucherCodes.usage_limit row;
                   VoucherCode.usageCount := VoucherCodes.usage_count row;
                   VoucherCode.validFrom := VoucherCodes.valid_from row;
                   VoucherCode.expiresAt := VoucherCodes.expires_at row;
                   VoucherCode.allowedUserIds := VoucherCodes.allowed_user_ids row |})
  end.

(** A character of the class [[A-Z0-9-]]. *)
Definition valid_code_char (c : ascii) : bool :=
  let n := nat_of_ascii c in
  ((65 <=? n) && (n <=? 90) || (48 <=? n) && (n <=? 57) || (n =? 45))%nat.

Fixpoint all_chars (p : ascii → bool) (s : string) : bool :=
  match s with
  | EmptyString => true
  | String c s' => p c && all_chars p s'
  end.

(** Validate voucher code format: length 6 to 50 and [/^[A-Z0-9-]+$/]. *)
Definition isValidVoucherCodeFormat (c : string) : bool :=
  if ((String.length c <? 6) || (50 <? String.length c))%nat then false
  else all_chars valid_code_char c.

(** Check if voucher code is valid for use. *)
Definition isVoucherCodeValid (now : Z) (voucher : VoucherCode.t) (userId : Z) : bool :=
  if negb (VoucherCode.isActive voucher) then false
  else if VoucherCode.usageCount voucher >=? VoucherCode.usageLimit voucher then false
  else if match VoucherCode.validFrom voucher with
          | Some t => t >? now
          | None => false
          end then false
  else if match VoucherCode.expiresAt voucher with
          | Some t => t <? now
          | None => false
          end then false
  else match VoucherCode.allowedUserIds voucher with
       | Some ((_ :: _) as ids) => bool_decide (userId ∈ ids)
       | _ => true
       end.

(** [Math.ceil(x / 1000)] on an integer [x]. *)
Definition ceil_div_1000 (x : Z) : Z := - ((- x) / 1000).

(** The body of the transaction of [processClaimImmediate]. *)
Definition processClaimImmediate_body (now : Z) (request : ClaimVoucherRequest.t)
    : M ClaimVoucherResponse.t :=
  let userId := ClaimVoucherRequest.userId request in
  let voucherCode := ClaimVoucherRequest.voucherCode request in
  (* Lock user row *)
  let* userResult := query (select_active_user userId) in
  match userResult with
  | [] => throw (PlainError "User not found or inactive")
  | user :: _ =>
      (* Check limit *)
      if Users.vouchers_claimed user >=? Users.voucher_limit user then
        throw (VoucherLimitExceeded "Voucher limit exceeded")
      else
        (* Get and lock voucher code *)
        let* voucherResult := query (select_voucher_code voucherCode) in
        match voucherResult with
        | [] => throw (InvalidVoucherCode "Voucher code not found")
        | voucher :: _ =>
            (* Validate voucher *)
            if negb (VoucherCodes.is_active voucher) then
              throw (InvalidVoucherCode "Voucher code is inactive")
            else if match VoucherCodes.expires_at voucher with
                    | Some t => t <? now
                    | None => false
                    end then
              throw (InvalidVoucherCode "Voucher code has expired")
            else if VoucherCodes.usage_count voucher >=? VoucherCodes.usage_limit voucher then
              throw (InvalidVoucherCode "Voucher code usage limit reached")
            else
              (* Check if user already claimed this voucher *)
              let* existingClaim := query (select_success_claims userId voucherCode) in
              if (0 <? length existingClaim)%nat then
                throw (InvalidVoucherCode "You have already claimed this voucher")
              else
                (* Update user's voucher count *)
                exec (update_user_claimed_incr userId);;
                exec (update_voucher_usage_fast now userId (VoucherCodes.id voucher));;
                (* Create voucher claim record *)
                let* claimResult :=
                  stmt (insert_claim
                    (ClaimVoucherRequest.ipAddress request)
                    (ClaimVoucherRequest.deviceId request)
                    (ClaimVoucherRequest.idempotencyKey request)
                    (λ ip_address device_id request_id new_id,
                       {| VoucherClaims.id := new_id;
                          VoucherClaims.user_id := userId;
                          VoucherClaims.voucher_code := voucherCode;
                          VoucherClaims.voucher_code_id := Some (VoucherCodes.id voucher);
                          VoucherClaims.status := success;
                          VoucherClaims.claimed_at := now;
                          VoucherClaims.ip_address := ip_address;
                          VoucherClaims.user_agent := ClaimVoucherRequest.userAgent request;
                          VoucherClaims.device_id := device_id;
                          VoucherClaims.request_id := Some request_id;
                          VoucherClaims.refunded_at := None;
                          VoucherClaims.refunded_by := None;
                          VoucherClaims.refund_reason := None;
                          VoucherClaims.meta :=
                            MetaDiscount (VoucherCodes.discount_type voucher)
                                         (VoucherCodes.discount_value voucher) |})) in
                (* Invalidate cache, update cache with new count *)
                cacheService.invalidateUserCache now userId;;
                cacheService.setUserVoucherCount now userId (Users.vouchers_claimed user + 1);;
                ret {| ClaimVoucherResponse.success := true;
                       ClaimVoucherResponse.message := "Voucher claimed successfully";
                       ClaimVoucherResponse.vouchersRemaining :=
                         Some (Users.voucher_limit user - (Users.vouchers_claimed user + 1));
                       ClaimVoucherResponse.requestId := None;
                       ClaimVoucherResponse.status := Some ClaimStatus.success |}
        end
  end.

(** [Promise.race([fn(), this.timeout()])] for an action on the world.
    [late] says that the timer of the breaker ([options.timeout]
    milliseconds) fires before the action settles: the race then ends with
    the error of the timer.  The action is not cancelled: it runs to its
    end, and what it does to the world is done. *)
Definition raced {A : Type} (late : bool) (action : M A) : M A :=
  λ w, let '(r, w') := action w in
       if late then (Err (PlainError "Circuit breaker timeout"), w') else (r, w').

(** Process voucher claim immediately: the transaction, raced against the
    timer and run through the breaker of the service. *)
Definition processClaimImmediate (now : Z) (late : bool)
    (request : ClaimVoucherRequest.t) : M ClaimVoucherResponse.t :=
  λ w, let '(r, cb, w') :=
         CircuitBreaker.execute now
           (raced late (transaction (processClaimImmediate_body now request)))
           (dbCircuitBreaker w) w in
       (r, set_dbCircuitBreaker cb w').

(** Main entry point for claiming vouchers.  [late] is for the breaker of
    the fast path (see [raced]).  The clock is read a second time, at
    [now'], for the number of seconds in the message of [RateLimitExceeded]
    or for the [timestamp] of the job. *)
Definition claimVoucher (now now' : Z) (late : bool) (request : ClaimVoucherRequest.t)
    : M ClaimVoucherResponse.t :=
  let userId := ClaimVoucherRequest.userId request in
  let idempotencyKey := ClaimVoucherRequest.idempotencyKey request in
  (* Check for existing result (idempotency) *)
  let* existingResult := cacheService.getClaimResult now idempotencyKey in
  match existingResult with
  | Some r => ret r
  | None =>
      (* Rate limiting *)
      let* rateLimit := rateLimitService.checkRateLimit now userId 10 60 in
      if negb (RateLimitResult.allowed rateLimit) then
        throw (RateLimitExceeded
                 ("Rate limit exceeded. Try again in "
                  +:+ pretty (ceil_div_1000 (RateLimitResult.resetTime rateLimit - now'))
                  +:+ " seconds"))
      else
        (* IP rate limiting *)
        let* ipAllowed :=
          rateLimitService.checkIPRateLimit now
            (ClaimVoucherRequest.ipAddress request) 100 60 in
        if negb ipAllowed then
          throw (RateLimitExceeded "Too many requests from this IP")
        else
          (* Check cache first *)
          let* cachedCount := cacheService.getUserVoucherCount now userId in
          match cachedCount with
          | Some c =>
              let* user := getUser now userId in
              if c >=? User.voucherLimit user then
                throw (VoucherLimitExceeded "Voucher limit exceeded")
              else ret tt
          | None => ret tt
          end;;
          (* Validate voucher code format *)
          if negb (isValidVoucherCodeFormat (ClaimVoucherRequest.voucherCode request)) then
            throw (InvalidVoucherCode "Invalid voucher code format")
          else
            (* Check if voucher code exists and is valid *)
            let* voucherCode := getVoucherCode (ClaimVoucherRequest.voucherCode request) in
            match voucherCode with
            | None => throw (InvalidVoucherCode "Voucher code not found")
            | Some vc =>
                if negb (isVoucherCodeValid now vc userId) then
                  throw (InvalidVoucherCode "Voucher code is not valid or has expired")
                else
                  (* Process immediately for premium users, queue for others *)
                  let* user := getUser now userId in
                  if User.isPremium user then
                    let* result := processClaimImmediate now late request in
                    cacheService.cacheClaimResult now idempotencyKey result;;
                    ret result
                  else
                    let* jobId :=
                      queueService.addClaimJob
                        {| QueueJob.id := idempotencyKey;
                           QueueJob.userId := userId;
                           QueueJob.voucherCode := ClaimVoucherRequest.voucherCode request;
                           QueueJob.ipAddress := ClaimVoucherRequest.ipAddress request;
                           QueueJob.userAgent := ClaimVoucherRequest.userAgent request;
                           QueueJob.deviceId := ClaimVoucherRequest.deviceId request;
                           QueueJob.idempotencyKey := idempotencyKey;
                           QueueJob.timestamp := now' |} in
                    ret {| ClaimVoucherResponse.success := true;
                           ClaimVoucherResponse.message := "Claim request queued for processing";
                           ClaimVoucherResponse.vouchersRemaining := None;
                           ClaimVoucherResponse.requestId := Some jobId;
                           ClaimVoucherResponse.status := Some ClaimStatus.pending |}
            end
  end.

(** The body of the transaction of [refundVoucher]. *)
Definition refundVoucher_body (now : Z) (claimId : Z) (reason : string)
    (adminId : option Z) : M unit :=
  (* Get claim *)
  let* claimResult := query (select_claim claimId) in
  match claimResult with
  | [] => throw (PlainError "Claim not found")
  | claim :: _ =>
      if bool_decide (VoucherClaims.status claim = refunded) then
        throw (PlainError "Claim already refunded")
      else
        (* Update claim status *)
        exec (update_claim_refunded now adminId reason claimId);;
        (* Decrement user's voucher count *)
        exec (update_user_claimed_decr (VoucherClaims.user_id claim));;
        (* Decrement voucher code usage count *)
        match VoucherClaims.voucher_code_id claim with
        | Some vid => if vid =? 0 then ret tt else exec (update_voucher_usage_decr vid)
        | None => ret tt
        end;;
        (* Log to audit *)
        exec (λ d, Ok (insert_audit
                         {| AuditLog.user_id := Some (VoucherClaims.user_id claim);
                            AuditLog.action := REFUND;
                            AuditLog.voucher_code := Some (VoucherClaims.voucher_code claim);
                            AuditLog.voucher_code_id := VoucherClaims.voucher_code_id claim;
                            AuditLog.claim_id := Some claimId;
                            AuditLog.ip_address := None;
                            AuditLog.user_agent := None;
                            AuditLog.device_id := None;
                            AuditLog.meta := MetaRefund reason adminId |} d));;
        (* Invalidate cache *)
        cacheService.invalidateUserCache now (VoucherClaims.user_id claim)
  end.

(** Refund a voucher. *)
Definition refundVoucher (now : Z) (claimId : Z) (reason : string)
    (adminId : option Z) : M unit :=
  transaction (refundVoucher_body now claimId reason adminId).

End voucherService.

(** ** The queue worker ([workers/voucherWorker.ts]) *)

Module voucherWorker.

(** The body of the transaction of [processJob]. *)
Definition processJob_body (now : Z) (job : QueueJob.t) : M ClaimVoucherResponse.t :=
  let userId := QueueJob.userId job in
  let voucherCode := QueueJob.voucherCode job in
  (* Lock user row *)
  let* userResult := query (select_active_user userId) in
  match userResult with
  | [] => throw (PlainError "User not found or inactive")
  | user :: _ =>
      (* Check limit *)
      if Users.vouchers_claimed user >=? Users.voucher_limit user then
        ret {| ClaimVoucherResponse.success := false;
               ClaimVoucherResponse.message := "Voucher limit exceeded";
               ClaimVoucherResponse.vouchersRemaining := None;
               ClaimVoucherResponse.requestId := None;
               ClaimVoucherResponse.status := Some ClaimStatus.limit_reached |}
      else
        (* Get and validate voucher code *)
        let* voucherResult := query (select_voucher_code voucherCode) in
        match voucherResult with
        | [] => throw (PlainError "Voucher code not found")
        | voucher :: _ =>
            (* Validate voucher *)
            if negb (VoucherCodes.is_active voucher)
               || match VoucherCodes.expires_at voucher with
                  | Some t => t <? now
                  | None => false
                  end
               || (VoucherCodes.usage_count voucher >=? VoucherCodes.usage_limit voucher)
            then throw (PlainError "Voucher code is not valid")
            else
              (* Update user's voucher count *)
              exec (update_user_claimed_incr userId);;
              (* Update voucher code usage *)
              exec (update_voucher_usage (VoucherCodes.id voucher));;
              (* Create voucher claim record *)
              stmt (insert_claim
                (QueueJob.ipAddress job) (QueueJob.deviceId job)
                (QueueJob.idempotencyKey job)
                (λ ip_address device_id request_id new_id,
                   {| VoucherClaims.id := new_id;
                      VoucherClaims.user_id := userId;
                      VoucherClaims.voucher_code := voucherCode;
                      VoucherClaims.voucher_code_id := Some (VoucherCodes.id voucher);
                      VoucherClaims.status := success;
                      VoucherClaims.claimed_at := now;
                      VoucherClaims.ip_address := ip_address;
                      VoucherClaims.user_agent := QueueJob.userAgent job;
                      VoucherClaims.device_id := device_id;
                      VoucherClaims.request_id := Some request_id;
                      VoucherClaims.refunded_at := None;
                      VoucherClaims.refunded_by := None;
                      VoucherClaims.refund_reason := None;
                      VoucherClaims.meta := MetaEmpty |}));;
              (* Cache operations *)
              cacheService.invalidateUserCache now userId;;
              cacheService.setUserVoucherCount now userId (Users.vouchers_claimed user + 1);;
              ret {| ClaimVoucherResponse.success := true;
                     ClaimVoucherResponse.message := "Voucher claimed successfully";
                     ClaimVoucherResponse.vouchersRemaining :=
                       Some (Users.voucher_limit user - (Users.vouchers_claimed user + 1));
                     ClaimVoucherResponse.requestId := None;
                     ClaimVoucherResponse.status := Some ClaimStatus.success |}
        end
  end.

(** [processJob]: the transaction, then the result is cached under the
    idempotency key.  An [Ok] result completes the job with that return
    value; an [Err] result fails it. *)
Definition processJob (now : Z) (job : QueueJob.t) : M ClaimVoucherResponse.t :=
  let* result := transaction (processJob_body now job) in
  (* Cache the result *)
  cacheService.cacheClaimResult now (QueueJob.idempotencyKey job) result;;
  ret result.

End voucherWorker.

(** ** Histories of operations *)

(** The operations that change committed state: a claim request at the
    coordinator, a job run by the worker, a refund. *)
Inductive op : Type :=
| Claim (now now' : Z) (late : bool) (request : ClaimVoucherRequest.t)
| Job (now : Z) (job : QueueJob.t)
| Refund (now : Z) (claimId : Z) (reason : string) (adminId : option Z).

Definition step (o : op) (w : World) : World :=
  match o with
  | Claim now now' late request =>
      (voucherService.claimVoucher now now' late request w).2
  | Job now job => (voucherWorker.processJob now job w).2
  | Refund now claimId reason adminId =>
      (voucherService.refundVoucher now claimId reason adminId w).2
  end.

Definition run (ops : list op) (w : World) : World :=
  fold_left (λ w o, step o w) ops w.

(** Invariant U1 on the committed [users] table. *)
Definition user_within_limit (u : Users.row) : Prop :=
  0 ≤ Users.vouchers_claimed u ∧ Users.vouchers_claimed u ≤ Users.voucher_limit u.

Definition users_within_limit (d : DB) : Prop :=
  Forall user_within_limit (users d).

(** The number of [success] rows of a (user, code) pair. *)
Definition success_count (userId : Z) (c : string) (d : DB) : nat :=
  length (select_success_claims userId c d).

(** The number of audit rows with a given action. *)
Definition audit_count (a : audit_action) (d : DB) : nat :=
  length (filter (λ r, AuditLog.action r = a) (voucher_audit_log d)).

(** The request id an operation works under, if any. *)
Definition op_key (o : op) : option string :=
  match o with
  | Claim _ _ _ request => Some (ClaimVoucherRequest.idempotencyKey request)
  | Job _ job => Some (QueueJob.idempotencyKey job)
  | Refund _ _ _ _ => None
  end.

(** An operation leaves the Redis string entry under [key] as it is. *)
Definition keeps_entry {A : Type} (key : string) (m : M A) : Prop :=
  ∀ w r w', m w = (r, w') → strings (kv w') !! key = strings (kv w) !! key.

(** What an operation preserves of the database. *)
Definition preserves {A : Type} (P : DB → Prop) (m : M A) : Prop :=
  ∀ w r w', P (db w) → m w = (r, w') → P (db w').

(** The rate-limit key of a user, the attempts recorded under it that the
    eviction at [now] keeps, and the set after the current attempt is
    added. *)
Definition rate_key (userId : Z) : string := "rate_limit:user:" +:+ pretty userId.

Definition recorded (now userId windowSeconds : Z) (w : World) : zset :=
  filter (λ e : Z * string, ¬ (0 ≤ e.1 ∧ e.1 ≤ now - windowSeconds * 1000))
    (redis.zget now (rate_key userId) (kv w)).

Definition recorded_with_current (now userId windowSeconds : Z) (w : World) : zset :=
  filter (λ e : Z * string, e.2 ≠ pretty now) (recorded now userId windowSeconds w)
  ++ [(now, pretty now)].

(** [s] is the lowest score of the sorted set [z]. *)
Definition lowest_score (s : Z) (z : zset) : Prop :=
  s ∈ z.*1 ∧ ∀ s', s' ∈ z.*1 → s ≤ s'.

(** The breaker admits a call at [now]: it is not rejecting as OPEN. *)
Definition admits (now : Z) (cb : CircuitBreaker.t) : Prop :=
  CircuitBreaker.is_open cb && (now <? CircuitBreaker.nextAttempt cb) = false.

(** Readings of the committed state: the [claimed] count of a user, the
    [usage_count] of a code, the status of a claim, the [success] rows that
    carry a request id. *)
Definition claimed_of (userId : Z) (d : DB) : list Z :=
  Users.vouchers_claimed <$> filter (λ u, Users.id u = userId) (users d).

Definition usage_count_of (c : string) (d : DB) : list Z :=
  VoucherCodes.usage_count <$> select_voucher_code c d.

Definition status_of (claimId : Z) (d : DB) : list voucher_status :=
  VoucherClaims.status <$> select_claim claimId d.

Definition success_rows_of_request (key : string) (d : DB) : list VoucherClaims.row :=
  match uuid_in key with
  | Some request_id =>
      filter (λ r, VoucherClaims.request_id r = Some request_id
                   ∧ VoucherClaims.status r = success) (voucher_claims d)
  | None => []
  end.

(** What the idempotency cache holds for a request id at [now]: the reply
    of [getClaimResult]. *)
Definition cached_result (now : Z) (idempotencyKey : string) (w : World)
    : option ClaimVoucherResponse.t :=
  match redis.get now (cacheService.CLAIM_RESULT_PREFIX +:+ idempotencyKey) (kv w) with
  | Some (PResult r) => Some r
  | _ => None
  end.

(** An error raised by the store itself. *)
Definition store_error (e : error) : Prop := ∃ c, e = StoreError c.

(** The result of the worker for a user at the limit. *)
Definition limit_reached_result : ClaimVoucherResponse.t :=
  {| ClaimVoucherResponse.success := false;
     ClaimVoucherResponse.message := "Voucher limit exceeded";
     ClaimVoucherResponse.vouchersRemaining := None;
     ClaimVoucherResponse.requestId := None;
     ClaimVoucherResponse.status := Some ClaimStatus.limit_reached |}.

(** Step 4 as the transaction runs it: the locked row is active, not past
    [expires_at], and below its usage limit. *)
Definition passes_step4 (now : Z) (v : VoucherCodes.row) : Prop :=
  VoucherCodes.is_active v = true
  ∧ (∀ t, VoucherCodes.expires_at v = Some t → now ≤ t)
  ∧ VoucherCodes.usage_count v < VoucherCodes.usage_limit v.

(** ** Scenarios *)

Module Scenario.

(** The breaker as [VoucherService] constructs it. *)
Definition breaker : CircuitBreaker.t :=
  CircuitBreaker.new 0 (Some 5) (Some 2) (Some 5000) (Some 30000).

Definition user1 : Users.row :=
  {| Users.id := 1; Users.email := "admin@example.com";
     Users.vouchers_claimed := 0; Users.voucher_limit := 100;
     Users.is_premium := true; Users.is_admin := true; Users.is_active := true |}.

Definition user3 : Users.row :=
  {| Users.id := 3; Users.email := "premium@example.com";
     Users.vouchers_claimed := 0; Users.voucher_limit := 10;
     Users.is_premium := true; Users.is_admin := false; Users.is_active := true |}.

Definition user4 : Users.row :=
  {| Users.id := 4; Users.email := "user2@example.com";
     Users.vouchers_claimed := 0; Users.voucher_limit := 10;
     Users.is_premium := false; Users.is_admin := false; Users.is_active := true |}.

Definition user5 : Users.row :=
  {| Users.id := 5; Users.email := "user3@example.com";
     Users.vouchers_claimed := 10; Users.voucher_limit := 10;
     Users.is_premium := true; Users.is_admin := false; Users.is_active := true |}.

Definition SUMMER2024 : VoucherCodes.row :=
  {| VoucherCodes.id := 1; VoucherCodes.code := "SUMMER2024";
     VoucherCodes.is_active := true; VoucherCodes.is_used := false;
     VoucherCodes.used_by := None; VoucherCodes.used_at := None;
     VoucherCodes.usage_limit := 1000; VoucherCodes.usage_count := 0;
     VoucherCodes.valid_from := Some 0; VoucherCodes.expires_at := Some 2592000000;
     VoucherCodes.discount_type := Some "percentage";
     VoucherCodes.discount_value := Some 20;
     VoucherCodes.allowed_user_ids := None |}.

(** A code that becomes valid only at instant 900000 and is restricted to
    the users 8 and 9. *)
Definition EARLYBIRD : VoucherCodes.row :=
  {| VoucherCodes.id := 2; VoucherCodes.code := "EARLYBIRD";
     VoucherCodes.is_active := true; VoucherCodes.is_used := false;
     VoucherCodes.used_by := None; VoucherCodes.used_at := None;
     VoucherCodes.usage_limit := 100; VoucherCodes.usage_count := 0;
     VoucherCodes.valid_from := Some 900000; VoucherCodes.expires_at := Some 2592000000;
     VoucherCodes.discount_type := Some "fixed";
     VoucherCodes.discount_value := Some 50;
     VoucherCodes.allowed_user_ids := Some [8; 9] |}.

(** A code that is not active. *)
Definition RETIRED : VoucherCodes.row :=
  {| VoucherCodes.id := 3; VoucherCodes.code := "RETIRED";
     VoucherCodes.is_active := false; VoucherCodes.is_used := false;
     VoucherCodes.used_by := None; VoucherCodes.used_at := None;
     VoucherCodes.usage_limit := 100; VoucherCodes.usage_count := 0;
     VoucherCodes.valid_from := None; VoucherCodes.expires_at := None;
     VoucherCodes.discount_type := None;
     VoucherCodes.discount_value := None;
     VoucherCodes.allowed_user_ids := None |}.

(** A code that can be used once. *)
Definition FLASH20 : VoucherCodes.row :=
  {| VoucherCodes.id := 4; VoucherCodes.code := "FLASH20";
     VoucherCodes.is_active := true; VoucherCodes.is_used := false;
     VoucherCodes.used_by := None; VoucherCodes.used_at := None;
     VoucherCodes.usage_limit := 1; VoucherCodes.usage_count := 0;
     VoucherCodes.valid_from := Some 0; VoucherCodes.expires_at := Some 86400000;
     VoucherCodes.discount_type := Some "percentage";
     VoucherCodes.discount_value := Some 20;
     VoucherCodes.allowed_user_ids := None |}.

Definition empty_redis : Redis := {| strings := ∅; zsets := ∅ |}.

(** The world of the happy path: nothing claimed yet. *)
Definition fresh : World :=
  {| db := {| users := [user1; user3; user4; user5];
              voucher_codes := [SUMMER2024; EARLYBIRD; RETIRED; FLASH20];
              voucher_claims := [];
              voucher_audit_log := [];
              voucher_claims_id_seq := 0 |};
     kv := empty_redis; queue := []; dbCircuitBreaker := breaker |}.

(** Request ids, of the form [uuidv4()] gives them. *)
Definition r1 : string := "00000000-0000-4000-8000-000000000101".
Definition r2 : string := "00000000-0000-4000-8000-000000000102".
Definition r3 : string := "00000000-0000-4000-8000-000000000103".
Definition r5 : string := "00000000-0000-4000-8000-000000000105".
Definition r7 : string := "00000000-0000-4000-8000-000000000107".
Definition r8 : string := "00000000-0000-4000-8000-000000000108".
Definition q0 : string := "00000000-0000-4000-8000-000000000200".
Definition q1 : string := "00000000-0000-4000-8000-000000000201".
Definition q5 : string := "00000000-0000-4000-8000-000000000205".
Definition q9 : string := "00000000-0000-4000-8000-000000000209".
Definition k1 : string := "00000000-0000-4000-8000-000000000301".

Definition request (userId : Z) (c key : string) : ClaimVoucherRequest.t :=
  {| ClaimVoucherRequest.userId := userId;
     ClaimVoucherRequest.voucherCode := c;
     ClaimVoucherRequest.ipAddress := "10.0.0.1";
     ClaimVoucherRequest.userAgent := "curl/8";
     ClaimVoucherRequest.deviceId := None;
     ClaimVoucherRequest.idempotencyKey := key |}.

(** The job the coordinator enqueues for [request userId c key] at the
    instant [timestamp]. *)
Definition job (userId : Z) (c key : string) (timestamp : Z) : QueueJob.t :=
  {| QueueJob.id := key; QueueJob.userId := userId;
     QueueJob.voucherCode := c; QueueJob.ipAddress := "10.0.0.1";
     QueueJob.userAgent := "curl/8"; QueueJob.deviceId := None;
     QueueJob.idempotencyKey := key; QueueJob.timestamp := timestamp |}.

(** The response of a committed claim that leaves [remaining] vouchers. *)
Definition claimed (remaining : Z) : ClaimVoucherResponse.t :=
  {| ClaimVoucherResponse.success := true;
     ClaimVoucherResponse.message := "Voucher claimed successfully";
     ClaimVoucherResponse.vouchersRemaining := Some remaining;
     ClaimVoucherResponse.requestId := None;
     ClaimVoucherResponse.status := Some ClaimStatus.success |}.

(** User 4, who is not premium, has claimed SUMMER2024 through the queue
    (request [q0]) and asks for it again (request [q1]). *)
Definition claimed_once : World :=
  run [Claim 1000 1000 false (request 4 "SUMMER2024" q0);
       Job 1500 (job 4 "SUMMER2024" q0 1000)] fresh.

Definition asked_again : World :=
  run [Claim 2000 2000 false (request 4 "SUMMER2024" q1)] claimed_once.

(** User 3, who is premium, has claimed SUMMER2024 (request [r1]). *)
Definition happy_path : World :=
  run [Claim 1000 1000 false (request 3 "SUMMER2024" r1)] fresh.

(** One attempt of user 7 recorded at instant 1000. *)
Definition one_attempt : World :=
  {| db := db fresh;
     kv := {| strings := ∅;
              zsets := {[ rate_key 7 := ([(1000, "1000")], Some 61000) ]} |};
     queue := []; dbCircuitBreaker := breaker |}.

(** An action that fails and one that succeeds, for the breaker alone. *)
Definition failing : unit → result unit * unit :=
  λ s, (Err (PlainError "connection refused"), s).

Definition succeeding : unit → result unit * unit := λ s, (Ok tt, s).

Definition after (now : Z) (fn : unit → result unit * unit) (cb : CircuitBreaker.t)
    : CircuitBreaker.t :=
  (CircuitBreaker.execute now fn cb tt).1.2.

(** Five failures open the breaker; after [resetTimeout] one probe
    succeeds in HALF_OPEN. *)
Definition half_open_after_one_success : CircuitBreaker.t :=
  after 40000 succeeding
    (after 5 failing (after 4 failing (after 3 failing (after 2 failing
      (after 1 failing breaker))))).

End Scenario.

(** ** What an operation leaves alone *)

(** The four tables, without the sequence: a rollback does not give back
    the values the sequence has handed out. *)
Definition tables (d : DB)
    : list Users.row * list VoucherCodes.row * list VoucherClaims.row * list AuditLog.row :=
  (users d, voucher_codes d, voucher_claims d, voucher_audit_log d).

(** An operation relates every world it starts from to the world it ends
    in. *)
Definition frames {A : Type} (R : relation World) (m : M A) : Prop :=
  ∀ w r w', m w = (r, w') → R w w'.

(** A relation that no Redis command can leave, and one that no statement
    and no move of the breaker can leave. *)
Class Frame (R : relation World) : Prop := {
  frame_preorder :: PreOrder R;
  frame_kv : ∀ r w, R w (set_kv r w)
}.

Class FrameStore (R : relation World) : Prop := {
  frame_db : ∀ d w, R w (set_db d w);
  frame_breaker : ∀ cb w, R w (set_dbCircuitBreaker cb w)
}.

(** Only Redis differs. *)
Definition only_redis : relation World :=
  λ w w', db w' = db w ∧ queue w' = queue w ∧ dbCircuitBreaker w' = dbCircuitBreaker w.

(** The queue is the same. *)
Definition same_queue : relation World := λ w w', queue w' = queue w.

(** The error of the timer of the breaker. *)
Definition timed_out : error := PlainError "Circuit breaker timeout".

(** An operation that fails with another error than that of the timer
    leaves the tables and the queue as they were. *)
Definition fails_cleanly {A : Type} (m : M A) : Prop :=
  ∀ w e w', m w = (Err e, w') → e ≠ timed_out →
            tables (db w') = tables (db w) ∧ queue w' = queue w.

(** The error an operation of a history ends with, if it fails. *)
Definition thrown {A : Type} (r : result A) : option error :=
  match r with Ok _ => None | Err e => Some e end.

Definition failure (o : op) (w : World) : option error :=
  match o with
  | Claim now now' late request =>
      thrown (voucherService.claimVoucher now now' late request w).1
  | Job now job => thrown (voucherWorker.processJob now job w).1
  | Refund now claimId reason adminId =>
      thrown (voucherService.refundVoucher now claimId reason adminId w).1
  end.

(** The admin id of a refund, when one is given, is the id of a user. *)
Definition names_a_user (adminId : option Z) (d : DB) : Prop :=
  ∀ a, adminId = Some a → a ∈ Users.id <$> users d.

(** The job the coordinator enqueues for a request, with the instant [now]
    as its timestamp. *)
Definition job_of (now : Z) (request : ClaimVoucherRequest.t) : QueueJob.t :=
  {| QueueJob.id := ClaimVoucherRequest.idempotencyKey request;
     QueueJob.userId := ClaimVoucherRequest.userId request;
     QueueJob.voucherCode := ClaimVoucherRequest.voucherCode request;
     QueueJob.ipAddress := ClaimVoucherRequest.ipAddress request;
     QueueJob.userAgent := ClaimVoucherRequest.userAgent request;
     QueueJob.deviceId := ClaimVoucherRequest.deviceId request;
     QueueJob.idempotencyKey := ClaimVoucherRequest.idempotencyKey request;
     QueueJob.timestamp := now |}.

(** Redis, the queue and the breaker are the same. *)
Definition only_db : relation World :=
  λ w w', kv w' = kv w ∧ queue w' = queue w ∧ dbCircuitBreaker w' = dbCircuitBreaker w.

(** ** Cache keys *)

(** A string without the separator [:] of the key patterns. *)
Definition no_colon (s : string) : bool :=
  voucherService.all_chars (λ c, negb (Ascii.eqb c ":"%char)) s.

(** A key of the pattern [user:{id}:*]. *)
Definition user_key (userId : Z) (suffix : string) : string :=
  cacheService.USER_CACHE_PREFIX +:+ pretty userId +:+ ":" +:+ suffix.

(** ** Sequences of calls *)

(** Calls through a breaker one after the other, each at its instant: the
    breaker and the state they leave. *)
Definition calls {S T : Type} (cs : list (Z * (S → result T * S)))
    (cb : CircuitBreaker.t) (s : S) : CircuitBreaker.t * S :=
  fold_left (λ st c, let '(_, cb', s') := CircuitBreaker.execute c.1 c.2 st.1 st.2 in
                     (cb', s')) cs (cb, s).

Definition always_fails {S T : Type} (fn : S → result T * S) : Prop :=
  ∀ s, ∃ e s', fn s = (Err e, s').

Definition always_succeeds {S T : Type} (fn : S → result T * S) : Prop :=
  ∀ s, ∃ r s', fn s = (Ok r, s').

(** The replies of a sequence of requests, each run in the world the
    previous one has left. *)
Fixpoint each {A B : Type} (f : A → M B) (xs : list A) (w : World)
    : list (result B) * World :=
  match xs with
  | [] => ([], w)
  | x :: xs => let (r, w1) := f x w in
               let (rs, w2) := each f xs w1 in
               (r :: rs, w2)
  end.

(** The IP counter key, and the records of a list of attempts. *)
Definition ip_key (ipAddress : string) : string := "rate_limit:ip:" +:+ ipAddress.

Definition attempts (ts : list Z) : zset := (λ t, (t, pretty t)) <$> ts.

(** The instants of [ts] come one after the other, all after [lo]. *)
Fixpoint increasing (lo : Z) (ts : list Z) : Prop :=
  match ts with
  | [] => True
  | t :: ts => lo < t ∧ increasing t ts
  end.

(** The reply of the sliding-window limiter to the call number [i] (from 0)
    of a burst that started at [first], made at [t]. *)
Definition burst_reply (maxRequests windowSeconds first : Z) (i : nat) (t : Z)
    : RateLimitResult.t :=
  if bool_decide (Z.of_nat i < maxRequests) then
    {| RateLimitResult.allowed := true;
       RateLimitResult.remainingRequests := maxRequests - Z.of_nat i - 1;
       RateLimitResult.resetTime := t + windowSeconds * 1000 |}
  else
    {| RateLimitResult.allowed := false;
       RateLimitResult.remainingRequests := 0;
       RateLimitResult.resetTime := first + windowSeconds * 1000 |}.

(** ** The HTTP boundary *)

Module http.

(** What the handlers read of a request: the id [authenticate] has put on
    it, the fields of the JSON body, the headers and the address of the
    socket. *)
Record Request : Type := mkRequest {
  userId : option Z;
  voucherCode : option string;
  deviceId : option string;
  claimId : option Z;
  reason : option string;
  x_forwarded_for : option string;
  x_real_ip : option string;
  remoteAddress : option string;
  user_agent : option string;
  idempotency_key : option string
}.

(** The JSON documents the handlers send: an error document
    [{success: false, error, message, code, retryAfter}], a plain
    [{success: true, message}], and a claim result. *)
Inductive Body : Type :=
| Failure (error : string) (message : option string) (code : option string)
    (retryAfter : option Z)
| Success (message : string)
| ClaimResult (result : ClaimVoucherResponse.t).

(** A response: the status, the headers the code sets by name, the body. *)
Record Response : Type := mkResponse {
  status : Z;
  headers : list (string * Z);
  body : Body
}.

(** [a || b] on a string that may be missing: the empty string is falsy. *)
Definition truthy (a : option string) : option string :=
  match a with
  | Some EmptyString => None
  | _ => a
  end.

Definition or_else (a : option string) (b : string) : string := default b (truthy a).

(** [s.split(",")[0]]. *)
Fixpoint first_segment (s : string) : string :=
  match s with
  | EmptyString => EmptyString
  | String c s' => if Ascii.eqb c ","%char then EmptyString else String c (first_segment s')
  end.

End http.

(** [middleware/rateLimit.ts] *)
Module rateLimit.

(** What a middleware does with a request: it passes it on ([next()]),
    having set headers on the response, or it sends the response.  A
    thrown error is passed to the error handler ([next(error)]). *)
Inductive outcome : Type :=
| next (headers : list (string * Z))
| sent (res : http.Response).

(** Get client IP address. *)
Definition getClientIp (req : http.Request) : string :=
  http.or_else (http.first_segment <$> http.x_forwarded_for req)
    (http.or_else (http.x_real_ip req)
       (http.or_else (http.remoteAddress req) "unknown")).

(** [rateLimitMiddleware(maxRequests, windowSeconds)]; [!userId] holds for a
    missing id and for the id 0.  The limiter reads the clock at [now]; a
    refusal reads it again, at [now'], for [Retry-After]. *)
Definition rateLimitMiddleware (maxRequests windowSeconds : Z) (now now' : Z)
    (req : http.Request) : M outcome :=
  match http.userId req with
  | None | Some 0 =>
      ret (sent {| http.status := 401; http.headers := [];
                   http.body := http.Failure "Unauthorized"
                                  (Some "Authentication required for rate limiting")
                                  None None |})
  | Some userId =>
      let* result := rateLimitService.checkRateLimit now userId maxRequests windowSeconds in
      let headers :=
        [("X-RateLimit-Limit", maxRequests);
         ("X-RateLimit-Remaining", RateLimitResult.remainingRequests result);
         ("X-RateLimit-Reset", RateLimitResult.resetTime result)] in
      if negb (RateLimitResult.allowed result) then
        let retryAfter :=
          voucherService.ceil_div_1000 (RateLimitResult.resetTime result - now') in
        ret (sent {| http.status := 429;
                     http.headers := headers ++ [("Retry-After", retryAfter)];
                     http.body :=
                       http.Failure "Rate limit exceeded"
                         (Some ("Too many requests. Please try again in "
                                +:+ pretty retryAfter +:+ " seconds"))
                         None (Some retryAfter) |})
      else ret (next headers)
  end.

(** IP-based rate limiting middleware. *)
Definition ipRateLimitMiddleware (maxRequests windowSeconds : Z) (now : Z)
    (req : http.Request) : M outcome :=
  let ipAddress := getClientIp req in
  let* allowed :=
    rateLimitService.checkIPRateLimit now ipAddress maxRequests windowSeconds in
  if negb allowed then
    ret (sent {| http.status := 429; http.headers := [];
                 http.body := http.Failure "Rate limit exceeded"
                                (Some "Too many requests from this IP address")
                                None None |})
  else ret (next []).

End rateLimit.

(** [middleware/errorHandler.ts] (in the sources, in [middleware/auth.ts]).
    [production] is
    [process.env.NODE_ENV === "production"]; [headers] are the headers
    already set on the response.  The message of an error of the store is
    represented by the name the error carries.  No instance of
    the base class [VoucherError] itself is ever thrown, so its case does
    not arise. *)
Definition errorHandler (production : bool) (headers : list (string * Z)) (err : error)
    : http.Response :=
  match err with
  | VoucherLimitExceeded message =>
      {| http.status := 403; http.headers := headers;
         http.body := http.Failure "Voucher limit exceeded" (Some message)
                        (Some "LIMIT_EXCEEDED") None |}
  | RateLimitExceeded message =>
      {| http.status := 429; http.headers := headers;
         http.body := http.Failure "Rate limit exceeded" (Some message)
                        (Some "RATE_LIMIT_EXCEEDED") None |}
  | InvalidVoucherCode message =>
      {| http.status := 400; http.headers := headers;
         http.body := http.Failure "Invalid voucher code" (Some message)
                        (Some "INVALID_VOUCHER") None |}
  | PlainError message | StoreError message =>
      {| http.status := 500; http.headers := headers;
         http.body := http.Failure "Internal server error"
                        (Some (if production then "An unexpected error occurred"
                               else message))
                        None None |}
  end.

(** [routes/voucher.routes.ts] (in the sources, after the worker in
    [workers/voucherWorker.ts]) *)
Module routes.

(** The handler of [POST /api/vouchers/claim]; [uuid] is the value
    [uuidv4()] draws, [userId] is [req.userId!], [now'] and [late] are
    those of [claimVoucher]. *)
Definition claim (now now' : Z) (late : bool) (uuid : string) (userId : Z)
    (req : http.Request) : M http.Response :=
  match http.truthy (http.voucherCode req) with
  | None =>
      ret {| http.status := 400; http.headers := [];
             http.body := http.Failure "Bad request" (Some "Voucher code is required")
                            None None |}
  | Some voucherCode =>
      let ipAddress :=
        http.or_else (http.first_segment <$> http.x_forwarded_for req)
          (http.or_else (http.x_real_ip req)
             (http.or_else (http.remoteAddress req) "unknown")) in
      let userAgent := http.or_else (http.user_agent req) "unknown" in
      (* Generate idempotency key from header or create new *)
      let idempotencyKey := http.or_else (http.idempotency_key req) uuid in
      let* result :=
        voucherService.claimVoucher now now' late
          {| ClaimVoucherRequest.userId := userId;
             ClaimVoucherRequest.voucherCode := voucherCode;
             ClaimVoucherRequest.ipAddress := ipAddress;
             ClaimVoucherRequest.userAgent := userAgent;
             ClaimVoucherRequest.deviceId := http.deviceId req;
             ClaimVoucherRequest.idempotencyKey := idempotencyKey |} in
      ret {| http.status := if ClaimVoucherResponse.success result then 200 else 400;
             http.headers := [];
             http.body := http.ClaimResult result |}
  end.

(** The handler of [POST /api/vouchers/refund]: [refundVoucher] is called
    without an admin id. *)
Definition refund (now : Z) (req : http.Request) : M http.Response :=
  match http.claimId req, http.truthy (http.reason req) with
  | Some claimId, Some reason =>
      if claimId =? 0 then
        ret {| http.status := 400; http.headers := [];
               http.body := http.Failure "Bad request"
                              (Some "Claim ID and reason are required") None None |}
      else
        voucherService.refundVoucher now claimId reason None;;
        ret {| http.status := 200; http.headers := [];
               http.body := http.Success "Voucher refunded successfully" |}
  | _, _ =>
      ret {| http.status := 400; http.headers := [];
             http.body := http.Failure "Bad request"
                            (Some "Claim ID and reason are required") None None |}
  end.

(** A handler under [asyncHandler], with the error handler behind it: a
    thrown error becomes the response of [errorHandler]. *)
Definition answered (production : bool) (headers : list (string * Z))
    (handler : M http.Response) : World → http.Response * World :=
  λ w, match handler w with
       | (Ok res, w') =>
           ({| http.status := http.status res;
               http.headers := headers ++ http.headers res;
               http.body := http.body res |}, w')
       | (Err e, w') => (errorHandler production headers e, w')
       end.

(** [POST /api/vouchers/claim] for a request that [authenticate] has
    passed: [rateLimitMiddleware(10, 60)] at the instant [now1] (its second
    reading of the clock at [now1']), then the handler at [now2] (the
    second reading of the coordinator at [now2']). *)
Definition postClaim (now1 now1' now2 now2' : Z) (late production : bool)
    (uuid : string)
    (req : http.Request) : World → http.Response * World :=
  λ w, match rateLimit.rateLimitMiddleware 10 60 now1 now1' req w with
       | (Ok (rateLimit.sent res), w1) => (res, w1)
       | (Ok (rateLimit.next headers), w1) =>
           answered production headers
             (claim now2 now2' late uuid (default 0 (http.userId req)) req) w1
       | (Err e, w1) => (errorHandler production [] e, w1)
       end.

(** [POST /api/vouchers/refund] for a request that [authenticate] has
    passed. *)
Definition postRefund (now : Z) (production : bool) (req : http.Request)
    : World → http.Response * World :=
  answered production [] (refund now req).

End routes.

(** The request [req] sent with the header [X-Forwarded-For: h]. *)
Definition forwarded (h : string) (req : http.Request) : http.Request :=
  {| http.userId := http.userId req;
     http.voucherCode := http.voucherCode req;
     http.deviceId := http.deviceId req;
     http.claimId := http.claimId req;
     http.reason := http.reason req;
     http.x_forwarded_for := Some h;
     http.x_real_ip := http.x_real_ip req;
     http.remoteAddress := http.remoteAddress req;
     http.user_agent := http.user_agent req;
     http.idempotency_key := http.idempotency_key req |}.

(** The classes of [types/index.ts] that extend [VoucherError]. *)
Definition is_voucher_error (e : error) : bool :=
  match e with
  | VoucherLimitExceeded _ | RateLimitExceeded _ | InvalidVoucherCode _ => true
  | PlainError _ | StoreError _ => false
  end.

(** The message an error carries. *)
Definition message_of (e : error) : string :=
  match e with
  | VoucherLimitExceeded m | RateLimitExceeded m | InvalidVoucherCode m
  | PlainError m | StoreError m => m
  end.

(** What the coordinator's limiter counts at [now2] of the set the
    middleware has left at [now1]. *)
Definition seen_by_coordinator (now1 now2 userId : Z) (w : World) : zset :=
  filter (λ e : Z * string, ¬ (0 ≤ e.1 ∧ e.1 ≤ now2 - 60 * 1000))
    (recorded_with_current now1 userId 60 w).

(** The headers of a request the middleware has passed on. *)
Definition passed_headers (maxRequests remaining reset : Z) : list (string * Z) :=
  [("X-RateLimit-Limit", maxRequests);
   ("X-RateLimit-Remaining", remaining);
   ("X-RateLimit-Reset", reset)].

(** ** Eligibility *)

(** Invariant V2 on a row of [voucher_codes]: the code is eligible for the
    user at [now]. *)
Definition eligible (now userId : Z) (v : VoucherCodes.row) : Prop :=
  VoucherCodes.is_active v = true
  ∧ VoucherCodes.usage_count v < VoucherCodes.usage_limit v
  ∧ (∀ t, VoucherCodes.valid_from v = Some t → t ≤ now)
  ∧ (∀ t, VoucherCodes.expires_at v = Some t → now ≤ t)
  ∧ (∀ ids, VoucherCodes.allowed_user_ids v = Some ids → ids ≠ [] → userId ∈ ids).

(** ** Functions of the schema *)

(** The claims of a user made in the last [minutes] minutes:
    [user_id = p_user_id AND claimed_at >= NOW() - minutes]. *)
Definition claims_since (now p_user_id minutes : Z) (d : DB) : list VoucherClaims.row :=
  filter (λ c, VoucherClaims.user_id c = p_user_id
               ∧ now - minutes * 60000 ≤ VoucherClaims.claimed_at c)
    (voucher_claims d).

(** [get_user_claim_rate(p_user_id, p_minutes)]. *)
Definition get_user_claim_rate (now p_user_id p_minutes : Z) (d : DB) : Z :=
  Z.of_nat (length (claims_since now p_user_id p_minutes d)).

(** [detect_suspicious_activity(p_user_id)]: more than 5 claims in 10
    minutes, or more than 3 distinct addresses or devices in the last
    hour. *)
Definition detect_suspicious_activity (now p_user_id : Z) (d : DB) : bool :=
  let recent_claims := Z.of_nat (length (claims_since now p_user_id 10 d)) in
  if recent_claims >? 5 then true
  else
    let ip_count :=
      Z.of_nat (length (remove_dups
                          (VoucherClaims.ip_address <$> claims_since now p_user_id 60 d))) in
    if ip_count >? 3 then true
    else
      let device_count :=
        Z.of_nat (length (remove_dups
                            (omap VoucherClaims.device_id
                               (claims_since now p_user_id 60 d)))) in
      if device_count >? 3 then true else false.

(** ** Examples *)

Module Example.

(** The voucher counts of the users 1 and 12 are cached. *)
Definition two_users_cached : World :=
  (cacheService.setUserVoucherCount 1000 12 7
     (cacheService.setUserVoucherCount 1000 1 3 Scenario.fresh).2).2.

(** Four claims of user 5, who is at the limit, have gone through the
    fast path, at the instants 1 to 4. *)
Definition four_rejections : World :=
  fold_left (λ w now, (voucherService.processClaimImmediate now false
                         (Scenario.request 5 "SUMMER2024" Scenario.r5) w).2)
    [1; 2; 3; 4] Scenario.fresh.

(** Nine attempts of user 7 are on record, made at the instants 1000 to
    9000. *)
Definition nine_attempts : World :=
  {| db := db Scenario.fresh;
     kv := {| strings := ∅;
              zsets := {[ rate_key 7 :=
                            (attempts [1000; 2000; 3000; 4000; 5000; 6000; 7000; 8000; 9000],
                             Some 69000) ]} |};
     queue := []; dbCircuitBreaker := Scenario.breaker |}.

(** The happy path, after which the counters of the users have been set
    back to those of [Scenario.fresh]: user 3 owns the [success] claim 1 and
    stands at [claimed = 0]. *)
Definition counters_reset : World :=
  set_db (set_users (users (db Scenario.fresh)) (db Scenario.happy_path))
    Scenario.happy_path.

(** The worker has cached the [limit_reached] result under the request id
    [k1]. *)
Definition limit_reached_cached : World :=
  (cacheService.cacheClaimResult 1000 Scenario.k1 limit_reached_result Scenario.fresh).2.

(** A request of user 7 for SUMMER2024 from the socket 10.0.0.1. *)
Definition request : http.Request :=
  {| http.userId := Some 7;
     http.voucherCode := Some "SUMMER2024";
     http.deviceId := None;
     http.claimId := None;
     http.reason := None;
     http.x_forwarded_for := None;
     http.x_real_ip := None;
     http.remoteAddress := Some "10.0.0.1";
     http.user_agent := Some "curl/8";
     http.idempotency_key := Some Scenario.k1 |}.

(** A request to refund the claim 1, sent by user 4, who is not an
    admin. *)
Definition refund_request : http.Request :=
  {| http.userId := Some 4;
     http.voucherCode := None;
     http.deviceId := None;
     http.claimId := Some 1;
     http.reason := Some "changed my mind";
     http.x_forwarded_for := None;
     http.x_real_ip := None;
     http.remoteAddress := Some "10.0.0.1";
     http.user_agent := Some "curl/8";
     http.idempotency_key := None |}.

(** The address [a.b.c.d]. *)
Definition ip4 (a b c d : Z) : inet :=
  {| family := AF_INET; ip_addr := [a; b; c; d]; ip_bits := 32 |}.

(** Four claims of user 3 in the last hour, from four addresses. *)
Definition claim_from (id : Z) (ip : inet) (at_ : Z) : VoucherClaims.row :=
  {| VoucherClaims.id := id; VoucherClaims.user_id := 3;
     VoucherClaims.voucher_code := "SUMMER2024";
     VoucherClaims.voucher_code_id := Some 1;
     VoucherClaims.status := success; VoucherClaims.claimed_at := at_;
     VoucherClaims.ip_address := ip; VoucherClaims.user_agent := "curl/8";
     VoucherClaims.device_id := None; VoucherClaims.request_id := None;
     VoucherClaims.refunded_at := None; VoucherClaims.refunded_by := None;
     VoucherClaims.refund_reason := None; VoucherClaims.meta := MetaEmpty |}.

Definition four_addresses : DB :=
  set_voucher_claims
    [claim_from 1 (ip4 10 0 0 1) 1000000; claim_from 2 (ip4 10 0 0 2) 2000000;
     claim_from 3 (ip4 10 0 0 3) 3000000; claim_from 4 (ip4 10 0 0 4) 4000000]
    (db Scenario.fresh).

End Example.

(** * Properties *)

(** ** The circuit breaker *)

Section Breaker.
Import CircuitBreaker.

(** X30: the first probe after OPEN: the failure counter still stands at
    the threshold, so a failing probe re-opens the breaker. *)
Lemma first_probe_failure_reopens {S T : Type} (now : Z) (fn : S → result T * S)
    (cb : t) (s : S) (e : error) (s' : S) :
  state cb = OPEN →
  nextAttempt cb ≤ now →
  failureThreshold (options cb) ≤ failureCount cb + 1 →
  fn s = (Err e, s') →
  let cb' := (execute now fn cb s).1.2 in
  state cb' = OPEN ∧ nextAttempt cb' = now + resetTimeout (options cb).
Proof.
  intros Hst Hna Hth Hfn. unfold execute, is_open. rewrite Hst. simpl.
  replace (now <? nextAttempt cb) with false by (symmetry; apply Z.ltb_ge; lia).
  rewrite Hfn. simpl. unfold onFailure. simpl.
  replace (failureCount cb + 1 >=? failureThreshold (options cb)) with true
    by (symmetry; apply Z.geb_le; lia).
  simpl. done.
Qed.

(** A failure in HALF_OPEN below the failure threshold leaves the breaker
    in HALF_OPEN and [nextAttempt] as it was. *)
Lemma half_open_failure_below_threshold {S T : Type} (now : Z)
    (fn : S → result T * S) (cb : t) (s : S) (e : error) (s' : S) :
  state cb = HALF_OPEN →
  failureCount cb + 1 < failureThreshold (options cb) →
  fn s = (Err e, s') →
  let cb' := (execute now fn cb s).1.2 in
  state cb' = HALF_OPEN ∧ nextAttempt cb' = nextAttempt cb.
Proof.
  intros Hst Hth Hfn. unfold execute, is_open. rewrite Hst. simpl.
  rewrite Hfn. simpl. unfold onFailure. simpl.
  replace (failureCount cb + 1 >=? failureThreshold (options cb)) with false
    by (symmetry; rewrite Z.geb_leb; apply Z.leb_gt; lia).
  simpl. done.
Qed.

Lemma half_open_failure_below_threshold_example :
  let cb := Scenario.half_open_after_one_success in
  let cb' := (execute 40001 Scenario.failing cb tt).1.2 in
  state cb' = HALF_OPEN ∧ nextAttempt cb' = nextAttempt cb.
Proof.
  apply (half_open_failure_below_threshold 40001 Scenario.failing
           Scenario.half_open_after_one_success tt
           (PlainError "connection refused") tt);
    [reflexivity | vm_compute; reflexivity | reflexivity].
Defined.

(** C9, evaluated on the code: the breaker of the service is opened by five
    failures, turns HALF_OPEN at the first call after [resetTimeout] and
    records one success; the next failure does not send it back to OPEN and
    does not move [nextAttempt]. *)
Theorem C9_half_open_failure_after_success_stays_half_open :
  let cb := Scenario.half_open_after_one_success in
  let cb' := Scenario.after 40001 Scenario.failing cb in
  state cb = HALF_OPEN ∧ successCount cb = 1 ∧ failureCount cb = 0
  ∧ nextAttempt cb = 30005
  ∧ state cb' = HALF_OPEN ∧ nextAttempt cb' = 30005 ∧ failureCount cb' = 1.
Proof. vm_compute. done. Qed.

End Breaker.

(** ** Operations: inversion and what they preserve *)

Lemma bind_inv {A B : Type} (m : M A) (k : A → M B) (w w2 : World) (r : result B) :
  bind m k w = (r, w2) →
  (∃ e, m w = (Err e, w2) ∧ r = Err e)
  ∨ (∃ a w1, m w = (Ok a, w1) ∧ k a w1 = (r, w2)).
Proof.
  unfold bind. destruct (m w) as [[a|e] w1]; intros H.
  - right. eauto.
  - left. exists e. by inversion H.
Qed.

Lemma bind_ok_inv {A B : Type} (m : M A) (k : A → M B) (w w2 : World) (b : B) :
  bind m k w = (Ok b, w2) → ∃ a w1, m w = (Ok a, w1) ∧ k a w1 = (Ok b, w2).
Proof.
  intros H. apply bind_inv in H as [(e & _ & [=])|H]. done.
Qed.

Lemma bind_ok {A B : Type} (m : M A) (k : A → M B) (w w1 : World) (a : A) :
  m w = (Ok a, w1) → bind m k w = k a w1.
Proof. unfold bind. by intros ->. Qed.

Lemma bind_err {A B : Type} (m : M A) (k : A → M B) (w w1 : World) (e : error) :
  m w = (Err e, w1) → bind m k w = (Err e, w1).
Proof. unfold bind. by intros ->. Qed.

Section Preserves.
Context (P : DB → Prop).

Lemma preserves_ret {A : Type} (a : A) : preserves P (ret a).
Proof. intros w r w' HP H. by inversion H; subst. Qed.

Lemma preserves_throw {A : Type} (e : error) : preserves P (@throw A e).
Proof. intros w r w' HP H. by inversion H; subst. Qed.

Lemma preserves_bind {A B : Type} (m : M A) (k : A → M B) :
  preserves P m → (∀ a, preserves P (k a)) → preserves P (bind m k).
Proof.
  intros Hm Hk w r w' HP H.
  destruct (bind_inv _ _ _ _ _ H) as [(e & Hmw & _)|(a & w1 & Hmw & Hkw)].
  - by eapply Hm.
  - eapply Hk; [|done]. by eapply Hm.
Qed.

Lemma preserves_query {A : Type} (q : DB → A) : preserves P (query q).
Proof. intros w r w' HP H. by inversion H; subst. Qed.

Lemma preserves_kv_read {A : Type} (f : Redis → A) : preserves P (kv_read f).
Proof. intros w r w' HP H. by inversion H; subst. Qed.

Lemma preserves_kv_write (f : Redis → Redis) : preserves P (kv_write f).
Proof. intros w r w' HP H. by inversion H; subst. Qed.

Lemma preserves_exec (s : DB → result DB) :
  (∀ d d', P d → s d = Ok d' → P d') → preserves P (exec s).
Proof.
  intros Hs w r w' HP H. unfold exec in H.
  destruct (s (db w)) as [d|e] eqn:Hsd; inversion H; subst; simpl; eauto.
Qed.

Lemma preserves_stmt {A : Type} (s : DB → result A * DB) :
  (∀ d, P d → P (s d).2) → preserves P (stmt s).
Proof.
  intros Hs w r w' HP H. unfold stmt in H. specialize (Hs _ HP).
  destruct (s (db w)) as [r0 d]. inversion H; subst. done.
Qed.

Lemma preserves_transaction {A : Type} (body : M A) :
  (∀ n d, P d → P (set_voucher_claims_id_seq n d)) →
  preserves P body → preserves P (transaction body).
Proof.
  intros Hseq Hb w r w' HP H. unfold transaction in H.
  destruct (body w) as [[a|e] w1] eqn:Hbw; inversion H; subst; simpl.
  - by eapply Hb.
  - by apply Hseq.
Qed.

Lemma preserves_execute {A : Type} (now : Z) (body : M A) :
  preserves P body →
  preserves P (λ w, let '(r, cb, w') :=
                      CircuitBreaker.execute now body (dbCircuitBreaker w) w in
                    (r, set_dbCircuitBreaker cb w')).
Proof.
  intros Hb w r w' HP H. unfold CircuitBreaker.execute in H.
  destruct (CircuitBreaker.is_open (dbCircuitBreaker w)
            && (now <? CircuitBreaker.nextAttempt (dbCircuitBreaker w))).
  - by inversion H; subst.
  - destruct (body w) as [[a|e] w1] eqn:Hbw; inversion H; subst; simpl;
      by eapply Hb.
Qed.

Lemma preserves_incr (now : Z) (key : string) :
  preserves P (λ w, let '(c, r) := redis.incr now key (kv w) in (c, set_kv r w)).
Proof.
  intros w r w' HP H. destruct (redis.incr now key (kv w)).
  by inversion H; subst.
Qed.

Lemma preserves_addClaimJob (data : QueueJob.t) :
  preserves P (queueService.addClaimJob data).
Proof.
  intros w r w' HP H. unfold queueService.addClaimJob in H.
  by inversion H; subst.
Qed.

Lemma preserves_raced {A : Type} (late : bool) (body : M A) :
  preserves P body → preserves P (voucherService.raced late body).
Proof.
  intros Hb w r w' HP H. unfold voucherService.raced in H.
  destruct (body w) as [r0 w1] eqn:Hbw.
  destruct late; inversion H; subst; by eapply Hb.
Qed.

End Preserves.

(** One step of a structural proof of [preserves]. *)
Ltac preserves_step :=
  lazymatch goal with
  | |- preserves _ (ret _) => apply preserves_ret
  | |- preserves _ (throw _) => apply preserves_throw
  | |- preserves _ (query _) => apply preserves_query
  | |- preserves _ (kv_read _) => apply preserves_kv_read
  | |- preserves _ (kv_write _) => apply preserves_kv_write
  | |- preserves _ (bind _ _) => apply preserves_bind; [|intros ?]
  | |- preserves _ (match ?x with _ => _ end) => destruct x
  end.

(** The cache and the limiters touch Redis only, the queue its jobs. *)
Ltac preserves_kv_only :=
  intros;
  unfold cacheService.getClaimResult, cacheService.cacheClaimResult,
    cacheService.getUserVoucherCount, cacheService.setUserVoucherCount,
    cacheService.invalidateUserCache, cacheService.getUser,
    cacheService.setUser, rateLimitService.checkRateLimit,
    rateLimitService.checkIPRateLimit;
  cbv zeta; repeat (first [apply preserves_incr | preserves_step]).

Section PreservesServices.
Context (P : DB → Prop) (now : Z).

Lemma preserves_getClaimResult k : preserves P (cacheService.getClaimResult now k).
Proof. preserves_kv_only. Qed.

Lemma preserves_cacheClaimResult k r :
  preserves P (cacheService.cacheClaimResult now k r).
Proof. preserves_kv_only. Qed.

Lemma preserves_getUserVoucherCount u :
  preserves P (cacheService.getUserVoucherCount now u).
Proof. preserves_kv_only. Qed.

Lemma preserves_setUserVoucherCount u c :
  preserves P (cacheService.setUserVoucherCount now u c).
Proof. preserves_kv_only. Qed.

Lemma preserves_invalidateUserCache u :
  preserves P (cacheService.invalidateUserCache now u).
Proof. preserves_kv_only. Qed.

Lemma preserves_cache_getUser u : preserves P (cacheService.getUser now u).
Proof. preserves_kv_only. Qed.

Lemma preserves_cache_setUser u : preserves P (cacheService.setUser now u).
Proof. preserves_kv_only. Qed.

Lemma preserves_checkRateLimit u m s :
  preserves P (rateLimitService.checkRateLimit now u m s).
Proof. preserves_kv_only. Qed.

Lemma preserves_checkIPRateLimit ip m s :
  preserves P (rateLimitService.checkIPRateLimit now ip m s).
Proof. preserves_kv_only. Qed.

Lemma preserves_getUser (userId : Z) :
  preserves P (voucherService.getUser now userId).
Proof.
  unfold voucherService.getUser.
  apply preserves_bind; [apply preserves_cache_getUser|intros [u|]];
    [apply preserves_ret|].
  apply preserves_bind; [apply preserves_query|intros [|row rows]];
    [apply preserves_throw|].
  apply preserves_bind; [apply preserves_cache_setUser|intros _; apply preserves_ret].
Qed.

End PreservesServices.

Lemma preserves_getVoucherCode (P : DB → Prop) (c : string) :
  preserves P (voucherService.getVoucherCode c).
Proof. unfold voucherService.getVoucherCode. repeat preserves_step. Qed.

(** ** Invariant U1: the user limit *)

Lemma update_where_Forall {R : Type} (p : R → bool) (f : R → R) (check : R → bool)
    (Q : R → Prop) (rows rows' : list R) :
  update_where p f check rows = Some rows' →
  Forall Q rows →
  (∀ r, check (f r) = true → Q (f r)) →
  Forall Q rows'.
Proof.
  unfold update_where. destruct (forallb _ rows) eqn:Hall; [|done].
  intros [= <-] HQ Hf. rewrite forallb_forall in Hall.
  rewrite Forall_forall in HQ. apply Forall_forall. intros r' Hin.
  apply list_elem_of_In, in_map_iff in Hin as (r & <- & Hr).
  specialize (Hall r Hr). destruct (p r); simpl in Hall.
  - by apply Hf.
  - by apply HQ, list_elem_of_In.
Qed.

Lemma users_check_within_limit (u : Users.row) :
  Users.check u = true → user_within_limit u.
Proof. unfold Users.check, user_within_limit. lia. Qed.

Lemma update_user_claimed_incr_within_limit (userId : Z) (d d' : DB) :
  users_within_limit d → update_user_claimed_incr userId d = Ok d' →
  users_within_limit d'.
Proof.
  unfold update_user_claimed_incr, users_within_limit.
  destruct (update_where _ _ _ _) as [us|] eqn:Hup; [|done].
  intros Hd [= <-]. simpl. eapply update_where_Forall; [done..|].
  intros r. apply users_check_within_limit.
Qed.

Lemma update_user_claimed_decr_within_limit (userId : Z) (d d' : DB) :
  users_within_limit d → update_user_claimed_decr userId d = Ok d' →
  users_within_limit d'.
Proof.
  unfold update_user_claimed_decr, users_within_limit.
  destruct (update_where _ _ _ _) as [us|] eqn:Hup; [|done].
  intros Hd [= <-]. simpl. eapply update_where_Forall; [done..|].
  intros r. apply users_check_within_limit.
Qed.

(** The statements on the other tables leave [users] as it is. *)
Ltac keeps_users :=
  unfold update_voucher_usage_fast, update_voucher_usage,
    update_voucher_usage_decr, update_claim_refunded;
  destruct (update_where _ _ _ _); try destruct (refunded_by_fkey _ _ _);
  intros [= <-]; done.

Lemma update_voucher_usage_fast_keeps_users (now u v : Z) (d d' : DB) :
  update_voucher_usage_fast now u v d = Ok d' → users d' = users d.
Proof. keeps_users. Qed.

Lemma update_voucher_usage_keeps_users (v : Z) (d d' : DB) :
  update_voucher_usage v d = Ok d' → users d' = users d.
Proof. keeps_users. Qed.

Lemma update_voucher_usage_decr_keeps_users (v : Z) (d d' : DB) :
  update_voucher_usage_decr v d = Ok d' → users d' = users d.
Proof. keeps_users. Qed.

Lemma update_claim_refunded_keeps_users (now : Z) (a : option Z) (r : string)
    (c : Z) (d d' : DB) :
  update_claim_refunded now a r c d = Ok d' → users d' = users d.
Proof. keeps_users. Qed.

Lemma insert_row_keeps_users (mkrow : Z → VoucherClaims.row) (d : DB) :
  users (insert_row mkrow d).2 = users d.
Proof.
  unfold insert_row. destruct (VoucherClaims.check _); [|done].
  unfold increment_voucher_code_usage.
  destruct (VoucherClaims.status _); try done.
  destruct (VoucherClaims.voucher_code_id _); try done.
  destruct (update_voucher_usage _ _) as [d1|e] eqn:Hup; [|done].
  simpl. by apply update_voucher_usage_keeps_users in Hup.
Qed.

(** An insert either fails on the text of a parameter, before anything is
    drawn, or on the length of the device id, or it is the insert of the
    row of the values read. *)
Lemma insert_claim_inv (ipAddress : string) (deviceId : option string)
    (requestId : string)
    (mkrow : inet → option string → uuid → Z → VoucherClaims.row) (d : DB) :
  insert_claim ipAddress deviceId requestId mkrow d
  = (Err (StoreError "invalid_text_representation"), d)
  ∨ insert_claim ipAddress deviceId requestId mkrow d
    = (Err (StoreError "string_data_right_truncation"), d)
  ∨ ∃ ip device request,
      inet_in ipAddress = Some ip ∧ uuid_in requestId = Some request
      ∧ insert_claim ipAddress deviceId requestId mkrow d
        = insert_row (mkrow ip device request) d.
Proof.
  unfold insert_claim.
  destruct (inet_in ipAddress) as [ip|]; [|by left].
  destruct (uuid_in requestId) as [request|]; [|by left].
  destruct deviceId as [dev|]; [destruct (varchar_in 255 dev) as [dev'|]|];
    [right; right|right; by left|right; right]; by eexists _, _, _.
Qed.

Lemma insert_claim_keeps_users (ipAddress : string) (deviceId : option string)
    (requestId : string)
    (mkrow : inet → option string → uuid → Z → VoucherClaims.row) (d : DB) :
  users (insert_claim ipAddress deviceId requestId mkrow d).2 = users d.
Proof.
  destruct (insert_claim_inv ipAddress deviceId requestId mkrow d)
    as [->|[->|(ip & device & request & _ & _ & ->)]]; [done..|].
  apply insert_row_keeps_users.
Qed.

Lemma users_within_limit_ext (d d' : DB) :
  users d' = users d → users_within_limit d → users_within_limit d'.
Proof. unfold users_within_limit. by intros ->. Qed.

Ltac preserves_service :=
  lazymatch goal with
  | |- preserves _ (cacheService.getClaimResult _ _) => apply preserves_getClaimResult
  | |- preserves _ (cacheService.cacheClaimResult _ _ _) => apply preserves_cacheClaimResult
  | |- preserves _ (cacheService.getUserVoucherCount _ _) => apply preserves_getUserVoucherCount
  | |- preserves _ (cacheService.setUserVoucherCount _ _ _) => apply preserves_setUserVoucherCount
  | |- preserves _ (cacheService.invalidateUserCache _ _) => apply preserves_invalidateUserCache
  | |- preserves _ (rateLimitService.checkRateLimit _ _ _ _) => apply preserves_checkRateLimit
  | |- preserves _ (rateLimitService.checkIPRateLimit _ _ _ _) => apply preserves_checkIPRateLimit
  | |- preserves _ (voucherService.getUser _ _) => apply preserves_getUser
  | |- preserves _ (voucherService.getVoucherCode _) => apply preserves_getVoucherCode
  | |- preserves _ (queueService.addClaimJob _) => apply preserves_addClaimJob
  end.

Ltac preserves_users :=
  repeat first
    [ preserves_service
    | preserves_step
    | apply preserves_exec; intros d d' Hd Hs;
      first [ by eapply update_user_claimed_incr_within_limit
            | by eapply update_user_claimed_decr_within_limit
            | by (eapply users_within_limit_ext; [|exact Hd];
                  first [ eapply update_voucher_usage_fast_keeps_users; exact Hs
                        | eapply update_voucher_usage_keeps_users; exact Hs
                        | eapply update_voucher_usage_decr_keeps_users; exact Hs
                        | eapply update_claim_refunded_keeps_users; exact Hs ])
            | by (inversion Hs; subst; exact Hd) ]
    | apply preserves_stmt; intros d Hd;
      by (eapply users_within_limit_ext; [apply insert_claim_keeps_users|]) ].

Lemma processClaimImmediate_body_within_limit (now : Z) (request : ClaimVoucherRequest.t) :
  preserves users_within_limit (voucherService.processClaimImmediate_body now request).
Proof. unfold voucherService.processClaimImmediate_body. cbv zeta. preserves_users. Qed.

Lemma processJob_body_within_limit (now : Z) (job : QueueJob.t) :
  preserves users_within_limit (voucherWorker.processJob_body now job).
Proof. unfold voucherWorker.processJob_body. cbv zeta. preserves_users. Qed.

Lemma refundVoucher_body_within_limit (now claimId : Z) (reason : string)
    (adminId : option Z) :
  preserves users_within_limit (voucherService.refundVoucher_body now claimId reason adminId).
Proof. unfold voucherService.refundVoucher_body. preserves_users. Qed.

Lemma processClaimImmediate_within_limit (now : Z) (late : bool)
    (request : ClaimVoucherRequest.t) :
  preserves users_within_limit (voucherService.processClaimImmediate now late request).
Proof.
  unfold voucherService.processClaimImmediate.
  apply preserves_execute, preserves_raced, preserves_transaction; [done|].
  apply processClaimImmediate_body_within_limit.
Qed.

Lemma claimVoucher_within_limit (now reread : Z) (late : bool)
    (request : ClaimVoucherRequest.t) :
  preserves users_within_limit (voucherService.claimVoucher now reread late request).
Proof.
  unfold voucherService.claimVoucher. cbv zeta.
  repeat first
    [ lazymatch goal with
      | |- preserves _ (voucherService.processClaimImmediate _ _ _) =>
          apply processClaimImmediate_within_limit
      end
    | progress preserves_users ].
Qed.

Lemma processJob_within_limit (now : Z) (job : QueueJob.t) :
  preserves users_within_limit (voucherWorker.processJob now job).
Proof.
  unfold voucherWorker.processJob.
  apply preserves_bind;
    [apply preserves_transaction; [done|apply processJob_body_within_limit]|].
  intros r. preserves_users.
Qed.

Lemma refundVoucher_within_limit (now claimId : Z) (reason : string)
    (adminId : option Z) :
  preserves users_within_limit (voucherService.refundVoucher now claimId reason adminId).
Proof.
  apply preserves_transaction; [done|apply refundVoucher_body_within_limit].
Qed.

Lemma step_within_limit (o : op) (w : World) :
  users_within_limit (db w) → users_within_limit (db (step o w)).
Proof.
  intros Hw. destruct o as [now reread late request|now job|now claimId reason adminId]; simpl.
  - eapply claimVoucher_within_limit; [done|apply surjective_pairing].
  - eapply processJob_within_limit; [done|apply surjective_pairing].
  - eapply refundVoucher_within_limit; [done|apply surjective_pairing].
Qed.

(** From a database whose users satisfy [0 ≤ claimed ≤ limit], every
    history of claim requests, worker jobs and refunds ends in a database
    whose users satisfy it. *)
Lemma run_within_limit (ops : list op) (w : World) :
  users_within_limit (db w) → users_within_limit (db (run ops w)).
Proof.
  unfold run. revert w. induction ops as [|o ops IH]; intros w Hw; simpl; [done|].
  by apply IH, step_within_limit.
Qed.

Lemma NoDup_fmap_eq {A B : Type} (f : A → B) (l : list A) (x y : A) :
  NoDup (f <$> l) → x ∈ l → y ∈ l → f x = f y → x = y.
Proof.
  induction l as [|a l IH]; simpl; [by intros _ ?%elem_of_nil|].
  intros [Hnot Hnd]%NoDup_cons [->|Hx]%elem_of_cons [->|Hy]%elem_of_cons Hf;
    [done| | |by apply IH].
  - exfalso. apply Hnot. rewrite Hf. by apply list_elem_of_fmap_2.
  - exfalso. apply Hnot. rewrite <- Hf. by apply list_elem_of_fmap_2.
Qed.

(** X24: the guard of the claim transaction is what keeps the increment
    within the limit: with user ids unique (the primary key), the increment
    that follows a passed limit check is never rejected by the store. *)
Lemma guarded_increment_is_accepted (userId : Z) (d : DB)
    (user : Users.row) (rest : list Users.row) :
  NoDup (Users.id <$> users d) →
  users_within_limit d →
  select_active_user userId d = user :: rest →
  Users.vouchers_claimed user < Users.voucher_limit user →
  ∃ d', update_user_claimed_incr userId d = Ok d'.
Proof.
  intros Hnd Hinv Hsel Hlt.
  assert (Huser : user ∈ users d ∧ Users.id user = userId).
  { assert (Hin : user ∈ select_active_user userId d) by (rewrite Hsel; left).
    unfold select_active_user in Hin.
    apply list_elem_of_filter in Hin as [[? _] ?]. done. }
  destruct Huser as [Hin Hid].
  unfold update_user_claimed_incr, update_where.
  replace (forallb _ (users d)) with true; [by eexists|].
  symmetry. apply forallb_forall. intros r Hr%list_elem_of_In.
  destruct (Users.id r =? userId) eqn:Heq; [|done]. simpl.
  apply Z.eqb_eq in Heq.
  assert (r = user) as -> by (eapply NoDup_fmap_eq; [done..|congruence]).
  unfold users_within_limit in Hinv. rewrite Forall_forall in Hinv.
  destruct (Hinv _ Hin) as [H0 _]. unfold Users.check. simpl. lia.
Qed.

(** ** The sliding-window limiter *)

Section SlidingWindow.
Import redis.

Lemma live_entry_Some {V : Type} (now : Z) (x : V * option Z) (v : V) (e : option Z) :
  live_entry now x = Some (v, e) → x = (v, e) ∧ ∀ v' : V, live now (v', e) = Some v'.
Proof.
  unfold live_entry, live. destruct x as [v0 e0]; simpl.
  destruct e0 as [t|]; [destruct (t <=? now) eqn:Ht|]; intros [= -> <-];
    (split; [done|]); intros v'; simpl; by rewrite ?Ht.
Qed.

Lemma live_entry_None {V : Type} (now : Z) (x : V * option Z) :
  live_entry now x = None → live now x = None.
Proof. unfold live_entry. by destruct (live now x). Qed.

Lemma zget_zput (now : Z) (key : string) (z : zset) (r : Redis) :
  zget now key (zput now key z r) = z.
Proof.
  unfold zget, zput. destruct z as [|x z]; simpl.
  - by rewrite lookup_delete_eq.
  - rewrite lookup_insert_eq. simpl.
    destruct (zsets r !! key) as [[z0 e0]|]; simpl; [|done].
    destruct (live_entry now (z0, e0)) as [[z1 e1]|] eqn:Hl; [|done].
    apply live_entry_Some in Hl as [_ Hl]. by rewrite Hl.
Qed.

Lemma zget_expire (now : Z) (key : string) (seconds : Z) (r : Redis) :
  0 < seconds → zget now key (expire now key seconds r) = zget now key r.
Proof.
  intros Hs. unfold zget, expire.
  replace (seconds <=? 0) with false by (symmetry; apply Z.leb_gt; lia). simpl.
  destruct (zsets r !! key) as [[z0 e0]|] eqn:Hk; simpl; [|by rewrite Hk].
  destruct (live_entry now (z0, e0)) as [[z1 e1]|] eqn:Hl; simpl.
  - apply live_entry_Some in Hl as [[= <- <-] Hl].
    rewrite lookup_insert_eq. simpl. rewrite Hl. unfold live. simpl.
    by replace (now + seconds * 1000 <=? now) with false
      by (symmetry; apply Z.leb_gt; lia).
  - rewrite Hk. simpl. by rewrite (live_entry_None _ _ Hl).
Qed.

Lemma zmin_cases (a b : Z * string) :
  (zmin a b = a ∧ a.1 ≤ b.1) ∨ (zmin a b = b ∧ b.1 ≤ a.1).
Proof.
  unfold zmin, zlt. destruct (b.1 <? a.1) eqn:Hlt; simpl.
  - right. split; [done|]. apply Z.ltb_lt in Hlt. lia.
  - apply Z.ltb_ge in Hlt. destruct (b.1 =? a.1) eqn:Heq; simpl.
    + apply Z.eqb_eq in Heq. destruct (String.compare b.2 a.2); [left|right|left]; split; (done || lia).
    + left. done.
Qed.

Lemma foldr_zmin_lowest (e : Z * string) (z : zset) :
  lowest_score (foldr zmin e z).1 (e :: z).
Proof.
  unfold lowest_score. induction z as [|x z [IHin IHle]]; simpl.
  - split; [left|]. intros s' Hs'%list_elem_of_singleton. lia.
  - simpl in IHin, IHle.
    assert (Hrest : ∀ s', s' ∈ e.1 :: x.1 :: z.*1 →
                          s' = x.1 ∨ (foldr zmin e z).1 ≤ s').
    { intros s' [->|[->|Hs']%elem_of_cons]%elem_of_cons; [right|by left|right];
        apply IHle; [left|by right]. }
    destruct (zmin_cases x (foldr zmin e z)) as [[-> Hle]|[-> Hle]].
    + split; [right; left|]. intros s' Hs'.
      destruct (Hrest s' Hs') as [->|Hs'']; lia.
    + split.
      * apply elem_of_cons in IHin as [->|IHin]; [left|right; by right].
      * intros s' Hs'. destruct (Hrest s' Hs') as [->|Hs'']; lia.
Qed.

Lemma zrange_first_lowest (now : Z) (key : string) (r : Redis) :
  match zrange_first now key r with
  | Some (score, _) => lowest_score score (zget now key r)
  | None => zget now key r = []
  end.
Proof.
  unfold zrange_first. destruct (zget now key r) as [|e z]; [done|].
  pose proof (foldr_zmin_lowest e z) as H. by destruct (foldr zmin e z).
Qed.

(** The state of the user's key after the pipeline. *)
Lemma checkRateLimit_pipeline (now userId maxRequests windowSeconds : Z) (r : Redis) :
  0 < windowSeconds →
  let key := rate_key userId in
  let r1 := zremrangebyscore now key 0 (now - windowSeconds * 1000) r in
  let r3 := expire now key windowSeconds (zadd now key now (pretty now) r1) in
  zget now key r1
  = filter (λ e : Z * string, ¬ (0 ≤ e.1 ∧ e.1 ≤ now - windowSeconds * 1000))
      (zget now key r)
  ∧ zget now key r3
    = filter (λ e : Z * string, e.2 ≠ pretty now) (zget now key r1)
      ++ [(now, pretty now)].
Proof.
  intros Hw key r1 r3. split.
  - unfold r1, zremrangebyscore. apply zget_zput.
  - unfold r3. rewrite zget_expire by done. unfold zadd. apply zget_zput.
Qed.

(** C6, as the code decides: with [n] the number of attempts the eviction
    keeps (counted before the current one is added), the request is
    admitted iff [n < max]; an admitted request gets [max - n - 1] and the
    reset instant [now + window * 1000]; a rejected one gets 0 remaining and
    the lowest score of the set, the current attempt included, plus
    [window * 1000].  The attempt is recorded in both cases. *)
Theorem C6_sliding_window_decision (now userId maxRequests windowSeconds : Z) (w : World) :
  0 < windowSeconds →
  let n := Z.of_nat (length (recorded now userId windowSeconds w)) in
  ∃ res w',
    rateLimitService.checkRateLimit now userId maxRequests windowSeconds w = (Ok res, w')
    ∧ (RateLimitResult.allowed res = true ↔ n < maxRequests)
    ∧ (n < maxRequests →
       RateLimitResult.remainingRequests res = maxRequests - n - 1
       ∧ RateLimitResult.resetTime res = now + windowSeconds * 1000)
    ∧ (maxRequests ≤ n →
       RateLimitResult.remainingRequests res = 0
       ∧ ∃ oldestScore,
           lowest_score oldestScore (recorded_with_current now userId windowSeconds w)
           ∧ RateLimitResult.resetTime res = oldestScore + windowSeconds * 1000)
    ∧ zget now (rate_key userId) (kv w')
      = recorded_with_current now userId windowSeconds w
    ∧ db w' = db w.
Proof.
  intros Hw n.
  destruct (checkRateLimit_pipeline now userId maxRequests windowSeconds (kv w) Hw)
    as [H1 H3].
  unfold rateLimitService.checkRateLimit, bind, kv_write, kv_read, ret.
  cbn [kv set_kv]. fold (rate_key userId).
  set (r1 := zremrangebyscore now (rate_key userId) 0 (now - windowSeconds * 1000) (kv w)) in *.
  set (r3 := expire now (rate_key userId) windowSeconds
               (zadd now (rate_key userId) now (pretty now) r1)) in *.
  assert (Hn : zcard now (rate_key userId) r1 = n).
  { unfold zcard, n, recorded. by rewrite H1. }
  assert (Hfinal : zget now (rate_key userId) r3
                   = recorded_with_current now userId windowSeconds w).
  { unfold recorded_with_current, recorded. by rewrite H3, H1. }
  rewrite Hn. destruct (n >=? maxRequests) eqn:Hge.
  - rewrite Z.geb_leb in Hge. apply Z.leb_le in Hge.
    eexists _, _. split; [reflexivity|]. cbn.
    split; [split; [done|lia]|]. split; [lia|]. split; [|done].
    intros _. split; [done|].
    pose proof (zrange_first_lowest now (rate_key userId) r3) as Hlow.
    destruct (zrange_first now (rate_key userId) r3) as [[score member]|].
    + exists score. by rewrite <- Hfinal.
    + rewrite Hfinal in Hlow. unfold recorded_with_current in Hlow.
      by apply app_nil in Hlow as [_ ?].
  - rewrite Z.geb_leb in Hge. apply Z.leb_gt in Hge.
    eexists _, _. split; [reflexivity|]. cbn.
    split; [split; [done|lia]|]. split; [done|]. split; [lia|done].
Qed.

Lemma C6_sliding_window_decision_witness :
  ∃ res w',
    rateLimitService.checkRateLimit 5000 7 10 60 Scenario.one_attempt = (Ok res, w')
    ∧ (RateLimitResult.allowed res = true ↔ 1 < 10)
    ∧ (1 < 10 →
       RateLimitResult.remainingRequests res = 10 - 1 - 1
       ∧ RateLimitResult.resetTime res = 5000 + 60 * 1000)
    ∧ (10 ≤ 1 →
       RateLimitResult.remainingRequests res = 0
       ∧ ∃ oldestScore,
           lowest_score oldestScore (recorded_with_current 5000 7 60 Scenario.one_attempt)
           ∧ RateLimitResult.resetTime res = oldestScore + 60 * 1000)
    ∧ zget 5000 (rate_key 7) (kv w')
      = recorded_with_current 5000 7 60 Scenario.one_attempt
    ∧ db w' = db Scenario.one_attempt.
Proof.
  apply (C6_sliding_window_decision 5000 7 10 60 Scenario.one_attempt). lia.
Defined.

(** C6 as stated fails on an admitted request: one attempt at instant 1000
    is on record, the request at instant 5000 is admitted with 8 remaining,
    and its reset instant is [now + 60000 = 65000], not the oldest score
    plus the window, 61000. *)
Lemma C6_reset_of_admitted_request_is_not_oldest_plus_window :
  let w := Scenario.one_attempt in
  recorded 5000 7 60 w = [(1000, "1000")]
  ∧ lowest_score 1000 (recorded_with_current 5000 7 60 w)
  ∧ (rateLimitService.checkRateLimit 5000 7 10 60 w).1
    = Ok {| RateLimitResult.allowed := true;
            RateLimitResult.remainingRequests := 8;
            RateLimitResult.resetTime := 65000 |}
  ∧ 65000 ≠ 1000 + 60 * 1000.
Proof.
  split; [by vm_compute|]. split; [|split; [by vm_compute|lia]].
  replace (recorded_with_current 5000 7 60 Scenario.one_attempt)
    with [(1000, "1000"); (5000, "5000")] by (by vm_compute).
  split; [left|]. intros s' Hs'. simpl in Hs'.
  apply elem_of_cons in Hs' as [->|Hs']; [lia|].
  apply list_elem_of_singleton in Hs' as ->. lia.
Qed.

End SlidingWindow.

(** ** Running the transaction bodies *)

Lemma bind_query {A B : Type} (q : DB → A) (k : A → M B) (w : World) :
  bind (query q) k w = k (q (db w)) w.
Proof. reflexivity. Qed.

Lemma bind_throw {A B : Type} (e : error) (k : A → M B) (w : World) :
  bind (throw e) k w = (Err e, w).
Proof. reflexivity. Qed.

Lemma bind_ret {A B : Type} (a : A) (k : A → M B) (w : World) :
  bind (ret a) k w = k a w.
Proof. reflexivity. Qed.

Lemma set_voucher_claims_id_seq_same (d : DB) :
  set_voucher_claims_id_seq (voucher_claims_id_seq d) d = d.
Proof. by destruct d. Qed.

Lemma set_db_same (w : World) : set_db (db w) w = w.
Proof. by destruct w. Qed.

Lemma set_kv_same (w : World) : set_kv (kv w) w = w.
Proof. by destruct w. Qed.

(** A transaction whose body fails without having touched anything leaves
    the world as it was. *)
Lemma transaction_err_unchanged {A : Type} (body : M A) (w : World) (e : error) :
  body w = (Err e, w) → transaction body w = (Err e, w).
Proof.
  intros H. unfold transaction. rewrite H.
  by rewrite set_voucher_claims_id_seq_same, set_db_same.
Qed.

Lemma transaction_ok {A : Type} (body : M A) (w w' : World) (a : A) :
  body w = (Ok a, w') → transaction body w = (Ok a, w').
Proof. intros H. unfold transaction. by rewrite H. Qed.

Lemma transaction_err_inv {A : Type} (body : M A) (w w' : World) (e : error) :
  transaction body w = (Err e, w') → ∃ w'', body w = (Err e, w'').
Proof.
  unfold transaction. destruct (body w) as [[a|e'] w'']; intros [= <- <-]; eauto.
Qed.

(** The store rejects a statement with a store error only. *)
Ltac statement_error :=
  unfold update_user_claimed_incr, update_user_claimed_decr,
    update_voucher_usage_fast, update_voucher_usage, update_voucher_usage_decr,
    update_claim_refunded;
  destruct (update_where _ _ _ _); try destruct (refunded_by_fkey _ _ _);
  intros [= <-]; by eexists.

Lemma update_user_claimed_incr_error (u : Z) (d : DB) (e : error) :
  update_user_claimed_incr u d = Err e → store_error e.
Proof. statement_error. Qed.

Lemma update_voucher_usage_fast_error (now u v : Z) (d : DB) (e : error) :
  update_voucher_usage_fast now u v d = Err e → store_error e.
Proof. statement_error. Qed.

Lemma update_voucher_usage_error (v : Z) (d : DB) (e : error) :
  update_voucher_usage v d = Err e → store_error e.
Proof. statement_error. Qed.

Lemma insert_row_error (mkrow : Z → VoucherClaims.row) (d : DB) (e : error) :
  (insert_row mkrow d).1 = Err e → store_error e.
Proof.
  unfold insert_row. destruct (VoucherClaims.check _); [|intros [= <-]; by eexists].
  unfold increment_voucher_code_usage.
  destruct (VoucherClaims.status _); try done.
  destruct (VoucherClaims.voucher_code_id _); try done.
  destruct (update_voucher_usage _ _) eqn:Hup; [done|].
  intros [= <-]. by eapply update_voucher_usage_error.
Qed.

Lemma insert_claim_error (ipAddress : string) (deviceId : option string)
    (requestId : string)
    (mkrow : inet → option string → uuid → Z → VoucherClaims.row) (d : DB)
    (e : error) :
  (insert_claim ipAddress deviceId requestId mkrow d).1 = Err e → store_error e.
Proof.
  destruct (insert_claim_inv ipAddress deviceId requestId mkrow d)
    as [->|[->|(ip & device & request & _ & _ & ->)]];
    [intros [= <-]; by eexists..|].
  apply insert_row_error.
Qed.

Lemma exec_err_inv (s : DB → result DB) (w w' : World) (e : error) :
  exec s w = (Err e, w') → s (db w) = Err e.
Proof. unfold exec. destruct (s (db w)); by intros [= <-]. Qed.

Lemma stmt_err_inv {A : Type} (s : DB → result A * DB) (w w' : World) (e : error) :
  stmt s w = (Err e, w') → (s (db w)).1 = Err e.
Proof. unfold stmt. destruct (s (db w)) as [r d]. by intros [= -> _]. Qed.

(** The cache operations of the commit path do not fail. *)
Lemma cache_update_no_error (now userId count : Z) (k : M ClaimVoucherResponse.t)
    (w w' : World) (e : error) :
  bind (cacheService.invalidateUserCache now userId)
    (λ _, bind (cacheService.setUserVoucherCount now userId count) (λ _, k)) w
  = (Err e, w') →
  ∃ w1, k w1 = (Err e, w').
Proof. unfold bind. simpl. eauto. Qed.

(** ** The limit check of the transaction *)

Lemma processClaimImmediate_body_at_limit (now : Z) (request : ClaimVoucherRequest.t)
    (w : World) (user : Users.row) (rest : list Users.row) :
  select_active_user (ClaimVoucherRequest.userId request) (db w) = user :: rest →
  Users.voucher_limit user ≤ Users.vouchers_claimed user →
  voucherService.processClaimImmediate_body now request w
  = (Err (VoucherLimitExceeded "Voucher limit exceeded"), w).
Proof.
  intros Hsel Hlim. unfold voucherService.processClaimImmediate_body. cbv zeta.
  rewrite bind_query, Hsel.
  by replace (Users.vouchers_claimed user >=? Users.voucher_limit user) with true
    by (symmetry; rewrite Z.geb_leb; apply Z.leb_le; lia).
Qed.

Lemma processJob_body_at_limit (now : Z) (job : QueueJob.t)
    (w : World) (user : Users.row) (rest : list Users.row) :
  select_active_user (QueueJob.userId job) (db w) = user :: rest →
  Users.voucher_limit user ≤ Users.vouchers_claimed user →
  voucherWorker.processJob_body now job w = (Ok limit_reached_result, w).
Proof.
  intros Hsel Hlim. unfold voucherWorker.processJob_body. cbv zeta.
  rewrite bind_query, Hsel.
  by replace (Users.vouchers_claimed user >=? Users.voucher_limit user) with true
    by (symmetry; rewrite Z.geb_leb; apply Z.leb_le; lia).
Qed.

(** C4, as the code behaves: when the locked user row has
    [claimed ≥ limit], the fast path fails with [LIMIT_EXCEEDED] (403) and
    the worker returns the [limit_reached] result; on both paths the
    database is left as it was, the audit log included, so no audit row is
    appended. *)
Theorem C4_limit_reached_leaves_database_unchanged (now : Z) (late : bool)
    (request : ClaimVoucherRequest.t) (job : QueueJob.t) (w : World)
    (user : Users.row) (rest : list Users.row) :
  select_active_user (ClaimVoucherRequest.userId request) (db w) = user :: rest →
  QueueJob.userId job = ClaimVoucherRequest.userId request →
  Users.voucher_limit user ≤ Users.vouchers_claimed user →
  admits now (dbCircuitBreaker w) →
  (∃ e w', voucherService.processClaimImmediate now late request w = (Err e, w')
           ∧ (late = false → code e = "LIMIT_EXCEEDED" ∧ statusCode e = 403)
           ∧ (late = true → e = PlainError "Circuit breaker timeout")
           ∧ db w' = db w ∧ kv w' = kv w ∧ queue w' = queue w)
  ∧ (∃ w', voucherWorker.processJob now job w = (Ok limit_reached_result, w')
           ∧ db w' = db w ∧ queue w' = queue w)
  ∧ ∀ a, audit_count a (db (voucherService.processClaimImmediate now late request w).2)
         = audit_count a (db w)
         ∧ audit_count a (db (voucherWorker.processJob now job w).2)
           = audit_count a (db w).
Proof.
  intros Hsel Hjob Hlim Hadm.
  pose proof (processClaimImmediate_body_at_limit now request w user rest Hsel Hlim) as Hfast.
  apply transaction_err_unchanged in Hfast.
  rewrite <- Hjob in Hsel.
  pose proof (processJob_body_at_limit now job w user rest Hsel Hlim) as Hwork.
  apply transaction_ok in Hwork.
  assert (Hf : ∃ cb, voucherService.processClaimImmediate now late request w
                     = (Err (if late then PlainError "Circuit breaker timeout"
                             else VoucherLimitExceeded "Voucher limit exceeded"),
                        set_dbCircuitBreaker cb w)).
  { unfold voucherService.processClaimImmediate, CircuitBreaker.execute,
      voucherService.raced.
    unfold admits in Hadm. rewrite Hadm, Hfast. destruct late; by eexists. }
  assert (Hw : voucherWorker.processJob now job w
               = (Ok limit_reached_result,
                  set_kv (redis.set now
                            (cacheService.CLAIM_RESULT_PREFIX +:+ QueueJob.idempotencyKey job)
                            (PResult limit_reached_result) (Some 3600) (kv w)) w)).
  { unfold voucherWorker.processJob. by rewrite (bind_ok _ _ _ _ _ Hwork). }
  destruct Hf as [cb Hf]. split; [|split].
  - eexists _, _. split; [exact Hf|]. by destruct late.
  - eexists. split; [exact Hw|]. done.
  - intros a. by rewrite Hf, Hw.
Qed.

Lemma C4_limit_reached_leaves_database_unchanged_witness :
  (∃ e w', voucherService.processClaimImmediate 1000 false
             (Scenario.request 5 "SUMMER2024" Scenario.r5) Scenario.fresh = (Err e, w')
           ∧ (false = false → code e = "LIMIT_EXCEEDED" ∧ statusCode e = 403)
           ∧ (false = true → e = PlainError "Circuit breaker timeout")
           ∧ db w' = db Scenario.fresh ∧ kv w' = kv Scenario.fresh
           ∧ queue w' = queue Scenario.fresh)
  ∧ (∃ w', voucherWorker.processJob 1000 (Scenario.job 5 "SUMMER2024" Scenario.q5 1000)
             Scenario.fresh = (Ok limit_reached_result, w')
           ∧ db w' = db Scenario.fresh ∧ queue w' = queue Scenario.fresh)
  ∧ ∀ a, audit_count a (db (voucherService.processClaimImmediate 1000 false
                              (Scenario.request 5 "SUMMER2024" Scenario.r5) Scenario.fresh).2)
         = audit_count a (db Scenario.fresh)
         ∧ audit_count a (db (voucherWorker.processJob 1000
                                (Scenario.job 5 "SUMMER2024" Scenario.q5 1000) Scenario.fresh).2)
           = audit_count a (db Scenario.fresh).
Proof.
  apply (C4_limit_reached_leaves_database_unchanged 1000 false
           (Scenario.request 5 "SUMMER2024" Scenario.r5)
           (Scenario.job 5 "SUMMER2024" Scenario.q5 1000)
           Scenario.fresh Scenario.user5 []);
    [reflexivity | reflexivity | simpl; lia | reflexivity].
Defined.

(** C4 as stated fails: user 5 stands at [claimed = limit = 10]; the claim
    request fails with [LIMIT_EXCEEDED], yet the audit log holds no
    [LIMIT_REACHED] row afterwards, where the claim expects one; and the
    worker, on the same user, does not fail but completes with a result. *)
Lemma C4_no_LIMIT_REACHED_audit_row :
  let w := Scenario.fresh in
  let fast := voucherService.claimVoucher 1000 1000 false
                (Scenario.request 5 "SUMMER2024" Scenario.r5) w in
  let worker := voucherWorker.processJob 1000
                  (Scenario.job 5 "SUMMER2024" Scenario.q5 1000) w in
  fast.1 = Err (VoucherLimitExceeded "Voucher limit exceeded")
  ∧ audit_count LIMIT_REACHED (db w) = 0%nat
  ∧ audit_count LIMIT_REACHED (db fast.2) ≠ 1%nat
  ∧ worker.1 = Ok limit_reached_result
  ∧ audit_count LIMIT_REACHED (db worker.2) ≠ 1%nat.
Proof. vm_compute. repeat split; done. Qed.

(** ** Step 4: the eligibility re-check on the locked row *)

Lemma step4_bool (now : Z) (v : VoucherCodes.row) :
  negb (VoucherCodes.is_active v)
  || match VoucherCodes.expires_at v with Some t => t <? now | None => false end
  || (VoucherCodes.usage_count v >=? VoucherCodes.usage_limit v) = false
  ↔ passes_step4 now v.
Proof.
  unfold passes_step4. rewrite Z.geb_leb.
  destruct (VoucherCodes.is_active v); simpl; [|split; [done|by intros [? _]]].
  destruct (VoucherCodes.expires_at v) as [t|]; simpl;
    [destruct (Z.ltb_spec t now); simpl|];
    try destruct (Z.leb_spec (VoucherCodes.usage_limit v) (VoucherCodes.usage_count v));
    (split;
     [ intros Hb; try done; repeat split; try done; try lia;
       try (intros t' [= <-]; lia)
     | intros (_ & Ht & Hc); try done; try lia;
       try (specialize (Ht t eq_refl); lia) ]).
Qed.

(** Past step 4 the fast path fails only on the already-claimed guard or on
    a statement the store rejects. *)
Lemma processClaimImmediate_body_past_step4 (now : Z) (request : ClaimVoucherRequest.t)
    (w w' : World) (user : Users.row) (rest : list Users.row)
    (voucher : VoucherCodes.row) (rest' : list VoucherCodes.row) (e : error) :
  select_active_user (ClaimVoucherRequest.userId request) (db w) = user :: rest →
  Users.vouchers_claimed user < Users.voucher_limit user →
  select_voucher_code (ClaimVoucherRequest.voucherCode request) (db w) = voucher :: rest' →
  passes_step4 now voucher →
  voucherService.processClaimImmediate_body now request w = (Err e, w') →
  e = InvalidVoucherCode "You have already claimed this voucher" ∨ store_error e.
Proof.
  intros Hsel Hlim Hv Hpass. apply step4_bool in Hpass.
  apply orb_false_elim in Hpass as [Hpass Hcount].
  apply orb_false_elim in Hpass as [Hact Hexp].
  unfold voucherService.processClaimImmediate_body. cbv zeta.
  rewrite bind_query, Hsel.
  replace (Users.vouchers_claimed user >=? Users.voucher_limit user) with false
    by (symmetry; rewrite Z.geb_leb; apply Z.leb_gt; lia).
  rewrite bind_query, Hv, Hact, Hexp, Hcount, bind_query.
  destruct (0 <? length _)%nat; [intros [= <- _]; by left|].
  intros H. right.
  apply bind_inv in H as [(e' & H & [= ->])|(? & w1 & _ & H)];
    [by eapply update_user_claimed_incr_error, exec_err_inv|].
  apply bind_inv in H as [(e' & H & [= ->])|(? & w2 & _ & H)];
    [by eapply update_voucher_usage_fast_error, exec_err_inv|].
  apply bind_inv in H as [(e' & H & [= ->])|(? & w3 & _ & H)];
    [by eapply insert_claim_error, stmt_err_inv|].
  apply cache_update_no_error in H as [w4 H]. done.
Qed.

(** Past step 4 the worker fails only on a statement the store rejects. *)
Lemma processJob_body_past_step4 (now : Z) (job : QueueJob.t)
    (w w' : World) (user : Users.row) (rest : list Users.row)
    (voucher : VoucherCodes.row) (rest' : list VoucherCodes.row) (e : error) :
  select_active_user (QueueJob.userId job) (db w) = user :: rest →
  Users.vouchers_claimed user < Users.voucher_limit user →
  select_voucher_code (QueueJob.voucherCode job) (db w) = voucher :: rest' →
  passes_step4 now voucher →
  voucherWorker.processJob_body now job w = (Err e, w') →
  store_error e.
Proof.
  intros Hsel Hlim Hv Hpass. apply step4_bool in Hpass.
  unfold voucherWorker.processJob_body. cbv zeta.
  rewrite bind_query, Hsel.
  replace (Users.vouchers_claimed user >=? Users.voucher_limit user) with false
    by (symmetry; rewrite Z.geb_leb; apply Z.leb_gt; lia).
  rewrite bind_query, Hv, Hpass.
  intros H.
  apply bind_inv in H as [(e' & H & [= ->])|(? & w1 & _ & H)];
    [by eapply update_user_claimed_incr_error, exec_err_inv|].
  apply bind_inv in H as [(e' & H & [= ->])|(? & w2 & _ & H)];
    [by eapply update_voucher_usage_error, exec_err_inv|].
  apply bind_inv in H as [(e' & H & [= ->])|(? & w3 & _ & H)];
    [by eapply insert_claim_error, stmt_err_inv|].
  apply cache_update_no_error in H as [w4 H]. done.
Qed.

(** C7, as the code checks: on the locked voucher row the transaction
    re-checks [is_active], [expires_at] (present and before [now]) and
    [usage_count >= usage_limit], in this order.  The fast path fails with
    [INVALID_VOUCHER] and the reason of the first check that fails; the
    worker fails with the plain error "Voucher code is not valid".  When the
    three checks pass, neither path fails at step 4, whatever [valid_from]
    and [allowed_user_ids] are: the fast path can then only fail on the
    already-claimed guard or in the store, the worker only in the store. *)
Theorem C7_step4_rechecks_active_expiry_usage (now : Z)
    (request : ClaimVoucherRequest.t) (job : QueueJob.t) (w : World)
    (user : Users.row) (rest : list Users.row)
    (voucher : VoucherCodes.row) (rest' : list VoucherCodes.row) :
  select_active_user (ClaimVoucherRequest.userId request) (db w) = user :: rest →
  Users.vouchers_claimed user < Users.voucher_limit user →
  select_voucher_code (ClaimVoucherRequest.voucherCode request) (db w) = voucher :: rest' →
  QueueJob.userId job = ClaimVoucherRequest.userId request →
  QueueJob.voucherCode job = ClaimVoucherRequest.voucherCode request →
  let fast := transaction (voucherService.processClaimImmediate_body now request) w in
  let worker := transaction (voucherWorker.processJob_body now job) w in
  (VoucherCodes.is_active voucher = false →
   fast = (Err (InvalidVoucherCode "Voucher code is inactive"), w))
  ∧ (VoucherCodes.is_active voucher = true →
     (∃ t, VoucherCodes.expires_at voucher = Some t ∧ t < now) →
     fast = (Err (InvalidVoucherCode "Voucher code has expired"), w))
  ∧ (VoucherCodes.is_active voucher = true →
     (∀ t, VoucherCodes.expires_at voucher = Some t → now ≤ t) →
     VoucherCodes.usage_limit voucher ≤ VoucherCodes.usage_count voucher →
     fast = (Err (InvalidVoucherCode "Voucher code usage limit reached"), w))
  ∧ (¬ passes_step4 now voucher →
     worker = (Err (PlainError "Voucher code is not valid"), w))
  ∧ (passes_step4 now voucher →
     ∀ e w',
       (fast = (Err e, w') →
        e = InvalidVoucherCode "You have already claimed this voucher" ∨ store_error e)
       ∧ (worker = (Err e, w') → store_error e)).
Proof.
  intros Hsel Hlim Hv Hju Hjc fast worker.
  assert (Hlimb : (Users.vouchers_claimed user >=? Users.voucher_limit user) = false)
    by (rewrite Z.geb_leb; apply Z.leb_gt; lia).
  assert (Hfast : ∀ e,
    (negb (VoucherCodes.is_active voucher) = true
     ∧ e = InvalidVoucherCode "Voucher code is inactive")
    ∨ (negb (VoucherCodes.is_active voucher) = false
       ∧ match VoucherCodes.expires_at voucher with
         | Some t => t <? now | None => false end = true
       ∧ e = InvalidVoucherCode "Voucher code has expired")
    ∨ (negb (VoucherCodes.is_active voucher) = false
       ∧ match VoucherCodes.expires_at voucher with
         | Some t => t <? now | None => false end = false
       ∧ (VoucherCodes.usage_count voucher >=? VoucherCodes.usage_limit voucher) = true
       ∧ e = InvalidVoucherCode "Voucher code usage limit reached") →
    fast = (Err e, w)).
  { intros e He. unfold fast. apply transaction_err_unchanged.
    unfold voucherService.processClaimImmediate_body. cbv zeta.
    rewrite bind_query, Hsel, Hlimb, bind_query, Hv.
    destruct He as [[-> ->]|[(-> & -> & ->)|(-> & -> & -> & ->)]]; done. }
  split; [|split; [|split; [|split]]].
  - intros Hact. apply Hfast. left. by rewrite Hact.
  - intros Hact (t & Ht & Hlt). apply Hfast. right. left.
    rewrite Hact, Ht. split; [done|]. split; [|done]. apply Z.ltb_lt. lia.
  - intros Hact Hexp Hcount. apply Hfast. right. right.
    rewrite Hact. split; [done|]. split; [|split; [|done]].
    + destruct (VoucherCodes.expires_at voucher) as [t|]; [|done].
      apply Z.ltb_ge. by apply Hexp.
    + rewrite Z.geb_leb. apply Z.leb_le. lia.
  - intros Hnot. unfold worker. apply transaction_err_unchanged.
    unfold voucherWorker.processJob_body. cbv zeta.
    rewrite Hju, Hjc, bind_query, Hsel, Hlimb, bind_query, Hv.
    destruct (negb _ || _ || _) eqn:Hb; [done|].
    by apply step4_bool in Hb.
  - intros Hpass e w'. split; intros H; apply transaction_err_inv in H as [w'' H].
    + by eapply processClaimImmediate_body_past_step4.
    + eapply processJob_body_past_step4; [| |  |done|done]; rewrite ?Hju, ?Hjc; done.
Qed.

Lemma C7_step4_rechecks_active_expiry_usage_witness :
  transaction (voucherService.processClaimImmediate_body 1000
                 (Scenario.request 3 "RETIRED" Scenario.r7)) Scenario.fresh
  = (Err (InvalidVoucherCode "Voucher code is inactive"), Scenario.fresh)
  ∧ transaction (voucherWorker.processJob_body 1000
                   (Scenario.job 3 "RETIRED" Scenario.r7 1000)) Scenario.fresh
    = (Err (PlainError "Voucher code is not valid"), Scenario.fresh).
Proof.
  destruct (C7_step4_rechecks_active_expiry_usage 1000
              (Scenario.request 3 "RETIRED" Scenario.r7) (Scenario.job 3 "RETIRED" Scenario.r7 1000)
              Scenario.fresh Scenario.user3 [] Scenario.RETIRED []
              eq_refl ltac:(simpl; lia) eq_refl eq_refl eq_refl)
    as (Hinactive & _ & _ & Hworker & _).
  split; [apply Hinactive; reflexivity|].
  apply Hworker. intros [Hact _]. simpl in Hact. discriminate Hact.
Defined.

(** C7 as stated fails: EARLYBIRD becomes valid at instant 900000 and is
    restricted to the users 8 and 9, so at instant 1000 it is not eligible
    for user 3 (the coordinator rejects the request for it); the claim
    transaction commits all the same, on the fast path and in the worker.
    On the inactive code RETIRED the worker fails with a plain error, whose
    code is not [INVALID_VOUCHER].  And SUMMER2024 expires at instant
    2592000000: at that very instant, where [now < expires_at] does not
    hold, both transactions still commit the claim. *)
Lemma C7_transaction_ignores_valid_from_and_allowed_users :
  let w := Scenario.fresh in
  select_voucher_code "EARLYBIRD" (db w) = [Scenario.EARLYBIRD]
  ∧ VoucherCodes.expires_at Scenario.SUMMER2024 = Some 2592000000
  ∧ (transaction (voucherService.processClaimImmediate_body 2592000000
                    (Scenario.request 3 "SUMMER2024" Scenario.r1)) w).1
    = Ok (Scenario.claimed 9)
  ∧ (transaction (voucherWorker.processJob_body 2592000000
                    (Scenario.job 3 "SUMMER2024" Scenario.r1 1000)) w).1
    = Ok (Scenario.claimed 9)
  ∧ (voucherService.claimVoucher 1000 1000 false (Scenario.request 3 "EARLYBIRD" Scenario.r7) w).1
    = Err (InvalidVoucherCode "Voucher code is not valid or has expired")
  ∧ (transaction (voucherService.processClaimImmediate_body 1000
                    (Scenario.request 3 "EARLYBIRD" Scenario.r7)) w).1
    = Ok (Scenario.claimed 9)
  ∧ (transaction (voucherWorker.processJob_body 1000
                    (Scenario.job 3 "EARLYBIRD" Scenario.r7 1000)) w).1
    = Ok (Scenario.claimed 9)
  ∧ (transaction (voucherWorker.processJob_body 1000
                    (Scenario.job 3 "RETIRED" Scenario.r8 1000)) w).1
    = Err (PlainError "Voucher code is not valid")
  ∧ code (PlainError "Voucher code is not valid") ≠ "INVALID_VOUCHER".
Proof. vm_compute. repeat split; done. Qed.

(** ** Uniqueness of the successful claim of a (user, code) pair *)

(** X28: step 5 on the fast path: a prior [success] row of the pair makes
    the transaction fail with [INVALID_VOUCHER] and leaves the world as it
    was. *)
Lemma processClaimImmediate_rejects_repeated_claim (now : Z)
    (request : ClaimVoucherRequest.t) (w : World)
    (user : Users.row) (rest : list Users.row)
    (voucher : VoucherCodes.row) (rest' : list VoucherCodes.row) :
  select_active_user (ClaimVoucherRequest.userId request) (db w) = user :: rest →
  Users.vouchers_claimed user < Users.voucher_limit user →
  select_voucher_code (ClaimVoucherRequest.voucherCode request) (db w) = voucher :: rest' →
  passes_step4 now voucher →
  (0 < success_count (ClaimVoucherRequest.userId request)
         (ClaimVoucherRequest.voucherCode request) (db w))%nat →
  transaction (voucherService.processClaimImmediate_body now request) w
  = (Err (InvalidVoucherCode "You have already claimed this voucher"), w).
Proof.
  intros Hsel Hlim Hv Hpass Hprior. apply step4_bool in Hpass.
  apply orb_false_elim in Hpass as [Hpass Hcount].
  apply orb_false_elim in Hpass as [Hact Hexp].
  apply transaction_err_unchanged.
  unfold voucherService.processClaimImmediate_body. cbv zeta.
  rewrite bind_query, Hsel.
  replace (Users.vouchers_claimed user >=? Users.voucher_limit user) with false
    by (symmetry; rewrite Z.geb_leb; apply Z.leb_gt; lia).
  rewrite bind_query, Hv, Hact, Hexp, Hcount, bind_query.
  unfold success_count in Hprior. apply Nat.ltb_lt in Hprior. by rewrite Hprior.
Qed.

(** The transaction of the worker throws plain errors only, and the store
    its own. *)
Lemma processJob_body_errors (now : Z) (job : QueueJob.t) (w w' : World) (e : error) :
  voucherWorker.processJob_body now job w = (Err e, w') →
  (∃ m, e = PlainError m) ∨ store_error e.
Proof.
  unfold voucherWorker.processJob_body. cbv zeta. rewrite bind_query.
  destruct (select_active_user _ _) as [|user rest]; [intros [= <- _]; eauto|].
  destruct (_ >=? _); [done|]. rewrite bind_query.
  destruct (select_voucher_code _ _) as [|voucher rest']; [intros [= <- _]; eauto|].
  destruct (_ || _); [intros [= <- _]; eauto|].
  intros H. right.
  apply bind_inv in H as [(e' & H & [= ->])|(? & w1 & _ & H)];
    [by eapply update_user_claimed_incr_error, exec_err_inv|].
  apply bind_inv in H as [(e' & H & [= ->])|(? & w2 & _ & H)];
    [by eapply update_voucher_usage_error, exec_err_inv|].
  apply bind_inv in H as [(e' & H & [= ->])|(? & w3 & _ & H)];
    [by eapply insert_claim_error, stmt_err_inv|].
  apply cache_update_no_error in H as [w4 H]. done.
Qed.

(** X29: the worker never fails with [INVALID_VOUCHER], whatever the job
    and the world: an error of [processJob] is one of the plain errors its
    transaction throws or an error of the store (a violated constraint, or
    a text of the job that the type of its column refuses). *)
Lemma processJob_never_invalid_voucher (now : Z) (job : QueueJob.t) (w w' : World)
    (e : error) :
  voucherWorker.processJob now job w = (Err e, w') → code e ≠ "INVALID_VOUCHER".
Proof.
  unfold voucherWorker.processJob. intros H.
  apply bind_inv in H as [(e' & H & [= ->])|(r & w1 & _ & H)]; [|done].
  apply transaction_err_inv in H as [w'' H].
  by apply processJob_body_errors in H as [[m ->]|[c ->]].
Qed.

Lemma exec_ok_inv (s : DB → result DB) (w w1 : World) (u : unit) :
  exec s w = (Ok u, w1) → ∃ d, s (db w) = Ok d ∧ w1 = set_db d w.
Proof. unfold exec. destruct (s (db w)) as [d|e]; intros [= _ <-]; eauto. Qed.

Lemma stmt_ok_inv {A : Type} (s : DB → result A * DB) (w w1 : World) (a : A) :
  stmt s w = (Ok a, w1) → ∃ d, s (db w) = (Ok a, d) ∧ w1 = set_db d w.
Proof. unfold stmt. destruct (s (db w)) as [r d]. intros [= -> <-]. eauto. Qed.

Lemma cache_update_keeps_db (now userId count : Z) (r r' : ClaimVoucherResponse.t)
    (w w' : World) :
  bind (cacheService.invalidateUserCache now userId)
    (λ _, bind (cacheService.setUserVoucherCount now userId count) (λ _, ret r)) w
  = (Ok r', w') →
  db w' = db w.
Proof. unfold bind. simpl. by intros [= _ <-]. Qed.

(** An insert that the store accepts is the insert of the row of the
    values read from the texts. *)
Lemma insert_claim_ok (ipAddress : string) (deviceId : option string)
    (requestId : string)
    (mkrow : inet → option string → uuid → Z → VoucherClaims.row) (d d' : DB)
    (NEW : VoucherClaims.row) :
  insert_claim ipAddress deviceId requestId mkrow d = (Ok NEW, d') →
  ∃ ip device request,
    inet_in ipAddress = Some ip ∧ uuid_in requestId = Some request
    ∧ insert_row (mkrow ip device request) d = (Ok NEW, d').
Proof.
  destruct (insert_claim_inv ipAddress deviceId requestId mkrow d)
    as [->|[->|(ip & device & request & Hip & Hrid & ->)]]; [done..|].
  intros H. by exists ip, device, request.
Qed.

Lemma insert_row_ok_claims (mkrow : Z → VoucherClaims.row) (d d' : DB)
    (NEW : VoucherClaims.row) :
  insert_row mkrow d = (Ok NEW, d') →
  voucher_claims d' = voucher_claims d ++ [mkrow (voucher_claims_id_seq d + 1)].
Proof.
  unfold insert_row. destruct (VoucherClaims.check _); [|done].
  unfold increment_voucher_code_usage.
  destruct (VoucherClaims.status _);
    try (intros [= _ <-]; done).
  destruct (VoucherClaims.voucher_code_id _); [|intros [= _ <-]; done].
  unfold update_voucher_usage. destruct (update_where _ _ _ _); [|done].
  intros [= _ <-]. done.
Qed.

(** X26: every job the worker commits adds a [success] row for its
    (user, code) pair, whatever rows the pair already has. *)
Lemma committed_job_adds_success_row (now : Z) (job : QueueJob.t) (w w' : World)
    (r : ClaimVoucherResponse.t) :
  transaction (voucherWorker.processJob_body now job) w = (Ok r, w') →
  ClaimVoucherResponse.status r = Some ClaimStatus.success →
  success_count (QueueJob.userId job) (QueueJob.voucherCode job) (db w')
  = S (success_count (QueueJob.userId job) (QueueJob.voucherCode job) (db w)).
Proof.
  unfold transaction.
  destruct (voucherWorker.processJob_body now job w) as [[r0|e] w0] eqn:H;
    intros [= <- <-] Hst.
  unfold voucherWorker.processJob_body in H. cbv zeta in H.
  rewrite bind_query in H.
  destruct (select_active_user _ _) as [|user urest]; [done|].
  destruct (_ >=? _); [by injection H as <- _|]. rewrite bind_query in H.
  destruct (select_voucher_code _ _) as [|voucher rest]; [done|].
  destruct (_ || _); [done|].
  apply bind_ok_inv in H as (? & w1 & (d1 & Hd1 & ->)%exec_ok_inv & H).
  apply bind_ok_inv in H as (? & w2 & (d2 & Hd2 & ->)%exec_ok_inv & H).
  apply bind_ok_inv in H as (NEW & w3 & (d3 & Hd3 & ->)%stmt_ok_inv & H).
  apply cache_update_keeps_db in H. rewrite H. simpl in *.
  apply insert_claim_ok in Hd3 as (ip & device & request_id & _ & _ & Hd3).
  apply insert_row_ok_claims in Hd3.
  unfold update_user_claimed_incr in Hd1.
  destruct (update_where _ _ _ (users (db w))) as [us|]; [|done].
  injection Hd1 as <-.
  unfold update_voucher_usage in Hd2. simpl in Hd2.
  destruct (update_where _ _ _ (voucher_codes (db w))) as [vs|]; [|done].
  injection Hd2 as <-. simpl in Hd3.
  unfold success_count, select_success_claims. rewrite Hd3.
  rewrite filter_app, length_app, filter_cons_True by done.
  rewrite filter_nil. simpl. lia.
Qed.

(** C1, evaluated on the code: user 4 holds a [success] claim of SUMMER2024
    made through the queue and asks for the same code again under a new
    request id.  The coordinator enqueues the job, the worker commits it,
    and the pair has two [success] rows.  The fast path, in the same
    situation for the premium user 3, fails with [INVALID_VOUCHER]. *)
Theorem C1_worker_commits_second_success_row :
  let w := Scenario.asked_again in
  let done := voucherWorker.processJob 2500
                (Scenario.job 4 "SUMMER2024" Scenario.q1 2000) w in
  success_count 4 "SUMMER2024" (db w) = 1%nat
  ∧ queue w = [Scenario.job 4 "SUMMER2024" Scenario.q0 1000;
               Scenario.job 4 "SUMMER2024" Scenario.q1 2000]
  ∧ done.1 = Ok (Scenario.claimed 8)
  ∧ success_count 4 "SUMMER2024" (db done.2) = 2%nat
  ∧ claimed_of 4 (db done.2) = [2]
  ∧ (voucherService.claimVoucher 2000 2000 false (Scenario.request 3 "SUMMER2024" Scenario.r2)
       Scenario.happy_path).1
    = Err (InvalidVoucherCode "You have already claimed this voucher").
Proof. vm_compute. repeat split; done. Qed.

(** ** The counters of a committed claim *)

Lemma update_where_Some {R : Type} (p : R → bool) (f : R → R) (check : R → bool)
    (rows rows' : list R) :
  update_where p f check rows = Some rows' →
  rows' = map (λ r, if p r then f r else r) rows.
Proof. unfold update_where. destruct (forallb _ _); by intros [= <-]. Qed.

(** The voucher rows after an insert into [voucher_claims] that the store
    accepts, for a [success] row linked to the code [vid]: the trigger has
    run the usage update. *)
Lemma insert_row_ok_voucher_codes (mkrow : Z → VoucherClaims.row) (d d' : DB)
    (NEW : VoucherClaims.row) (vid : Z) :
  (∀ i, VoucherClaims.status (mkrow i) = success) →
  (∀ i, VoucherClaims.voucher_code_id (mkrow i) = Some vid) →
  insert_row mkrow d = (Ok NEW, d') →
  ∃ d1, update_voucher_usage vid
          (set_voucher_claims
             (voucher_claims d ++ [mkrow (voucher_claims_id_seq d + 1)])
             (set_voucher_claims_id_seq (voucher_claims_id_seq d + 1) d)) = Ok d1
        ∧ voucher_codes d' = voucher_codes d1.
Proof.
  intros Hst Hvid. unfold insert_row. destruct (VoucherClaims.check _); [|done].
  unfold increment_voucher_code_usage. rewrite Hst, Hvid. simpl.
  destruct (update_voucher_usage _ _) as [d1|e] eqn:Hup; [|done].
  intros [= _ <-]. eauto.
Qed.

(** X25: every claim the fast path commits raises [usage_count] of the
    code by two. *)
Lemma committed_fast_claim_increments_usage_twice (now : Z)
    (request : ClaimVoucherRequest.t) (w w' : World) (r : ClaimVoucherResponse.t) :
  transaction (voucherService.processClaimImmediate_body now request) w = (Ok r, w') →
  ∃ voucher rest,
    select_voucher_code (ClaimVoucherRequest.voucherCode request) (db w) = voucher :: rest
    ∧ VoucherCodes.usage_count <$> voucher_codes (db w')
      = (λ v, if VoucherCodes.id v =? VoucherCodes.id voucher
              then VoucherCodes.usage_count v + 2 else VoucherCodes.usage_count v)
        <$> voucher_codes (db w).
Proof.
  unfold transaction.
  destruct (voucherService.processClaimImmediate_body now request w)
    as [[r0|e] w0] eqn:H; intros [= <- <-].
  unfold voucherService.processClaimImmediate_body in H. cbv zeta in H.
  rewrite bind_query in H.
  destruct (select_active_user _ _) as [|user urest]; [done|].
  destruct (_ >=? _); [done|]. rewrite bind_query in H.
  destruct (select_voucher_code _ _) as [|voucher rest]; [done|].
  destruct (negb _); [done|].
  set (expired := match VoucherCodes.expires_at voucher with
                  | Some t => t <? now | None => false end) in H.
  destruct expired; [done|].
  destruct (_ >=? _); [done|]. rewrite bind_query in H.
  destruct (0 <? _)%nat; [done|].
  apply bind_ok_inv in H as (? & w1 & (d1 & Hd1 & ->)%exec_ok_inv & H).
  apply bind_ok_inv in H as (? & w2 & (d2 & Hd2 & ->)%exec_ok_inv & H).
  apply bind_ok_inv in H as (NEW & w3 & (d3 & Hd3 & ->)%stmt_ok_inv & H).
  apply cache_update_keeps_db in H. rewrite H. simpl in *.
  exists voucher, rest. split; [done|].
  apply insert_claim_ok in Hd3 as (ip & device & request_id & _ & _ & Hd3).
  apply insert_row_ok_voucher_codes with (vid := VoucherCodes.id voucher) in Hd3
    as (d4 & Hd4 & ->); [|done..].
  unfold update_user_claimed_incr in Hd1.
  destruct (update_where _ _ _ (users (db w))) as [us|]; [|done].
  injection Hd1 as <-.
  unfold update_voucher_usage_fast in Hd2. simpl in Hd2.
  destruct (update_where _ _ _ (voucher_codes (db w))) as [vs|] eqn:Hvs; [|done].
  injection Hd2 as <-. apply update_where_Some in Hvs as ->.
  unfold update_voucher_usage in Hd4. simpl in Hd4.
  destruct (update_where _ _ _ _) as [vs'|] eqn:Hvs'; [|done].
  injection Hd4 as <-. apply update_where_Some in Hvs' as ->. simpl.
  rewrite <- !list_fmap_compose. apply list_fmap_ext. intros i v _. simpl.
  destruct (VoucherCodes.id v =? VoucherCodes.id voucher) eqn:Hid; simpl;
    rewrite Hid; simpl; lia.
Qed.

(** C2, evaluated on the code: the happy path.  User 3 claims SUMMER2024
    under the request id [r1]; afterwards [claimed] has gone from 0 to 1,
    one [success] row carries [r1], and [usage_count] has gone from 0 to 2:
    once by the explicit [UPDATE], once by the trigger
    [increment_voucher_usage] on the insert.  For the same reason a code
    with [usage_limit = 1] cannot be claimed at all: the second increment
    breaks [check_usage_count_not_exceed_limit] and the transaction is
    rolled back. *)
Theorem C2_committed_claim_increments_usage_twice :
  let w := Scenario.fresh in
  let done := voucherService.claimVoucher 1000 1000 false
                (Scenario.request 3 "SUMMER2024" Scenario.r1) w in
  let flash := voucherService.claimVoucher 1000 1000 false
                 (Scenario.request 3 "FLASH20" Scenario.r3) w in
  done.1 = Ok (Scenario.claimed 9)
  ∧ claimed_of 3 (db w) = [0] ∧ claimed_of 3 (db done.2) = [1]
  ∧ length (success_rows_of_request Scenario.r1 (db done.2)) = 1%nat
  ∧ usage_count_of "SUMMER2024" (db w) = [0]
  ∧ usage_count_of "SUMMER2024" (db done.2) = [2]
  ∧ flash.1 = Err (StoreError "check_usage_count_not_exceed_limit")
  ∧ usage_count_of "FLASH20" (db flash.2) = [0]
  ∧ claimed_of 3 (db flash.2) = [0].
Proof. vm_compute. repeat split; done. Qed.

(** ** Refunds *)

(** A claim that is already refunded cannot be refunded again: the refund
    fails and the world stays as it was. *)
Lemma refundVoucher_twice_fails (now claimId : Z) (reason : string)
    (adminId : option Z) (w : World)
    (claim : VoucherClaims.row) (rest : list VoucherClaims.row) :
  select_claim claimId (db w) = claim :: rest →
  VoucherClaims.status claim = refunded →
  voucherService.refundVoucher now claimId reason adminId w
  = (Err (PlainError "Claim already refunded"), w).
Proof.
  intros Hsel Hst. apply transaction_err_unchanged.
  unfold voucherService.refundVoucher_body. rewrite bind_query, Hsel, Hst.
  by rewrite bool_decide_eq_true_2.
Qed.

(** The state a committed refund leaves. *)
Lemma committed_refund_state (now claimId : Z) (reason : string)
    (adminId : option Z) (w w' : World) (u : unit) :
  voucherService.refundVoucher now claimId reason adminId w = (Ok u, w') →
  ∃ claim rest,
    select_claim claimId (db w) = claim :: rest
    ∧ VoucherClaims.status claim ≠ refunded
    ∧ VoucherClaims.status <$> voucher_claims (db w')
      = (λ c, if VoucherClaims.id c =? claimId then refunded else VoucherClaims.status c)
        <$> voucher_claims (db w)
    ∧ Users.vouchers_claimed <$> users (db w')
      = (λ r, if Users.id r =? VoucherClaims.user_id claim
              then Z.max 0 (Users.vouchers_claimed r - 1) else Users.vouchers_claimed r)
        <$> users (db w)
    ∧ VoucherCodes.usage_count <$> voucher_codes (db w')
      = (λ v, if bool_decide (VoucherClaims.voucher_code_id claim = Some (VoucherCodes.id v)
                              ∧ VoucherCodes.id v ≠ 0)
              then Z.max 0 (VoucherCodes.usage_count v - 1) else VoucherCodes.usage_count v)
        <$> voucher_codes (db w)
    ∧ ∃ a, voucher_audit_log (db w') = voucher_audit_log (db w) ++ [a]
           ∧ AuditLog.action a = REFUND
           ∧ AuditLog.claim_id a = Some claimId
           ∧ AuditLog.meta a = MetaRefund reason adminId.
Proof.
  unfold voucherService.refundVoucher, transaction.
  destruct (voucherService.refundVoucher_body now claimId reason adminId w)
    as [[u0|e] w0] eqn:H; intros [= <- <-].
  unfold voucherService.refundVoucher_body in H. rewrite bind_query in H.
  destruct (select_claim claimId (db w)) as [|claim rest]; [done|].
  destruct (bool_decide (VoucherClaims.status claim = refunded)) eqn:Hst; [done|].
  apply bool_decide_eq_false in Hst.
  apply bind_ok_inv in H as (? & w1 & (d1 & Hd1 & ->)%exec_ok_inv & H).
  apply bind_ok_inv in H as (? & w2 & (d2 & Hd2 & ->)%exec_ok_inv & H).
  apply bind_ok_inv in H as (? & w3 & Hcode & H).
  apply bind_ok_inv in H as (? & w4 & (d4 & Hd4 & ->)%exec_ok_inv & H).
  assert (Hdb : db w0 = d4).
  { unfold cacheService.invalidateUserCache, bind, kv_read, kv_write in H.
    cbv zeta in H. by injection H as _ <-. }
  rewrite Hdb. injection Hd4 as <-. simpl in *.
  exists claim, rest. split; [done|]. split; [done|].
  unfold update_claim_refunded in Hd1.
  destruct (update_where _ _ _ (voucher_claims (db w))) as [cs|] eqn:Hcs; [|done].
  destruct (refunded_by_fkey adminId claimId (db w)); [|done].
  injection Hd1 as <-. apply update_where_Some in Hcs as ->.
  unfold update_user_claimed_decr in Hd2. simpl in Hd2.
  destruct (update_where _ _ _ (users (db w))) as [us|] eqn:Hus; [|done].
  injection Hd2 as <-. apply update_where_Some in Hus as ->. simpl in *.
  assert (Hw3 : voucher_claims (db w3)
                = map (λ r, if VoucherClaims.id r =? claimId
                            then VoucherClaims.set_refunded now adminId reason r else r)
                    (voucher_claims (db w))
                ∧ users (db w3)
                  = map (λ r, if Users.id r =? VoucherClaims.user_id claim
                              then Users.set_vouchers_claimed
                                     (Z.max 0 (Users.vouchers_claimed r - 1)) r
                              else r) (users (db w))
                ∧ voucher_audit_log (db w3) = voucher_audit_log (db w)
                ∧ VoucherCodes.usage_count <$> voucher_codes (db w3)
                  = (λ v, if bool_decide
                               (VoucherClaims.voucher_code_id claim = Some (VoucherCodes.id v)
                                ∧ VoucherCodes.id v ≠ 0)
                          then Z.max 0 (VoucherCodes.usage_count v - 1)
                          else VoucherCodes.usage_count v)
                    <$> voucher_codes (db w)).
  { destruct (VoucherClaims.voucher_code_id claim) as [vid|] eqn:Hvid.
    - destruct (vid =? 0) eqn:Hz.
      + injection Hcode as _ <-. simpl. repeat split; try done.
        apply list_fmap_ext. intros i v _. simpl.
        rewrite bool_decide_eq_false_2; [done|].
        apply Z.eqb_eq in Hz. intros [[= ->] ?]. done.
      + apply exec_ok_inv in Hcode as (d3 & Hd3 & ->).
        unfold update_voucher_usage_decr in Hd3. simpl in Hd3.
        destruct (update_where _ _ _ (voucher_codes (db w))) as [vs|] eqn:Hvs; [|done].
        injection Hd3 as <-. apply update_where_Some in Hvs as ->. simpl.
        repeat split; try done.
        rewrite <- list_fmap_compose. apply list_fmap_ext. intros i v _. simpl.
        apply Z.eqb_neq in Hz.
        destruct (VoucherCodes.id v =? vid) eqn:Hid.
        * apply Z.eqb_eq in Hid. rewrite bool_decide_eq_true_2; [done|].
          split; congruence.
        * apply Z.eqb_neq in Hid. rewrite bool_decide_eq_false_2; [done|].
          intros [[= ->] ?]. done.
    - injection Hcode as _ <-. simpl. repeat split; done. }
  destruct Hw3 as (Hclaims & Husers & Haudit & Hcodes).
  rewrite Hclaims, Husers, Haudit, Hcodes.
  split; [|split; [|split; [done|]]].
  - rewrite <- list_fmap_compose. apply list_fmap_ext. intros i c _. simpl.
    by destruct (VoucherClaims.id c =? claimId).
  - rewrite <- list_fmap_compose. apply list_fmap_ext. intros i r _. simpl.
    by destruct (Users.id r =? VoucherClaims.user_id claim).
  - eexists. split; [reflexivity|]. done.
Qed.

(** X27: what a committed refund does: the claim is flipped to
    [refunded], the owner's [claimed] and the linked code's [usage_count]
    go down by one, floored at 0, and one REFUND row is appended to the
    audit log. *)
Lemma committed_refund_effects (now claimId : Z) (reason : string)
    (adminId : option Z) (w w' : World) (u : unit) :
  voucherService.refundVoucher now claimId reason adminId w = (Ok u, w') →
  ∃ claim rest,
    select_claim claimId (db w) = claim :: rest
    ∧ VoucherClaims.status claim ≠ refunded
    ∧ VoucherClaims.status <$> voucher_claims (db w')
      = (λ c, if VoucherClaims.id c =? claimId then refunded else VoucherClaims.status c)
        <$> voucher_claims (db w)
    ∧ Users.vouchers_claimed <$> users (db w')
      = (λ r, if Users.id r =? VoucherClaims.user_id claim
              then Z.max 0 (Users.vouchers_claimed r - 1) else Users.vouchers_claimed r)
        <$> users (db w)
    ∧ VoucherCodes.usage_count <$> voucher_codes (db w')
      = (λ v, if bool_decide (VoucherClaims.voucher_code_id claim = Some (VoucherCodes.id v)
                              ∧ VoucherCodes.id v ≠ 0)
              then Z.max 0 (VoucherCodes.usage_count v - 1) else VoucherCodes.usage_count v)
        <$> voucher_codes (db w)
    ∧ ∃ a, voucher_audit_log (db w') = voucher_audit_log (db w) ++ [a]
           ∧ AuditLog.action a = REFUND
           ∧ AuditLog.claim_id a = Some claimId
           ∧ AuditLog.meta a = MetaRefund reason adminId.
Proof. apply committed_refund_state. Qed.

(** C8, evaluated on the code: the refund round trip of the happy path.
    The refund of claim 1 flips it to [refunded], takes [claimed] back to 0
    and appends a REFUND audit row, and a second refund fails and changes
    nothing; but [usage_count], which the claim took from 0 to 2, comes
    back to 1, not to the count before the claim. *)
Theorem C8_refund_round_trip_leaves_usage_count_above :
  let w0 := Scenario.fresh in
  let w1 := Scenario.happy_path in
  let w2 := run [Refund 3000 1 "fraud" (Some 1)] w1 in
  let again := voucherService.refundVoucher 4000 1 "fraud" (Some 1) w2 in
  status_of 1 (db w1) = [success] ∧ status_of 1 (db w2) = [refunded]
  ∧ claimed_of 3 (db w0) = [0] ∧ claimed_of 3 (db w1) = [1]
  ∧ claimed_of 3 (db w2) = [0]
  ∧ audit_count REFUND (db w1) = 0%nat ∧ audit_count REFUND (db w2) = 1%nat
  ∧ again = (Err (PlainError "Claim already refunded"), w2)
  ∧ usage_count_of "SUMMER2024" (db w0) = [0]
  ∧ usage_count_of "SUMMER2024" (db w1) = [2]
  ∧ usage_count_of "SUMMER2024" (db w2) = [1].
Proof. vm_compute. repeat split; done. Qed.

(** ** The idempotency cache *)

Lemma getClaimResult_run (now : Z) (idempotencyKey : string) (w : World) :
  cacheService.getClaimResult now idempotencyKey w
  = (Ok (cached_result now idempotencyKey w), w).
Proof.
  unfold cacheService.getClaimResult, cached_result, bind, kv_read. cbv zeta.
  by destruct (redis.get _ _ _) as [[n|u|r]|].
Qed.

(** A cache hit short-circuits the coordinator: the cached result is the
    reply and the world is untouched. *)
Lemma claimVoucher_cache_hit (now reread : Z) (late : bool)
    (request : ClaimVoucherRequest.t) (w : World)
    (r : ClaimVoucherResponse.t) :
  cached_result now (ClaimVoucherRequest.idempotencyKey request) w = Some r →
  voucherService.claimVoucher now reread late request w = (Ok r, w).
Proof.
  intros Hhit. unfold voucherService.claimVoucher. cbv zeta.
  erewrite bind_ok by apply getClaimResult_run. by rewrite Hhit.
Qed.

(** A result stored by [cacheClaimResult] at [now] is read back until the
    hour is over, in any world that still holds the entry. *)
Lemma cached_result_after_cacheClaimResult (now now' : Z) (idempotencyKey : string)
    (r : ClaimVoucherResponse.t) (w w' w2 : World) (u : unit) :
  cacheService.cacheClaimResult now idempotencyKey r w = (Ok u, w') →
  strings (kv w2) !! (cacheService.CLAIM_RESULT_PREFIX +:+ idempotencyKey)
  = strings (kv w') !! (cacheService.CLAIM_RESULT_PREFIX +:+ idempotencyKey) →
  now' < now + 3600 * 1000 →
  cached_result now' idempotencyKey w2 = Some r.
Proof.
  unfold cacheService.cacheClaimResult, kv_write. cbv zeta. intros [= _ <-] Hsame Hlt.
  unfold cached_result, redis.get. rewrite Hsame. simpl.
  rewrite lookup_insert_eq. simpl. unfold live. simpl.
  destruct (_ <=? now') eqn:Hle; [apply Z.leb_le in Hle; lia|done].
Qed.

(** A fresh request that the coordinator answers with a [success] result
    went down the fast path, and the result was cached on the way out. *)
Lemma claimVoucher_success_is_cached (now reread : Z) (late : bool)
    (request : ClaimVoucherRequest.t)
    (w w1 : World) (r : ClaimVoucherResponse.t) :
  cached_result now (ClaimVoucherRequest.idempotencyKey request) w = None →
  voucherService.claimVoucher now reread late request w = (Ok r, w1) →
  ClaimVoucherResponse.status r = Some ClaimStatus.success →
  ∃ w0, cacheService.cacheClaimResult now
          (ClaimVoucherRequest.idempotencyKey request) r w0 = (Ok tt, w1).
Proof.
  intros Hmiss H Hst. unfold voucherService.claimVoucher in H. cbv zeta in H.
  erewrite bind_ok in H by apply getClaimResult_run. rewrite Hmiss in H.
  apply bind_ok_inv in H as (rateLimit & wa & _ & H).
  destruct (negb _); [done|].
  apply bind_ok_inv in H as (ipAllowed & wb & _ & H).
  destruct (negb _); [done|].
  apply bind_ok_inv in H as (cachedCount & wc & _ & H).
  apply bind_ok_inv in H as (? & wd & _ & H).
  destruct (negb _); [done|].
  apply bind_ok_inv in H as (voucherCode & we & _ & H).
  destruct voucherCode as [vc|]; [|done].
  destruct (negb _); [done|].
  apply bind_ok_inv in H as (user & wf & _ & H).
  destruct (User.isPremium user).
  - apply bind_ok_inv in H as (result & wg & _ & H).
    apply bind_ok_inv in H as ([] & wh & Hcache & H).
    inversion H; subst. eauto.
  - apply bind_ok_inv in H as (jobId & wg & _ & H).
    inversion H; subst. done.
Qed.

(** ** The life of a cache entry *)

Section KeepsEntry.
Context (key : string).

Lemma keeps_ret {A : Type} (a : A) : keeps_entry key (ret a).
Proof. intros w r w' H. by inversion H. Qed.

Lemma keeps_throw {A : Type} (e : error) : keeps_entry key (@throw A e).
Proof. intros w r w' H. by inversion H. Qed.

Lemma keeps_bind {A B : Type} (m : M A) (k : A → M B) :
  keeps_entry key m → (∀ a, keeps_entry key (k a)) → keeps_entry key (bind m k).
Proof.
  intros Hm Hk w r w' H.
  destruct (bind_inv _ _ _ _ _ H) as [(e & Hmw & _)|(a & w1 & Hmw & Hkw)].
  - by eapply Hm.
  - etrans; [by eapply Hk|by eapply Hm].
Qed.

Lemma keeps_query {A : Type} (q : DB → A) : keeps_entry key (query q).
Proof. intros w r w' H. by inversion H. Qed.

Lemma keeps_exec (s : DB → result DB) : keeps_entry key (exec s).
Proof.
  intros w r w' H. unfold exec in H. destruct (s (db w)); by inversion H.
Qed.

Lemma keeps_stmt {A : Type} (s : DB → result A * DB) : keeps_entry key (stmt s).
Proof.
  intros w r w' H. unfold stmt in H. destruct (s (db w)). by inversion H.
Qed.

Lemma keeps_kv_read {A : Type} (f : Redis → A) : keeps_entry key (kv_read f).
Proof. intros w r w' H. by inversion H. Qed.

Lemma keeps_kv_write (f : Redis → Redis) :
  (∀ r, strings (f r) !! key = strings r !! key) → keeps_entry key (kv_write f).
Proof. intros Hf w r w' H. inversion H; subst. apply Hf. Qed.

Lemma keeps_transaction {A : Type} (body : M A) :
  keeps_entry key body → keeps_entry key (transaction body).
Proof.
  intros Hb w r w' H. unfold transaction in H.
  destruct (body w) as [[a|e] w1] eqn:Hbw; inversion H; subst; simpl; by eapply Hb.
Qed.

Lemma keeps_execute {A : Type} (now : Z) (body : M A) :
  keeps_entry key body →
  keeps_entry key (λ w, let '(r, cb, w') :=
                          CircuitBreaker.execute now body (dbCircuitBreaker w) w in
                        (r, set_dbCircuitBreaker cb w')).
Proof.
  intros Hb w r w' H. unfold CircuitBreaker.execute in H.
  destruct (CircuitBreaker.is_open (dbCircuitBreaker w)
            && (now <? CircuitBreaker.nextAttempt (dbCircuitBreaker w))).
  - by inversion H.
  - destruct (body w) as [[a|e] w1] eqn:Hbw; inversion H; subst; simpl;
      by eapply Hb.
Qed.

Lemma keeps_addClaimJob (data : QueueJob.t) :
  keeps_entry key (queueService.addClaimJob data).
Proof.
  intros w r w' H. unfold queueService.addClaimJob in H. by inversion H.
Qed.

Lemma keeps_raced {A : Type} (late : bool) (body : M A) :
  keeps_entry key body → keeps_entry key (voucherService.raced late body).
Proof.
  intros Hb w r w' H. unfold voucherService.raced in H.
  destruct (body w) as [r0 w1] eqn:Hbw.
  destruct late; inversion H; subst; by eapply Hb.
Qed.

(** The Redis commands change the string entry of their own key only. *)
Lemma set_other (now : Z) (k : string) (v : payload) (ttl : option Z) (r : Redis) :
  k ≠ key → strings (redis.set now k v ttl r) !! key = strings r !! key.
Proof.
  intros Hk. unfold redis.set.
  destruct ttl as [s|]; [destruct (s =? 0)|]; simpl; by rewrite lookup_insert_ne.
Qed.

Lemma del_other (k : string) (r : Redis) :
  k ≠ key → strings (redis.del k r) !! key = strings r !! key.
Proof. intros Hk. simpl. by rewrite lookup_delete_ne. Qed.

Lemma foldr_del_other (keys : list string) (r : Redis) :
  key ∉ keys → strings (foldr redis.del r keys) !! key = strings r !! key.
Proof.
  induction keys as [|k keys IH]; intros Hnot; simpl; [done|].
  apply not_elem_of_cons in Hnot as [Hne Hnot].
  rewrite lookup_delete_ne by done. by apply IH.
Qed.

Lemma expire_other (now : Z) (k : string) (seconds : Z) (r : Redis) :
  k ≠ key → strings (redis.expire now k seconds r) !! key = strings r !! key.
Proof.
  intros Hk. unfold redis.expire. destruct (seconds <=? 0); [by apply del_other|].
  simpl. destruct (strings r !! k ≫= live_entry now) as [[v e]|]; [|done].
  by rewrite lookup_insert_ne.
Qed.

Lemma zput_strings (now : Z) (k : string) (z : zset) (r : Redis) :
  strings (redis.zput now k z r) = strings r.
Proof. unfold redis.zput. by destruct z. Qed.

Lemma incr_other (now : Z) (k : string) (r : Redis) :
  k ≠ key → strings (redis.incr now k r).2 !! key = strings r !! key.
Proof.
  intros Hk. unfold redis.incr.
  destruct (strings r !! k ≫= live_entry now) as [[[n|u|res] e]|]; simpl;
    try done; by rewrite lookup_insert_ne.
Qed.

Lemma scan_prefix_elem (now : Z) (prefix k : string) (r : Redis) :
  k ∈ redis.scan_prefix now prefix r → String.prefix prefix k = true.
Proof. unfold redis.scan_prefix. by intros [? _]%list_elem_of_filter. Qed.

End KeepsEntry.

Lemma keeps_incr (key : string) (now : Z) (k : string) :
  k ≠ key →
  keeps_entry key (λ w, let '(c, r) := redis.incr now k (kv w) in (c, set_kv r w)).
Proof.
  intros Hk w r w' H. pose proof (incr_other key now k (kv w) Hk) as Hi.
  destruct (redis.incr now k (kv w)). by inversion H; subst.
Qed.

Section KeepsClaimResult.
Context (k : string) (now : Z).
Let key := cacheService.CLAIM_RESULT_PREFIX +:+ k.

Lemma keeps_getClaimResult k' : keeps_entry key (cacheService.getClaimResult now k').
Proof.
  unfold cacheService.getClaimResult. cbv zeta.
  apply keeps_bind; [apply keeps_kv_read|].
  intros [[n|u|r]|]; apply keeps_ret.
Qed.

Lemma keeps_getUserVoucherCount u :
  keeps_entry key (cacheService.getUserVoucherCount now u).
Proof.
  unfold cacheService.getUserVoucherCount. cbv zeta.
  apply keeps_bind; [apply keeps_kv_read|].
  intros [[n|u'|r]|]; apply keeps_ret.
Qed.

Lemma keeps_cache_getUser u : keeps_entry key (cacheService.getUser now u).
Proof.
  unfold cacheService.getUser. cbv zeta.
  apply keeps_bind; [apply keeps_kv_read|].
  intros [[n|u'|r]|]; apply keeps_ret.
Qed.

Lemma keeps_cacheClaimResult k' r :
  k' ≠ k → keeps_entry key (cacheService.cacheClaimResult now k' r).
Proof.
  intros Hk. unfold cacheService.cacheClaimResult. cbv zeta.
  apply keeps_kv_write. intros r0. apply set_other.
  unfold key, cacheService.CLAIM_RESULT_PREFIX. simpl. intros [= ?]. done.
Qed.

Lemma keeps_setUserVoucherCount u c :
  keeps_entry key (cacheService.setUserVoucherCount now u c).
Proof.
  unfold cacheService.setUserVoucherCount. cbv zeta.
  apply keeps_kv_write. intros r0. apply set_other. done.
Qed.

Lemma keeps_cache_setUser u : keeps_entry key (cacheService.setUser now u).
Proof.
  unfold cacheService.setUser. cbv zeta.
  apply keeps_kv_write. intros r0. apply set_other. done.
Qed.

Lemma keeps_invalidateUserCache u :
  keeps_entry key (cacheService.invalidateUserCache now u).
Proof.
  intros w r w' H.
  unfold cacheService.invalidateUserCache, bind, kv_read, kv_write in H.
  cbv zeta in H. inversion H; subst. simpl.
  apply foldr_del_other. intros Hin%scan_prefix_elem. done.
Qed.

Lemma keeps_checkRateLimit u m s :
  keeps_entry key (rateLimitService.checkRateLimit now u m s).
Proof.
  unfold rateLimitService.checkRateLimit. cbv zeta.
  apply keeps_bind;
    [apply keeps_kv_write; intros r0; unfold redis.zremrangebyscore;
     by rewrite zput_strings|intros _].
  apply keeps_bind; [apply keeps_kv_read|intros n].
  apply keeps_bind;
    [apply keeps_kv_write; intros r0; unfold redis.zadd; by rewrite zput_strings
    |intros _].
  apply keeps_bind;
    [apply keeps_kv_write; intros r0; by apply expire_other|intros _].
  destruct (n >=? m); [|apply keeps_ret].
  apply keeps_bind; [apply keeps_kv_read|intros o; apply keeps_ret].
Qed.

Lemma keeps_checkIPRateLimit ip m s :
  keeps_entry key (rateLimitService.checkIPRateLimit now ip m s).
Proof.
  unfold rateLimitService.checkIPRateLimit. cbv zeta.
  apply keeps_bind; [by apply keeps_incr|intros count].
  apply keeps_bind.
  - destruct (count =? 1); [|apply keeps_ret].
    apply keeps_kv_write. intros r0. by apply expire_other.
  - intros _. destruct (count >? m); apply keeps_ret.
Qed.

Lemma keeps_getUser u : keeps_entry key (voucherService.getUser now u).
Proof.
  unfold voucherService.getUser.
  apply keeps_bind; [apply keeps_cache_getUser|intros [u'|]]; [apply keeps_ret|].
  apply keeps_bind; [apply keeps_query|intros [|row rows]]; [apply keeps_throw|].
  apply keeps_bind; [apply keeps_cache_setUser|intros _; apply keeps_ret].
Qed.

Lemma keeps_getVoucherCode c : keeps_entry key (voucherService.getVoucherCode c).
Proof.
  unfold voucherService.getVoucherCode.
  apply keeps_bind; [apply keeps_query|intros [|row rows]]; apply keeps_ret.
Qed.

End KeepsClaimResult.

Ltac keeps_step :=
  lazymatch goal with
  | |- keeps_entry _ (ret _) => apply keeps_ret
  | |- keeps_entry _ (throw _) => apply keeps_throw
  | |- keeps_entry _ (query _) => apply keeps_query
  | |- keeps_entry _ (exec _) => apply keeps_exec
  | |- keeps_entry _ (stmt _) => apply keeps_stmt
  | |- keeps_entry _ (kv_read _) => apply keeps_kv_read
  | |- keeps_entry _ (bind _ _) => apply keeps_bind; [|intros ?]
  | |- keeps_entry _ (queueService.addClaimJob _) => apply keeps_addClaimJob
  | |- keeps_entry _ (cacheService.getClaimResult _ _) => apply keeps_getClaimResult
  | |- keeps_entry _ (cacheService.getUserVoucherCount _ _) =>
      apply keeps_getUserVoucherCount
  | |- keeps_entry _ (cacheService.setUserVoucherCount _ _ _) =>
      apply keeps_setUserVoucherCount
  | |- keeps_entry _ (cacheService.invalidateUserCache _ _) =>
      apply keeps_invalidateUserCache
  | |- keeps_entry _ (cacheService.cacheClaimResult _ _ _) =>
      apply keeps_cacheClaimResult; congruence
  | |- keeps_entry _ (rateLimitService.checkRateLimit _ _ _ _) =>
      apply keeps_checkRateLimit
  | |- keeps_entry _ (rateLimitService.checkIPRateLimit _ _ _ _) =>
      apply keeps_checkIPRateLimit
  | |- keeps_entry _ (voucherService.getUser _ _) => apply keeps_getUser
  | |- keeps_entry _ (voucherService.getVoucherCode _) => apply keeps_getVoucherCode
  | |- keeps_entry _ (match ?x with _ => _ end) => destruct x
  end.

Section KeepsOperations.
Context (k : string).
Let key := cacheService.CLAIM_RESULT_PREFIX +:+ k.

Lemma keeps_processClaimImmediate now late request :
  keeps_entry key (voucherService.processClaimImmediate now late request).
Proof.
  unfold voucherService.processClaimImmediate.
  apply keeps_execute, keeps_raced, keeps_transaction.
  unfold voucherService.processClaimImmediate_body. cbv zeta. repeat keeps_step.
Qed.

Lemma keeps_claimVoucher now reread late request :
  ClaimVoucherRequest.idempotencyKey request ≠ k →
  keeps_entry key (voucherService.claimVoucher now reread late request).
Proof.
  intros Hk. unfold voucherService.claimVoucher. cbv zeta.
  repeat first
    [ lazymatch goal with
      | |- keeps_entry _ (voucherService.processClaimImmediate _ _ _) =>
          apply keeps_processClaimImmediate
      end
    | keeps_step ].
Qed.

Lemma keeps_processJob now job :
  QueueJob.idempotencyKey job ≠ k →
  keeps_entry key (voucherWorker.processJob now job).
Proof.
  intros Hk. unfold voucherWorker.processJob.
  apply keeps_bind.
  - apply keeps_transaction.
    unfold voucherWorker.processJob_body. cbv zeta. repeat keeps_step.
  - intros r. repeat keeps_step.
Qed.

Lemma keeps_refundVoucher now claimId reason adminId :
  keeps_entry key (voucherService.refundVoucher now claimId reason adminId).
Proof.
  apply keeps_transaction.
  unfold voucherService.refundVoucher_body. repeat keeps_step.
Qed.

(** A history of operations under other request ids leaves the cached
    result of the request id [k] as it is. *)
Lemma run_keeps_cached_result (ops : list op) (w : World) :
  Forall (λ o, op_key o ≠ Some k) ops →
  strings (kv (run ops w)) !! key = strings (kv w) !! key.
Proof.
  unfold run. revert w. induction ops as [|o ops IH]; intros w Hops; [done|].
  apply Forall_cons in Hops as [Ho Hops]. simpl. rewrite IH by done.
  destruct o as [now reread late request|now job|now claimId reason adminId]; simpl in *.
  - eapply (keeps_claimVoucher now reread late request); [|apply surjective_pairing].
    intros Heq. apply Ho. by rewrite Heq.
  - eapply (keeps_processJob now job); [|apply surjective_pairing].
    intros Heq. apply Ho. by rewrite Heq.
  - eapply (keeps_refundVoucher now claimId reason adminId).
    apply surjective_pairing.
Qed.

End KeepsOperations.

(** ** Idempotent retries *)

(** C5: a result held by the idempotency cache for the request id is the
    reply of [claimVoucher], and the world (database, Redis with the
    rate-limit records, queue, breaker) is left as it was.  In particular a
    fresh request answered with a [success] result is answered with the
    same result when it is repeated under the same request id within the
    hour, also after any history of operations under other request ids, and
    the repetition changes nothing. *)
Theorem C5_cached_result_is_returned_unchanged :
  (∀ now reread late request w r,
     cached_result now (ClaimVoucherRequest.idempotencyKey request) w = Some r →
     voucherService.claimVoucher now reread late request w = (Ok r, w))
  ∧ (∀ now now' reread reread' late late' request request' w w1 r ops,
       cached_result now (ClaimVoucherRequest.idempotencyKey request) w = None →
       voucherService.claimVoucher now reread late request w = (Ok r, w1) →
       ClaimVoucherResponse.status r = Some ClaimStatus.success →
       ClaimVoucherRequest.idempotencyKey request'
       = ClaimVoucherRequest.idempotencyKey request →
       Forall (λ o, op_key o ≠ Some (ClaimVoucherRequest.idempotencyKey request)) ops →
       now' < now + 3600 * 1000 →
       voucherService.claimVoucher now' reread' late' request' (run ops w1) = (Ok r, run ops w1)).
Proof.
  split; [apply claimVoucher_cache_hit|].
  intros now now' reread reread' late late' request request' w w1 r ops
    Hmiss Hclaim Hst Hkey Hops Hlt.
  destruct (claimVoucher_success_is_cached _ _ _ _ _ _ _ Hmiss Hclaim Hst) as [w0 Hcache].
  apply claimVoucher_cache_hit. rewrite Hkey.
  eapply cached_result_after_cacheClaimResult; [exact Hcache| |done].
  by apply run_keeps_cached_result.
Qed.

Lemma C5_cached_result_is_returned_unchanged_witness :
  let w1 := Scenario.happy_path in
  voucherService.claimVoucher 2000 2000 false (Scenario.request 3 "SUMMER2024" Scenario.r1) w1
  = (Ok (Scenario.claimed 9), w1)
  ∧ claimed_of 3 (db w1) = [1]
  ∧ length (voucher_claims (db w1)) = 1%nat.
Proof.
  split; [|by vm_compute].
  apply (proj2 C5_cached_result_is_returned_unchanged 1000 2000 1000 2000 false false
           (Scenario.request 3 "SUMMER2024" Scenario.r1)
           (Scenario.request 3 "SUMMER2024" Scenario.r1)
           Scenario.fresh Scenario.happy_path (Scenario.claimed 9) []);
    [reflexivity | by vm_compute | reflexivity | reflexivity | constructor | lia].
Defined.

(** ** The worker at the limit *)

(** C10: when the worker finds the locked user at [claimed ≥ limit], the
    transaction returns the [limit_reached] result instead of throwing, so
    [processJob] returns normally (the job completes), the database is left
    as it was, and the result is cached under the idempotency key.  From
    then on, in every world that still holds that cache entry (whatever has
    become of the database, so also when the user is no longer at the
    limit), a request with the same request id made before the hour is over
    is answered [limit_reached] from the cache, and nothing is changed.  The
    worlds reached by any history of claim requests, jobs and refunds under
    other request ids still hold the entry. *)
Theorem C10_limit_reached_result_is_cached (now : Z) (job : QueueJob.t) (w : World)
    (user : Users.row) (rest : list Users.row) :
  select_active_user (QueueJob.userId job) (db w) = user :: rest →
  Users.voucher_limit user ≤ Users.vouchers_claimed user →
  ∃ w',
    voucherWorker.processJob now job w = (Ok limit_reached_result, w')
    ∧ db w' = db w
    ∧ (∀ now2 reread late request w2,
         ClaimVoucherRequest.idempotencyKey request = QueueJob.idempotencyKey job →
         now2 < now + 3600 * 1000 →
         strings (kv w2) !! (cacheService.CLAIM_RESULT_PREFIX +:+ QueueJob.idempotencyKey job)
         = strings (kv w') !! (cacheService.CLAIM_RESULT_PREFIX +:+ QueueJob.idempotencyKey job) →
         voucherService.claimVoucher now2 reread late request w2 = (Ok limit_reached_result, w2))
    ∧ (∀ now2 reread late request ops,
         ClaimVoucherRequest.idempotencyKey request = QueueJob.idempotencyKey job →
         now2 < now + 3600 * 1000 →
         Forall (λ o, op_key o ≠ Some (QueueJob.idempotencyKey job)) ops →
         voucherService.claimVoucher now2 reread late request (run ops w')
         = (Ok limit_reached_result, run ops w')).
Proof.
  intros Hsel Hlim.
  pose proof (processJob_body_at_limit now job w user rest Hsel Hlim) as Hbody.
  apply transaction_ok in Hbody.
  destruct (cacheService.cacheClaimResult now (QueueJob.idempotencyKey job)
              limit_reached_result w) as [u w'] eqn:Hcache.
  assert (Hu : u = Ok tt ∧ db w' = db w).
  { unfold cacheService.cacheClaimResult, kv_write in Hcache. cbv zeta in Hcache.
    by inversion Hcache. }
  destruct Hu as [-> Hdb].
  assert (Hhit : ∀ now2 reread late request w2,
    ClaimVoucherRequest.idempotencyKey request = QueueJob.idempotencyKey job →
    now2 < now + 3600 * 1000 →
    strings (kv w2) !! (cacheService.CLAIM_RESULT_PREFIX +:+ QueueJob.idempotencyKey job)
    = strings (kv w') !! (cacheService.CLAIM_RESULT_PREFIX +:+ QueueJob.idempotencyKey job) →
    voucherService.claimVoucher now2 reread late request w2 = (Ok limit_reached_result, w2)).
  { intros now2 reread late request w2 Hkey Hlt Hsame.
    apply claimVoucher_cache_hit. rewrite Hkey.
    by eapply cached_result_after_cacheClaimResult. }
  exists w'. split; [|split; [done|split; [exact Hhit|]]].
  - unfold voucherWorker.processJob.
    rewrite (bind_ok _ _ _ _ _ Hbody). by rewrite (bind_ok _ _ _ _ _ Hcache).
  - intros now2 reread late request ops Hkey Hlt Hops. apply Hhit; [done..|].
    by apply run_keeps_cached_result.
Qed.

Lemma C10_limit_reached_result_is_cached_witness :
  let w' := (voucherWorker.processJob 1000
               (Scenario.job 5 "SUMMER2024" Scenario.q5 900) Scenario.fresh).2 in
  let later := run [Refund 1500 1 "goodwill" (Some 1);
                    Claim 2000 2000 false (Scenario.request 3 "SUMMER2024" Scenario.r1)] w' in
  voucherWorker.processJob 1000 (Scenario.job 5 "SUMMER2024" Scenario.q5 900) Scenario.fresh
  = (Ok limit_reached_result, w')
  ∧ db w' = db Scenario.fresh
  ∧ voucherService.claimVoucher 3000 3000 false
      (Scenario.request 5 "SUMMER2024" Scenario.q5) later
    = (Ok limit_reached_result, later).
Proof.
  destruct (C10_limit_reached_result_is_cached 1000
              (Scenario.job 5 "SUMMER2024" Scenario.q5 900) Scenario.fresh Scenario.user5 []
              eq_refl ltac:(simpl; lia))
    as (w' & Hjob & Hdb & _ & Hlater).
  cbv zeta. rewrite Hjob. cbn [snd]. split; [done|]. split; [done|].
  apply Hlater; [reflexivity | lia |].
  repeat constructor; vm_compute; congruence.
Defined.

(** * Further properties *)

(** ** Frames: what the operations leave alone *)

Section Frames.
Context (R : relation World) `{!Frame R}.

Lemma frames_ret {A : Type} (a : A) : frames R (ret a).
Proof. intros w r w' [= _ <-]. reflexivity. Qed.

Lemma frames_throw {A : Type} (e : error) : frames R (@throw A e).
Proof. intros w r w' [= _ <-]. reflexivity. Qed.

Lemma frames_bind {A B : Type} (m : M A) (k : A → M B) :
  frames R m → (∀ a, frames R (k a)) → frames R (bind m k).
Proof.
  intros Hm Hk w r w' H.
  destruct (bind_inv _ _ _ _ _ H) as [(e & Hmw & _)|(a & w1 & Hmw & Hkw)].
  - by eapply Hm.
  - etrans; [by eapply Hm|by eapply Hk].
Qed.

Lemma frames_query {A : Type} (q : DB → A) : frames R (query q).
Proof. intros w r w' [= _ <-]. reflexivity. Qed.

Lemma frames_kv_read {A : Type} (f : Redis → A) : frames R (kv_read f).
Proof. intros w r w' [= _ <-]. reflexivity. Qed.

Lemma frames_kv_write (f : Redis → Redis) : frames R (kv_write f).
Proof. intros w r w' [= _ <-]. apply frame_kv. Qed.

Lemma frames_incr (now : Z) (key : string) :
  frames R (λ w, let '(c, r) := redis.incr now key (kv w) in (c, set_kv r w)).
Proof.
  intros w r w' H. destruct (redis.incr now key (kv w)).
  injection H as _ <-. apply frame_kv.
Qed.

Context `{!FrameStore R}.

Lemma frames_exec (s : DB → result DB) : frames R (exec s).
Proof.
  intros w r w' H. unfold exec in H.
  destruct (s (db w)); injection H as _ <-; [apply frame_db|reflexivity].
Qed.

Lemma frames_stmt {A : Type} (s : DB → result A * DB) : frames R (stmt s).
Proof.
  intros w r w' H. unfold stmt in H. destruct (s (db w)).
  injection H as _ <-. apply frame_db.
Qed.

Lemma frames_transaction {A : Type} (body : M A) :
  frames R body → frames R (transaction body).
Proof.
  intros Hb w r w' H. unfold transaction in H.
  destruct (body w) as [[a|e] w1] eqn:Hbw; injection H as _ <-.
  - by eapply Hb.
  - etrans; [by eapply Hb|apply frame_db].
Qed.

Lemma frames_execute {A : Type} (now : Z) (body : M A) :
  frames R body →
  frames R (λ w, let '(r, cb, w') :=
                   CircuitBreaker.execute now body (dbCircuitBreaker w) w in
                 (r, set_dbCircuitBreaker cb w')).
Proof.
  intros Hb w r w' H. unfold CircuitBreaker.execute in H.
  destruct (CircuitBreaker.is_open (dbCircuitBreaker w)
            && (now <? CircuitBreaker.nextAttempt (dbCircuitBreaker w))).
  - injection H as _ <-. apply frame_breaker.
  - destruct (body w) as [[a|e] w1] eqn:Hbw; injection H as _ <-;
      (etrans; [by eapply Hb|apply frame_breaker]).
Qed.

Lemma frames_raced {A : Type} (late : bool) (body : M A) :
  frames R body → frames R (voucherService.raced late body).
Proof.
  intros Hb w r w' H. unfold voucherService.raced in H.
  destruct (body w) as [r0 w1] eqn:Hbw.
  destruct late; injection H as _ <-; by eapply Hb.
Qed.

End Frames.

Ltac frames_step :=
  lazymatch goal with
  | |- frames ?R (ret _) => apply (frames_ret R)
  | |- frames ?R (throw _) => apply (frames_throw R)
  | |- frames ?R (query _) => apply (frames_query R)
  | |- frames ?R (kv_read _) => apply (frames_kv_read R)
  | |- frames ?R (kv_write _) => apply (frames_kv_write R)
  | |- frames ?R (exec _) => apply (frames_exec R)
  | |- frames ?R (stmt _) => apply (frames_stmt R)
  | |- frames ?R (bind _ _) => apply (frames_bind R); [|intros ?]
  | |- frames _ (match ?x with _ => _ end) => destruct x
  end.

(** The cache and the limiters are made of Redis commands only. *)
Ltac frames_kv_only :=
  intros;
  unfold voucherService.getUser, voucherService.getVoucherCode,
    cacheService.getClaimResult, cacheService.cacheClaimResult,
    cacheService.getUserVoucherCount, cacheService.setUserVoucherCount,
    cacheService.invalidateUserCache, cacheService.getUser,
    cacheService.setUser, rateLimitService.checkRateLimit,
    rateLimitService.checkIPRateLimit;
  cbv zeta;
  repeat (first [ lazymatch goal with
                  | |- frames ?R (λ w, let '(c, r) := redis.incr _ _ (kv w) in _) =>
                      apply (frames_incr R)
                  end
                | frames_step ]).

Section FramesServices.
Context (R : relation World) `{!Frame R} (now : Z).

Lemma frames_getClaimResult k : frames R (cacheService.getClaimResult now k).
Proof. frames_kv_only. Qed.

Lemma frames_cacheClaimResult k r : frames R (cacheService.cacheClaimResult now k r).
Proof. frames_kv_only. Qed.

Lemma frames_getUserVoucherCount u : frames R (cacheService.getUserVoucherCount now u).
Proof. frames_kv_only. Qed.

Lemma frames_setUserVoucherCount u c :
  frames R (cacheService.setUserVoucherCount now u c).
Proof. frames_kv_only. Qed.

Lemma frames_invalidateUserCache u : frames R (cacheService.invalidateUserCache now u).
Proof. frames_kv_only. Qed.

Lemma frames_checkRateLimit u m s : frames R (rateLimitService.checkRateLimit now u m s).
Proof. frames_kv_only. Qed.

Lemma frames_checkIPRateLimit ip m s :
  frames R (rateLimitService.checkIPRateLimit now ip m s).
Proof. frames_kv_only. Qed.

Lemma frames_getUser u : frames R (voucherService.getUser now u).
Proof. frames_kv_only. Qed.

Lemma frames_getVoucherCode c : frames R (voucherService.getVoucherCode c).
Proof. frames_kv_only. Qed.

End FramesServices.

Ltac frames_service :=
  lazymatch goal with
  | |- frames ?R (cacheService.getClaimResult _ _) => apply (frames_getClaimResult R)
  | |- frames ?R (cacheService.cacheClaimResult _ _ _) => apply (frames_cacheClaimResult R)
  | |- frames ?R (cacheService.getUserVoucherCount _ _) => apply (frames_getUserVoucherCount R)
  | |- frames ?R (cacheService.setUserVoucherCount _ _ _) => apply (frames_setUserVoucherCount R)
  | |- frames ?R (cacheService.invalidateUserCache _ _) => apply (frames_invalidateUserCache R)
  | |- frames ?R (rateLimitService.checkRateLimit _ _ _ _) => apply (frames_checkRateLimit R)
  | |- frames ?R (rateLimitService.checkIPRateLimit _ _ _ _) => apply (frames_checkIPRateLimit R)
  | |- frames ?R (voucherService.getUser _ _) => apply (frames_getUser R)
  | |- frames ?R (voucherService.getVoucherCode _) => apply (frames_getVoucherCode R)
  | |- _ => frames_step
  end.

Section FramesOperations.
Context (R : relation World) `{!Frame R, !FrameStore R}.

Lemma frames_processClaimImmediate_body now request :
  frames R (voucherService.processClaimImmediate_body now request).
Proof.
  unfold voucherService.processClaimImmediate_body. cbv zeta. repeat frames_service.
Qed.

Lemma frames_processJob_body now job : frames R (voucherWorker.processJob_body now job).
Proof. unfold voucherWorker.processJob_body. cbv zeta. repeat frames_service. Qed.

Lemma frames_refundVoucher_body now claimId reason adminId :
  frames R (voucherService.refundVoucher_body now claimId reason adminId).
Proof. unfold voucherService.refundVoucher_body. repeat frames_service. Qed.

Lemma frames_processClaimImmediate now late request :
  frames R (voucherService.processClaimImmediate now late request).
Proof.
  unfold voucherService.processClaimImmediate.
  apply (frames_execute R), (frames_raced R), (frames_transaction R),
    frames_processClaimImmediate_body.
Qed.

Lemma frames_processJob now job : frames R (voucherWorker.processJob now job).
Proof.
  unfold voucherWorker.processJob.
  apply (frames_bind R); [|intros r; repeat frames_service].
  apply (frames_transaction R), frames_processJob_body.
Qed.

Lemma frames_refundVoucher now claimId reason adminId :
  frames R (voucherService.refundVoucher now claimId reason adminId).
Proof. apply (frames_transaction R), frames_refundVoucher_body. Qed.

Lemma frames_claimVoucher now reread late request :
  (∀ data, frames R (queueService.addClaimJob data)) →
  frames R (voucherService.claimVoucher now reread late request).
Proof.
  intros Hq. unfold voucherService.claimVoucher. cbv zeta.
  repeat first
    [ lazymatch goal with
      | |- frames _ (voucherService.processClaimImmediate _ _ _) =>
          apply frames_processClaimImmediate
      | |- frames _ (queueService.addClaimJob _) => apply Hq
      end
    | frames_service ].
Qed.

End FramesOperations.

Global Instance only_redis_frame : Frame only_redis.
Proof.
  split; [split|].
  - by intros w.
  - intros w1 w2 w3 (? & ? & ?) (? & ? & ?). unfold only_redis. split_and!; congruence.
  - by intros r w.
Qed.

Global Instance same_queue_frame : Frame same_queue.
Proof.
  split; [split|].
  - by intros w.
  - intros w1 w2 w3 ? ?. unfold same_queue in *. congruence.
  - by intros r w.
Qed.

Global Instance same_queue_frame_store : FrameStore same_queue.
Proof. by split. Qed.

(** ** Failed operations *)

Lemma addClaimJob_run (data : QueueJob.t) (w : World) :
  queueService.addClaimJob data w
  = (Ok (QueueJob.idempotencyKey data), set_queue (queue w ++ [data]) w).
Proof. reflexivity. Qed.

Lemma fails_cleanly_frames {A : Type} (m : M A) :
  frames only_redis m → fails_cleanly m.
Proof.
  intros Hm w e w' H _. destruct (Hm _ _ _ H) as (Hdb & Hq & _). by rewrite Hdb.
Qed.

Lemma fails_cleanly_bind {A B : Type} (m : M A) (k : A → M B) :
  frames only_redis m → (∀ a, fails_cleanly (k a)) → fails_cleanly (bind m k).
Proof.
  intros Hm Hk w e w' H He.
  destruct (bind_inv _ _ _ _ _ H) as [(e' & Hmw & [= <-])|(a & w1 & Hmw & Hkw)].
  - by apply (fails_cleanly_frames m Hm w e).
  - destruct (Hm _ _ _ Hmw) as (Hdb & Hq & _).
    destruct (Hk a _ _ _ Hkw He) as [Ht Hq']. by rewrite Ht, Hq', Hdb, Hq.
Qed.

Lemma fails_cleanly_then {A B : Type} (m : M A) (k : A → M B) :
  fails_cleanly m → (∀ a w e w', k a w ≠ (Err e, w')) → fails_cleanly (bind m k).
Proof.
  intros Hm Hk w e w' H He.
  destruct (bind_inv _ _ _ _ _ H) as [(e' & Hmw & [= <-])|(a & w1 & _ & Hkw)].
  - by eapply Hm.
  - by apply Hk in Hkw.
Qed.

Lemma fails_cleanly_transaction {A : Type} (body : M A) :
  frames same_queue body → fails_cleanly (transaction body).
Proof.
  intros Hb w e w' H _. unfold transaction in H.
  destruct (body w) as [[a|e'] w1] eqn:Hbw; [done|]. injection H as _ <-.
  split; [done|]. simpl. by eapply Hb.
Qed.

Lemma cacheClaimResult_then_ret (now : Z) (k : string) (r : ClaimVoucherResponse.t)
    (w : World) (e : error) (w' : World) :
  bind (cacheService.cacheClaimResult now k r) (λ _, ret r) w ≠ (Err e, w').
Proof. done. Qed.

Lemma fails_cleanly_processClaimImmediate now late request :
  fails_cleanly (voucherService.processClaimImmediate now late request).
Proof.
  intros w e w' H He. unfold voucherService.processClaimImmediate in H.
  unfold CircuitBreaker.execute, voucherService.raced in H.
  destruct (CircuitBreaker.is_open (dbCircuitBreaker w)
            && (now <? CircuitBreaker.nextAttempt (dbCircuitBreaker w))).
  - by injection H as _ <-.
  - destruct (transaction _ w) as [[a|e'] w1] eqn:Ht;
      destruct late; injection H as ? <-; subst; try done.
    simpl. eapply fails_cleanly_transaction; [|exact Ht|exact He].
    apply (frames_processClaimImmediate_body same_queue).
Qed.

Lemma fails_cleanly_claimVoucher now reread late request :
  fails_cleanly (voucherService.claimVoucher now reread late request).
Proof.
  unfold voucherService.claimVoucher. cbv zeta.
  repeat lazymatch goal with
    | |- fails_cleanly (bind (voucherService.processClaimImmediate _ _ _) _) =>
        apply fails_cleanly_then;
          [apply fails_cleanly_processClaimImmediate
          |intros; apply cacheClaimResult_then_ret]
    | |- fails_cleanly (bind (queueService.addClaimJob _) _) =>
        let H := fresh in
        intros ? ? ? H; unfold bind in H; rewrite addClaimJob_run in H; done
    | |- fails_cleanly (bind _ _) =>
        apply fails_cleanly_bind; [repeat frames_service|intros ?]
    | |- fails_cleanly (ret _) => apply fails_cleanly_frames, (frames_ret only_redis)
    | |- fails_cleanly (throw _) => apply fails_cleanly_frames, (frames_throw only_redis)
    | |- fails_cleanly (match ?x with _ => _ end) => destruct x
    end.
Qed.

Lemma fails_cleanly_processJob now job :
  fails_cleanly (voucherWorker.processJob now job).
Proof.
  unfold voucherWorker.processJob. apply fails_cleanly_then.
  - apply fails_cleanly_transaction, (frames_processJob_body same_queue).
  - intros. apply cacheClaimResult_then_ret.
Qed.

Lemma fails_cleanly_refundVoucher now claimId reason adminId :
  fails_cleanly (voucherService.refundVoucher now claimId reason adminId).
Proof. apply fails_cleanly_transaction, (frames_refundVoucher_body same_queue). Qed.

(** When the timer of the breaker fires before a transaction that commits
    has settled, the caller is told of a timeout and the breaker counts a
    failure, while the world is the one the committed transaction has
    left. *)
Lemma processClaimImmediate_late_commit now request w r w1 :
  admits now (dbCircuitBreaker w) →
  transaction (voucherService.processClaimImmediate_body now request) w = (Ok r, w1) →
  ∃ cb, voucherService.processClaimImmediate now true request w
        = (Err timed_out, set_dbCircuitBreaker cb w1).
Proof.
  intros Hadm Ht.
  unfold voucherService.processClaimImmediate, CircuitBreaker.execute,
    voucherService.raced.
  unfold admits in Hadm. rewrite Hadm, Ht. by eexists.
Qed.

(** X2: an operation that ends in an error other than the timeout of the
    breaker leaves the four tables and the queue as they were: the
    coordinator changes the tables only inside the transaction, a
    transaction that fails is rolled back as a whole, and a job is handed
    to the queue only as the last step of a request that succeeds.  The
    timeout is different: the breaker does not cancel the transaction it
    has stopped waiting for, so a claim whose transaction commits after
    the timer has fired is answered with the error of the timer and is
    committed all the same. *)
Theorem failed_operation_leaves_tables_and_queue :
  (∀ o w e,
     failure o w = Some e → e ≠ timed_out →
     tables (db (step o w)) = tables (db w) ∧ queue (step o w) = queue w)
  ∧ (∀ now request w r w1,
       admits now (dbCircuitBreaker w) →
       transaction (voucherService.processClaimImmediate_body now request) w = (Ok r, w1) →
       (voucherService.processClaimImmediate now true request w).1 = Err timed_out
       ∧ db (voucherService.processClaimImmediate now true request w).2 = db w1).
Proof.
  split.
  - intros o w e.
    destruct o as [now reread late request|now job|now claimId reason adminId]; simpl.
    + destruct (voucherService.claimVoucher now reread late request w) as [[r|e'] w'] eqn:H;
        [done|]. intros [= ->] He. by eapply fails_cleanly_claimVoucher.
    + destruct (voucherWorker.processJob now job w) as [[r|e'] w'] eqn:H;
        [done|]. intros [= ->] He. by eapply fails_cleanly_processJob.
    + destruct (voucherService.refundVoucher now claimId reason adminId w)
        as [[r|e'] w'] eqn:H; [done|]. intros [= ->] He.
      by eapply fails_cleanly_refundVoucher.
  - intros now request w r w1 Hadm Ht.
    destruct (processClaimImmediate_late_commit now request w r w1 Hadm Ht) as [cb ->].
    done.
Qed.

(** The claim of FLASH20 is rejected by the store after the two updates
    and the insert have run, and nothing of them is left; the claim of
    SUMMER2024 whose transaction outlasts the timer is answered with the
    timeout and committed. *)
Lemma failed_operation_leaves_tables_and_queue_witness :
  let o := Claim 1000 1000 false (Scenario.request 3 "FLASH20" Scenario.r3) in
  let late := voucherService.processClaimImmediate 1000 true
                (Scenario.request 3 "SUMMER2024" Scenario.r1) Scenario.fresh in
  failure o Scenario.fresh = Some (StoreError "check_usage_count_not_exceed_limit")
  ∧ tables (db (step o Scenario.fresh)) = tables (db Scenario.fresh)
  ∧ queue (step o Scenario.fresh) = queue Scenario.fresh
  ∧ late.1 = Err timed_out
  ∧ claimed_of 3 (db late.2) = [1].
Proof.
  cbv zeta. split; [by vm_compute|].
  destruct failed_operation_leaves_tables_and_queue as [Hclean Hlate].
  destruct (Hclean (Claim 1000 1000 false (Scenario.request 3 "FLASH20" Scenario.r3))
              Scenario.fresh (StoreError "check_usage_count_not_exceed_limit"))
    as [Ht Hq]; [by vm_compute|done|].
  split; [exact Ht|]. split; [exact Hq|].
  destruct (Hlate 1000 (Scenario.request 3 "SUMMER2024" Scenario.r1) Scenario.fresh
              (Scenario.claimed 9)
              (transaction (voucherService.processClaimImmediate_body 1000
                              (Scenario.request 3 "SUMMER2024" Scenario.r1))
                 Scenario.fresh).2)
    as [He Hdb]; [reflexivity|by vm_compute|].
  split; [exact He|]. rewrite Hdb. by vm_compute.
Defined.

(** ** The refund and the store *)

Lemma update_where_accepts {R : Type} (p : R → bool) (f : R → R) (check : R → bool)
    (rows : list R) :
  (∀ r, r ∈ rows → p r = true → check (f r) = true) →
  update_where p f check rows = Some (map (λ r, if p r then f r else r) rows).
Proof.
  intros H. unfold update_where.
  replace (forallb _ rows) with true; [done|].
  symmetry. apply forallb_forall. intros r Hr%list_elem_of_In.
  destruct (p r) eqn:Hp; [|done]. simpl. by apply H.
Qed.

Lemma exec_accepts (s : DB → result DB) (w : World) (d : DB) :
  s (db w) = Ok d → exec s w = (Ok tt, set_db d w).
Proof. unfold exec. by intros ->. Qed.

Lemma refunded_by_fkey_holds (adminId : option Z) (claimId : Z) (d : DB) :
  names_a_user adminId d → refunded_by_fkey adminId claimId d = true.
Proof.
  intros H. unfold refunded_by_fkey. destruct adminId as [a|]; [|done].
  apply orb_true_intro. right. apply existsb_exists.
  specialize (H a eq_refl). apply list_elem_of_fmap in H as (u & -> & Hu).
  exists u. split; [by apply list_elem_of_In|apply Z.eqb_refl].
Qed.

Lemma refundVoucher_outcome (now claimId : Z)
    (reason : string) (adminId : option Z) (w : World) :
  Forall (λ u, Users.check u = true) (users (db w)) →
  Forall (λ v, VoucherCodes.check v = true) (voucher_codes (db w)) →
  names_a_user adminId (db w) →
  match select_claim claimId (db w) with
  | [] =>
      voucherService.refundVoucher now claimId reason adminId w
      = (Err (PlainError "Claim not found"), w)
  | claim :: _ =>
      if bool_decide (VoucherClaims.status claim = refunded) then
        voucherService.refundVoucher now claimId reason adminId w
        = (Err (PlainError "Claim already refunded"), w)
      else
        ∃ w', voucherService.refundVoucher now claimId reason adminId w = (Ok tt, w')
  end.
Proof.
  intros Hu Hv Hfk%(refunded_by_fkey_holds _ claimId).
  rewrite Forall_forall in Hu. rewrite Forall_forall in Hv.
  unfold voucherService.refundVoucher.
  destruct (select_claim claimId (db w)) as [|claim rest] eqn:Hsel.
  - apply transaction_err_unchanged.
    unfold voucherService.refundVoucher_body. by rewrite bind_query, Hsel.
  - destruct (bool_decide (VoucherClaims.status claim = refunded)) eqn:Hst.
    + apply transaction_err_unchanged.
      unfold voucherService.refundVoucher_body. by rewrite bind_query, Hsel, Hst.
    + assert (Hbody : ∃ w', voucherService.refundVoucher_body now claimId reason adminId w
                            = (Ok tt, w')).
      { unfold voucherService.refundVoucher_body. rewrite bind_query, Hsel, Hst.
        erewrite bind_ok; cycle 1.
        { apply exec_accepts. unfold update_claim_refunded.
          rewrite update_where_accepts; [by rewrite Hfk|]. intros r _ _. reflexivity. }
        erewrite bind_ok; cycle 1.
        { apply exec_accepts. unfold update_user_claimed_decr. simpl.
          rewrite update_where_accepts; [reflexivity|]. intros r Hr _.
          specialize (Hu r Hr). unfold Users.check in *. simpl. lia. }
        erewrite bind_ok; cycle 1.
        { instantiate (1 :=
            match VoucherClaims.voucher_code_id claim with
            | Some vid =>
                if vid =? 0 then _
                else set_db (set_voucher_codes
                               (map (λ v, if VoucherCodes.id v =? vid
                                          then VoucherCodes.set_usage
                                                 (Z.max 0 (VoucherCodes.usage_count v - 1))
                                                 false (VoucherCodes.used_by v)
                                                 (VoucherCodes.used_at v) v
                                          else v) (voucher_codes (db w))) _) _
            | None => _
            end).
          destruct (VoucherClaims.voucher_code_id claim) as [vid|]; [|reflexivity].
          destruct (vid =? 0); [reflexivity|].
          apply exec_accepts. unfold update_voucher_usage_decr. simpl.
          rewrite update_where_accepts; [reflexivity|]. intros r Hr _.
          specialize (Hv r Hr). unfold VoucherCodes.check in *. simpl. lia. }
        erewrite bind_ok by (by apply exec_accepts).
        eexists. reflexivity. }
      destruct Hbody as [w' Hbody]. exists w'. by apply transaction_ok.
Qed.

(** X4: on a database whose users and codes satisfy their check
    constraints the store never rejects a refund whose admin id, when one
    is given, is the id of a user.  Such a refund fails only because the
    claim does not exist or is already refunded, and then the world is left
    as it was; every other such refund commits. *)
Theorem refundVoucher_fails_only_on_missing_or_refunded_claim (now claimId : Z)
    (reason : string) (adminId : option Z) (w : World) :
  Forall (λ u, Users.check u = true) (users (db w)) →
  Forall (λ v, VoucherCodes.check v = true) (voucher_codes (db w)) →
  names_a_user adminId (db w) →
  match select_claim claimId (db w) with
  | [] =>
      voucherService.refundVoucher now claimId reason adminId w
      = (Err (PlainError "Claim not found"), w)
  | claim :: _ =>
      if bool_decide (VoucherClaims.status claim = refunded) then
        voucherService.refundVoucher now claimId reason adminId w
        = (Err (PlainError "Claim already refunded"), w)
      else
        ∃ w', voucherService.refundVoucher now claimId reason adminId w = (Ok tt, w')
  end.
Proof. apply refundVoucher_outcome. Qed.

(** The admin, user 1, refunds the claim of the happy path; there is no
    claim 2; and a refund in the name of user 9, who does not exist, is
    rejected by the store. *)
Lemma refundVoucher_fails_only_on_missing_or_refunded_claim_witness :
  (∃ w', voucherService.refundVoucher 3000 1 "fraud" (Some 1) Scenario.happy_path
         = (Ok tt, w'))
  ∧ voucherService.refundVoucher 3000 2 "fraud" (Some 1) Scenario.happy_path
    = (Err (PlainError "Claim not found"), Scenario.happy_path)
  ∧ (voucherService.refundVoucher 3000 1 "fraud" (Some 9) Scenario.happy_path).1
    = Err (StoreError "voucher_claims_refunded_by_fkey").
Proof.
  assert (Hu : Forall (λ u, Users.check u = true) (users (db Scenario.happy_path)))
    by (vm_compute; repeat constructor).
  assert (Hv : Forall (λ v, VoucherCodes.check v = true)
                 (voucher_codes (db Scenario.happy_path)))
    by (vm_compute; repeat constructor).
  assert (Ha : names_a_user (Some 1) (db Scenario.happy_path)).
  { intros a [= <-]. apply (bool_decide_unpack _). by vm_compute. }
  split; [|split; [|by vm_compute]].
  - apply (refundVoucher_fails_only_on_missing_or_refunded_claim
             3000 1 "fraud" (Some 1) Scenario.happy_path Hu Hv Ha).
  - apply (refundVoucher_fails_only_on_missing_or_refunded_claim
             3000 2 "fraud" (Some 1) Scenario.happy_path Hu Hv Ha).
Defined.

(** ** The user limit *)

(** C3: for every committed user state reachable by any sequence of claim
    and refund operations, [0 ≤ claimed ≤ limit]; the claim transaction
    refuses to increment past the limit, and the refund decrement is
    floored at 0.  In four parts: (1) from a database whose users satisfy
    [0 ≤ claimed ≤ limit], every history of claim requests, worker jobs and
    refunds ends in such a database; (2) the transaction of the fast path,
    finding the locked user at [claimed ≥ limit], fails with
    [LIMIT_EXCEEDED] and has changed nothing; (3) the transaction of the
    worker, in the same situation, returns the [limit_reached] result and
    has changed nothing; (4) the refund of a claim that is not yet
    refunded, in the name of nobody or of a user, is committed whatever the
    owner's count is, and takes the owner's [claimed] to
    [max 0 (claimed - 1)], so that an owner who stands at 0 stays at 0, and
    leaves the other users as they were. *)
Theorem C3_user_limit_invariant :
  (∀ ops w, users_within_limit (db w) → users_within_limit (db (run ops w)))
  ∧ (∀ now request w user rest,
       select_active_user (ClaimVoucherRequest.userId request) (db w) = user :: rest →
       Users.voucher_limit user ≤ Users.vouchers_claimed user →
       transaction (voucherService.processClaimImmediate_body now request) w
       = (Err (VoucherLimitExceeded "Voucher limit exceeded"), w)
       ∧ code (VoucherLimitExceeded "Voucher limit exceeded") = "LIMIT_EXCEEDED")
  ∧ (∀ now job w user rest,
       select_active_user (QueueJob.userId job) (db w) = user :: rest →
       Users.voucher_limit user ≤ Users.vouchers_claimed user →
       transaction (voucherWorker.processJob_body now job) w
       = (Ok limit_reached_result, w))
  ∧ (∀ now claimId reason adminId w claim rest,
       Forall (λ u, Users.check u = true) (users (db w)) →
       Forall (λ v, VoucherCodes.check v = true) (voucher_codes (db w)) →
       names_a_user adminId (db w) →
       select_claim claimId (db w) = claim :: rest →
       VoucherClaims.status claim ≠ refunded →
       ∃ w', voucherService.refundVoucher now claimId reason adminId w = (Ok tt, w')
             ∧ Users.vouchers_claimed <$> users (db w')
               = (λ r, if Users.id r =? VoucherClaims.user_id claim
                       then Z.max 0 (Users.vouchers_claimed r - 1)
                       else Users.vouchers_claimed r)
                 <$> users (db w)).
Proof.
  split_and!.
  - apply run_within_limit.
  - intros now request w user rest Hsel Hlim. split; [|done].
    apply transaction_err_unchanged. by eapply processClaimImmediate_body_at_limit.
  - intros now job w user rest Hsel Hlim.
    apply transaction_ok. by eapply processJob_body_at_limit.
  - intros now claimId reason adminId w claim rest Hu Hv Ha Hsel Hst.
    pose proof (refundVoucher_outcome now claimId reason adminId w Hu Hv Ha) as H.
    rewrite Hsel in H. rewrite bool_decide_eq_false_2 in H by done.
    destruct H as [w' H]. exists w'. split; [done|].
    apply committed_refund_state in H as (claim' & rest' & Hsel' & _ & _ & Husers & _).
    rewrite Hsel in Hsel'. by injection Hsel' as <- _.
Qed.

(** The happy path followed by the refund of its claim keeps the users
    within their limits.  User 5 stands at [claimed = limit = 10]: both
    transactions refuse the claim.  In [Example.counters_reset] user 3 owns
    the claim 1 and stands at 0: the refund is committed and user 3 stays
    at 0. *)
Lemma C3_user_limit_invariant_witness :
  users_within_limit
    (db (run [Claim 1000 1000 false (Scenario.request 3 "SUMMER2024" Scenario.r1);
              Refund 3000 1 "fraud" (Some 1)] Scenario.fresh))
  ∧ transaction (voucherService.processClaimImmediate_body 1000
                   (Scenario.request 5 "SUMMER2024" Scenario.r5)) Scenario.fresh
    = (Err (VoucherLimitExceeded "Voucher limit exceeded"), Scenario.fresh)
  ∧ transaction (voucherWorker.processJob_body 1000
                   (Scenario.job 5 "SUMMER2024" Scenario.q5 1000)) Scenario.fresh
    = (Ok limit_reached_result, Scenario.fresh)
  ∧ claimed_of 3 (db Example.counters_reset) = [0]
  ∧ ∃ w', voucherService.refundVoucher 3000 1 "fraud" (Some 1) Example.counters_reset
          = (Ok tt, w')
          ∧ Users.vouchers_claimed <$> users (db w')
            = Users.vouchers_claimed <$> users (db Example.counters_reset).
Proof.
  destruct C3_user_limit_invariant as (Hrun & Hfast & Hworker & Hrefund).
  split_and!.
  - apply Hrun. unfold users_within_limit, user_within_limit. simpl.
    repeat constructor; simpl; lia.
  - apply (Hfast 1000 (Scenario.request 5 "SUMMER2024" Scenario.r5) Scenario.fresh
             Scenario.user5 []); [reflexivity|simpl; lia].
  - apply (Hworker 1000 (Scenario.job 5 "SUMMER2024" Scenario.q5 1000) Scenario.fresh
             Scenario.user5 []); [reflexivity|simpl; lia].
  - by vm_compute.
  - destruct (select_claim 1 (db Example.counters_reset)) as [|claim rest] eqn:Hsel;
      [by vm_compute in Hsel|].
    assert (Hst : VoucherClaims.status claim = success ∧ VoucherClaims.user_id claim = 3).
    { vm_compute in Hsel. by injection Hsel as <- _. }
    destruct Hst as [Hst Howner].
    destruct (Hrefund 3000 1 "fraud" (Some 1) Example.counters_reset claim rest)
      as (w' & Hw' & Husers).
    + vm_compute. repeat constructor.
    + vm_compute. repeat constructor.
    + intros a [= <-]. apply (bool_decide_unpack _). by vm_compute.
    + exact Hsel.
    + by rewrite Hst.
    + exists w'. split; [exact Hw'|].
      rewrite Husers, Howner. by vm_compute.
Defined.

(** ** The queued path *)

Lemma cached_result_ext (now : Z) (k : string) (w w' : World) :
  strings (kv w') !! (cacheService.CLAIM_RESULT_PREFIX +:+ k)
  = strings (kv w) !! (cacheService.CLAIM_RESULT_PREFIX +:+ k) →
  cached_result now k w' = cached_result now k w.
Proof. unfold cached_result, redis.get. by intros ->. Qed.

(** The fast path answers [success] or fails. *)
Lemma processClaimImmediate_ok_status (now : Z) (late : bool) (request : ClaimVoucherRequest.t)
    (w w' : World) (r : ClaimVoucherResponse.t) :
  voucherService.processClaimImmediate now late request w = (Ok r, w') →
  ClaimVoucherResponse.success r = true
  ∧ ClaimVoucherResponse.status r = Some ClaimStatus.success.
Proof.
  unfold voucherService.processClaimImmediate, CircuitBreaker.execute,
    voucherService.raced, transaction.
  destruct (_ && _); [done|].
  destruct (voucherService.processClaimImmediate_body now request w)
    as [[r0|e] w0] eqn:H; destruct late; intros [= <- <-].
  unfold voucherService.processClaimImmediate_body in H. cbv zeta in H.
  rewrite bind_query in H.
  destruct (select_active_user _ _) as [|user urest]; [done|].
  destruct (_ >=? _); [done|]. rewrite bind_query in H.
  destruct (select_voucher_code _ _) as [|voucher rest]; [done|].
  destruct (negb _); [done|].
  set (expired := match VoucherCodes.expires_at voucher with
                  | Some t => t <? now | None => false end) in H.
  destruct expired; [done|].
  destruct (_ >=? _); [done|]. rewrite bind_query in H.
  destruct (0 <? _)%nat; [done|].
  apply bind_ok_inv in H as (? & w1 & _ & H).
  apply bind_ok_inv in H as (? & w2 & _ & H).
  apply bind_ok_inv in H as (NEW & w3 & _ & H).
  unfold bind in H. simpl in H. by injection H as <- _.
Qed.

(** X5: a fresh request that the coordinator answers [pending] has changed
    nothing but Redis and the queue: the database and the breaker are as
    they were, the reply carries the request id as the job id, the job of
    the request has been handed to the queue, and the [pending] answer
    itself is not cached, so the same request sent again runs through the
    coordinator again. *)
Theorem pending_claim_only_enqueues (now reread : Z) (late : bool) (request : ClaimVoucherRequest.t)
    (w w' : World) (r : ClaimVoucherResponse.t) :
  let key := ClaimVoucherRequest.idempotencyKey request in
  cached_result now key w = None →
  voucherService.claimVoucher now reread late request w = (Ok r, w') →
  ClaimVoucherResponse.status r = Some ClaimStatus.pending →
  r = {| ClaimVoucherResponse.success := true;
         ClaimVoucherResponse.message := "Claim request queued for processing";
         ClaimVoucherResponse.vouchersRemaining := None;
         ClaimVoucherResponse.requestId := Some key;
         ClaimVoucherResponse.status := Some ClaimStatus.pending |}
  ∧ db w' = db w
  ∧ dbCircuitBreaker w' = dbCircuitBreaker w
  ∧ queue w' = queue w ++ [job_of reread request]
  ∧ cached_result now key w' = None.
Proof.
  intros key Hmiss H Hst. unfold voucherService.claimVoucher in H. cbv zeta in H.
  erewrite bind_ok in H by apply getClaimResult_run. fold key in H. rewrite Hmiss in H.
  apply bind_ok_inv in H as (rateLimit & wa & Ha & H).
  pose proof (frames_checkRateLimit only_redis _ _ _ _ _ _ _ Ha) as Fa.
  pose proof (keeps_checkRateLimit key _ _ _ _ _ _ _ Ha) as Ka.
  destruct (negb _); [done|].
  apply bind_ok_inv in H as (ipAllowed & wb & Hb & H).
  pose proof (frames_checkIPRateLimit only_redis _ _ _ _ _ _ _ Hb) as Fb.
  pose proof (keeps_checkIPRateLimit key _ _ _ _ _ _ _ Hb) as Kb.
  destruct (negb _); [done|].
  apply bind_ok_inv in H as (cachedCount & wc & Hc & H).
  pose proof (frames_getUserVoucherCount only_redis _ _ _ _ _ Hc) as Fc.
  pose proof (keeps_getUserVoucherCount key _ _ _ _ _ Hc) as Kc.
  apply bind_ok_inv in H as (? & wd & Hd & H).
  assert (Fd : only_redis wc wd
               ∧ strings (kv wd) !! (cacheService.CLAIM_RESULT_PREFIX +:+ key)
                 = strings (kv wc) !! (cacheService.CLAIM_RESULT_PREFIX +:+ key)).
  { destruct cachedCount as [c|]; [|by injection Hd as _ <-].
    apply bind_ok_inv in Hd as (user & wu & Hu & Hd).
    pose proof (frames_getUser only_redis _ _ _ _ _ Hu) as Fu.
    pose proof (keeps_getUser key _ _ _ _ _ Hu) as Ku.
    destruct (_ >=? _); [done|]. by injection Hd as _ <-. }
  destruct Fd as [Fd Kd].
  destruct (negb _); [done|].
  apply bind_ok_inv in H as (voucherCode & we & He & H).
  pose proof (frames_getVoucherCode only_redis _ _ _ _ He) as Fe.
  pose proof (keeps_getVoucherCode key _ _ _ _ He) as Ke.
  destruct voucherCode as [vc|]; [|done].
  destruct (negb _); [done|].
  apply bind_ok_inv in H as (user & wf & Hf & H).
  pose proof (frames_getUser only_redis _ _ _ _ _ Hf) as Ff.
  pose proof (keeps_getUser key _ _ _ _ _ Hf) as Kf.
  assert (Fw : only_redis w wf) by (repeat (etrans; [eassumption|]); done).
  assert (Kw : strings (kv wf) !! (cacheService.CLAIM_RESULT_PREFIX +:+ key)
               = strings (kv w) !! (cacheService.CLAIM_RESULT_PREFIX +:+ key))
    by congruence.
  destruct Fw as (Hdb & Hq & Hcb).
  destruct (User.isPremium user).
  - apply bind_ok_inv in H as (result & wg & Hg & H).
    apply bind_ok_inv in H as ([] & wh & _ & H).
    injection H as -> _. apply processClaimImmediate_ok_status in Hg as [_ Hg].
    congruence.
  - unfold bind in H. rewrite addClaimJob_run in H. injection H as <- <-.
    simpl. fold key. fold (job_of reread request).
    split_and!; [done|done|done|by rewrite Hq|].
    rewrite <- Hmiss. by apply cached_result_ext.
Qed.

Lemma pending_claim_only_enqueues_witness :
  let request := Scenario.request 4 "SUMMER2024" Scenario.q0 in
  let w' := (voucherService.claimVoucher 1000 1000 false request Scenario.fresh).2 in
  db w' = db Scenario.fresh
  ∧ queue w' = [job_of 1000 request]
  ∧ cached_result 1000 Scenario.q0 w' = None.
Proof.
  cbv zeta.
  pose proof (pending_claim_only_enqueues 1000 1000 false
                (Scenario.request 4 "SUMMER2024" Scenario.q0)
                Scenario.fresh
                (voucherService.claimVoucher 1000 1000 false
                   (Scenario.request 4 "SUMMER2024" Scenario.q0) Scenario.fresh).2
                {| ClaimVoucherResponse.success := true;
                   ClaimVoucherResponse.message := "Claim request queued for processing";
                   ClaimVoucherResponse.vouchersRemaining := None;
                   ClaimVoucherResponse.requestId := Some Scenario.q0;
                   ClaimVoucherResponse.status := Some ClaimStatus.pending |}) as H.
  cbv zeta in H.
  destruct H as (_ & Hdb & _ & Hq & Hc); [by vm_compute|by vm_compute|reflexivity|].
  split; [exact Hdb|]. split; [|exact Hc]. rewrite Hq. by vm_compute.
Defined.

(** ** Failed transactions and Redis *)

Lemma only_db_refl (w : World) : only_db w w.
Proof. done. Qed.

Lemma only_db_trans (w1 w2 w3 : World) : only_db w1 w2 → only_db w2 w3 → only_db w1 w3.
Proof. unfold only_db. intros (? & ? & ?) (? & ? & ?). split_and!; congruence. Qed.

Lemma exec_only_db (s : DB → result DB) (w : World) (r : result unit) (w' : World) :
  exec s w = (r, w') → only_db w w'.
Proof. unfold exec. destruct (s (db w)); by intros [= _ <-]. Qed.

Lemma stmt_only_db {A : Type} (s : DB → result A * DB) (w : World) (r : result A)
    (w' : World) :
  stmt s w = (r, w') → only_db w w'.
Proof. unfold stmt. destruct (s (db w)). by intros [= _ <-]. Qed.

Lemma only_db_world (w w' : World) : only_db w w' → w' = set_db (db w') w.
Proof. destruct w, w'. unfold only_db. simpl. by intros (-> & -> & ->). Qed.

(** The transaction bodies write to Redis only after their last statement:
    a body that fails has left Redis as it was. *)
Lemma processJob_body_err_only_db now job w e w' :
  voucherWorker.processJob_body now job w = (Err e, w') → only_db w w'.
Proof.
  unfold voucherWorker.processJob_body. cbv zeta. rewrite bind_query.
  destruct (select_active_user _ _) as [|user rest]; [by intros [= _ <-]|].
  destruct (_ >=? _); [done|]. rewrite bind_query.
  destruct (select_voucher_code _ _) as [|voucher rest']; [by intros [= _ <-]|].
  destruct (_ || _); [by intros [= _ <-]|].
  intros H.
  apply bind_inv in H as [(e' & H & _)|(? & w1 & H1 & H)]; [by eapply exec_only_db|].
  apply exec_only_db in H1.
  apply bind_inv in H as [(e' & H & _)|(? & w2 & H2 & H)];
    [eapply only_db_trans; [done|by eapply exec_only_db]|].
  apply exec_only_db in H2.
  apply bind_inv in H as [(e' & H & _)|(? & w3 & H3 & H)];
    [eapply only_db_trans; [done|]; eapply only_db_trans; [done|by eapply stmt_only_db]|].
  apply cache_update_no_error in H as [w4 H]. done.
Qed.

Lemma processClaimImmediate_body_err_only_db now request w e w' :
  voucherService.processClaimImmediate_body now request w = (Err e, w') → only_db w w'.
Proof.
  unfold voucherService.processClaimImmediate_body. cbv zeta. rewrite bind_query.
  destruct (select_active_user _ _) as [|user rest]; [by intros [= _ <-]|].
  destruct (_ >=? _); [by intros [= _ <-]|]. rewrite bind_query.
  destruct (select_voucher_code _ _) as [|voucher rest']; [by intros [= _ <-]|].
  destruct (negb _); [by intros [= _ <-]|].
  destruct (match VoucherCodes.expires_at voucher with
            | Some t => t <? now | None => false end); [by intros [= _ <-]|].
  destruct (_ >=? _); [by intros [= _ <-]|]. rewrite bind_query.
  destruct (0 <? _)%nat; [by intros [= _ <-]|].
  intros H.
  apply bind_inv in H as [(e' & H & _)|(? & w1 & H1 & H)]; [by eapply exec_only_db|].
  apply exec_only_db in H1.
  apply bind_inv in H as [(e' & H & _)|(? & w2 & H2 & H)];
    [eapply only_db_trans; [done|by eapply exec_only_db]|].
  apply exec_only_db in H2.
  apply bind_inv in H as [(e' & H & _)|(? & w3 & H3 & H)];
    [eapply only_db_trans; [done|]; eapply only_db_trans; [done|by eapply stmt_only_db]|].
  apply cache_update_no_error in H as [w4 H]. done.
Qed.

(** X6: a job that fails leaves no trace but the sequence values it drew:
    the tables are rolled back, nothing was written to Redis (so no result
    is cached under the request id and the retry of the job runs the
    transaction again), the worker has handed nothing to the queue, and the
    breaker is as it was. *)
Theorem failed_job_changes_only_the_sequence (now : Z) (job : QueueJob.t)
    (w w' : World) (e : error) :
  voucherWorker.processJob now job w = (Err e, w') →
  w' = set_db (set_voucher_claims_id_seq (voucher_claims_id_seq (db w')) (db w)) w.
Proof.
  unfold voucherWorker.processJob. intros H.
  apply bind_inv in H as [(e' & H & _)|(r & w1 & _ & H)];
    [|by apply cacheClaimResult_then_ret in H].
  unfold transaction in H.
  destruct (voucherWorker.processJob_body now job w) as [[a|e0] w0] eqn:Hb; [done|].
  injection H as _ <-. apply processJob_body_err_only_db in Hb.
  apply only_db_world in Hb. rewrite Hb. done.
Qed.

(** A job for FLASH20, which can be used once: the insert is rejected by
    the store after the sequence has handed out the id 1.  The same job
    under a request id that is no UUID is rejected before the sequence is
    read. *)
Lemma failed_job_changes_only_the_sequence_witness :
  voucherWorker.processJob 1000 (Scenario.job 4 "FLASH20" Scenario.q9 900) Scenario.fresh
  = (Err (StoreError "check_usage_count_not_exceed_limit"),
     set_db (set_voucher_claims_id_seq 1 (db Scenario.fresh)) Scenario.fresh)
  ∧ voucherWorker.processJob 1000 (Scenario.job 4 "FLASH20" "q9" 900) Scenario.fresh
    = (Err (StoreError "invalid_text_representation"), Scenario.fresh).
Proof.
  pose proof (failed_job_changes_only_the_sequence 1000
                (Scenario.job 4 "FLASH20" Scenario.q9 900) Scenario.fresh
                (voucherWorker.processJob 1000
                   (Scenario.job 4 "FLASH20" Scenario.q9 900) Scenario.fresh).2
                (StoreError "check_usage_count_not_exceed_limit")) as H.
  pose proof (failed_job_changes_only_the_sequence 1000
                (Scenario.job 4 "FLASH20" "q9" 900) Scenario.fresh
                (voucherWorker.processJob 1000
                   (Scenario.job 4 "FLASH20" "q9" 900) Scenario.fresh).2
                (StoreError "invalid_text_representation")) as H'.
  split.
  - rewrite (surjective_pairing (voucherWorker.processJob _ _ _)).
    rewrite H by (by vm_compute). by vm_compute.
  - rewrite (surjective_pairing (voucherWorker.processJob _ _ _)).
    rewrite H' by (by vm_compute). by vm_compute.
Defined.

(** ** The scope of a cache invalidation *)

Lemma pretty_N_go_no_colon (x : N) (s : string) :
  no_colon s = true → no_colon (pretty_N_go x s) = true.
Proof.
  revert s. induction (N.lt_wf_0 x) as [x _ IH]; intros s Hs.
  assert (x = 0 ∨ 0 < x)%N as [->|?] by lia.
  - by rewrite pretty_N_go_0.
  - rewrite pretty_N_go_step by done. apply IH; [by apply N.div_lt|].
    unfold no_colon. simpl. fold (no_colon s). rewrite Hs.
    unfold pretty_N_char. by repeat case_match.
Qed.

Lemma pretty_Z_no_colon (z : Z) : no_colon (pretty z) = true.
Proof.
  unfold pretty, pretty_Z. destruct z as [|p|p]; [done| |].
  - unfold pretty, pretty_positive, pretty, pretty_N. simpl.
    by apply pretty_N_go_no_colon.
  - unfold pretty, pretty_positive, pretty, pretty_N. simpl.
    by apply pretty_N_go_no_colon.
Qed.

Lemma append_cons (c : ascii) (a b : string) : String c a +:+ b = String c (a +:+ b).
Proof. reflexivity. Qed.

Lemma append_nil (b : string) : "" +:+ b = b.
Proof. reflexivity. Qed.

Lemma prefix_cons (c d : ascii) (a b : string) :
  String.prefix (String c a) (String d b)
  = if ascii_dec c d then String.prefix a b else false.
Proof. reflexivity. Qed.

Lemma prefix_append_same (a b c : string) :
  String.prefix (a +:+ b) (a +:+ c) = String.prefix b c.
Proof.
  induction a as [|x a IH]; [done|].
  rewrite !append_cons, prefix_cons. by destruct (ascii_dec x x).
Qed.

(** Two ids followed by the separator: one is a prefix of the other only
    when the ids are the same. *)
Lemma prefix_colon_inj (a b x y : string) :
  no_colon a = true → no_colon b = true →
  String.prefix (a +:+ String ":" x) (b +:+ String ":" y) = true → a = b.
Proof.
  unfold no_colon. revert b.
  induction a as [|c a IH]; intros [|d b]; rewrite ?append_cons, ?append_nil, ?prefix_cons;
    try done.
  - intros _ Hb. destruct (ascii_dec ":" d) as [<-|]; [|done]. by simpl in Hb.
  - intros Ha _. destruct (ascii_dec c ":") as [->|]; [|done]. by simpl in Ha.
  - intros [_ Ha]%andb_true_iff [_ Hb]%andb_true_iff.
    destruct (ascii_dec c d) as [->|]; [|done].
    intros H. f_equal. by apply IH.
Qed.

Lemma user_key_prefix (userId other : Z) (suffix : string) :
  String.prefix (cacheService.USER_CACHE_PREFIX +:+ pretty userId +:+ ":")
    (user_key other suffix) = true →
  other = userId.
Proof.
  unfold user_key. rewrite prefix_append_same. intros H.
  apply prefix_colon_inj in H; [|apply pretty_Z_no_colon..].
  symmetry. by apply (inj pretty).
Qed.

Lemma live_later {V : Type} (now now' : Z) (e : V * option Z) :
  now ≤ now' → live now e = None → live now' e = None.
Proof.
  unfold live. destruct e as [v [t|]]; simpl; [|done].
  destruct (t <=? now) eqn:Ht; [|done]. intros Hle _.
  apply Z.leb_le in Ht. by replace (t <=? now') with true by (symmetry; apply Z.leb_le; lia).
Qed.

Lemma scan_prefix_live_string (now : Z) (prefix k : string) (r : Redis)
    (e : payload * option Z) :
  String.prefix prefix k = true → strings r !! k = Some e → is_Some (live now e) →
  k ∈ redis.scan_prefix now prefix r.
Proof.
  intros Hp Hk Hl. unfold redis.scan_prefix. apply list_elem_of_filter. split; [done|].
  apply elem_of_elements, elem_of_union. left. apply elem_of_dom. exists e.
  by apply map_lookup_filter_Some.
Qed.

Lemma foldr_del_strings (keys : list string) (r : Redis) (k : string) :
  strings (foldr redis.del r keys) !! k
  = if bool_decide (k ∈ keys) then None else strings r !! k.
Proof.
  induction keys as [|k' keys IH]; simpl; [done|].
  destruct (decide (k = k')) as [->|Hne].
  - rewrite lookup_delete_eq. by rewrite bool_decide_eq_true_2 by left.
  - rewrite lookup_delete_ne by done. rewrite IH.
    destruct (decide (k ∈ keys)) as [Hin|Hnot].
    + rewrite (bool_decide_eq_true_2 (k ∈ keys)) by done.
      by rewrite (bool_decide_eq_true_2 (k ∈ k' :: keys)) by (by right).
    + rewrite (bool_decide_eq_false_2 (k ∈ keys)) by done.
      rewrite (bool_decide_eq_false_2 (k ∈ k' :: keys)); [done|].
      by intros [?|?]%elem_of_cons.
Qed.

Lemma foldr_del_zsets (keys : list string) (r : Redis) (k : string) :
  k ∉ keys → zsets (foldr redis.del r keys) !! k = zsets r !! k.
Proof.
  induction keys as [|k' keys IH]; intros Hnot; simpl; [done|].
  apply not_elem_of_cons in Hnot as [Hne Hnot].
  rewrite lookup_delete_ne by done. by apply IH.
Qed.

(** After the invalidation at [now], no key of the user reads back at any
    later instant. *)
Lemma invalidated_key_misses (now now' userId : Z) (suffix : string) (w : World) :
  now ≤ now' →
  redis.get now' (user_key userId suffix)
    (kv (cacheService.invalidateUserCache now userId w).2) = None.
Proof.
  intros Hle. unfold cacheService.invalidateUserCache, bind, kv_read, kv_write.
  cbv zeta. simpl. unfold redis.get. rewrite foldr_del_strings.
  destruct (bool_decide _) eqn:Hin; [done|]. apply bool_decide_eq_false in Hin.
  destruct (strings (kv w) !! user_key userId suffix) as [e|] eqn:He; [|done]. simpl.
  apply (live_later now); [done|].
  destruct (live now e) as [v|] eqn:Hl; [|done]. exfalso. apply Hin.
  eapply scan_prefix_live_string; [|exact He|rewrite Hl; by eexists].
  unfold user_key. rewrite !prefix_append_same, append_cons, prefix_cons, append_nil.
  destruct (ascii_dec ":" ":"); [by destruct suffix|done].
Qed.

(** After [invalidateUserCache] both cached entries of the user miss. *)
Lemma invalidateUserCache_misses (now now' userId : Z) (w : World) :
  now ≤ now' →
  let w' := (cacheService.invalidateUserCache now userId w).2 in
  (cacheService.getUserVoucherCount now' userId w').1 = Ok None
  ∧ (cacheService.getUser now' userId w').1 = Ok None.
Proof.
  intros Hle w'.
  pose proof (invalidated_key_misses now now' userId "vouchers" w Hle) as Hv.
  pose proof (invalidated_key_misses now now' userId "data" w Hle) as Hd.
  fold w' in Hv, Hd. split.
  - unfold cacheService.getUserVoucherCount, bind, kv_read. cbv zeta.
    change (cacheService.USER_CACHE_PREFIX +:+ pretty userId +:+ ":vouchers")
      with (user_key userId "vouchers"). by rewrite Hv.
  - unfold cacheService.getUser, bind, kv_read. cbv zeta.
    change (cacheService.USER_CACHE_PREFIX +:+ pretty userId +:+ ":data")
      with (user_key userId "data"). by rewrite Hd.
Qed.

(** X7: [invalidateUserCache] drops what is cached for the user and nothing
    else.  After it, the voucher count and the user data of that user miss
    at every later instant; the entries of every other user (the pattern
    [user:1:*] does not match [user:12:...]), the cached claim results and
    the rate-limit records are as they were. *)
Theorem invalidateUserCache_drops_the_user_only (now now' userId : Z) (w : World) :
  now ≤ now' →
  let w' := (cacheService.invalidateUserCache now userId w).2 in
  (cacheService.getUserVoucherCount now' userId w').1 = Ok None
  ∧ (cacheService.getUser now' userId w').1 = Ok None
  ∧ (∀ other suffix, other ≠ userId →
       strings (kv w') !! user_key other suffix = strings (kv w) !! user_key other suffix)
  ∧ (∀ k, cached_result now' k w' = cached_result now' k w)
  ∧ (∀ other, zsets (kv w') !! rate_key other = zsets (kv w) !! rate_key other)
  ∧ db w' = db w.
Proof.
  intros Hle w'.
  pose proof (invalidated_key_misses now now' userId "vouchers" w Hle) as Hv.
  pose proof (invalidated_key_misses now now' userId "data" w Hle) as Hd.
  fold w' in Hv, Hd.
  assert (Hkv : kv w' = foldr redis.del (kv w)
                          (redis.scan_prefix now
                             (cacheService.USER_CACHE_PREFIX +:+ pretty userId +:+ ":")
                             (kv w))) by done.
  split_and!.
  - unfold cacheService.getUserVoucherCount, bind, kv_read. cbv zeta.
    change (cacheService.USER_CACHE_PREFIX +:+ pretty userId +:+ ":vouchers")
      with (user_key userId "vouchers"). by rewrite Hv.
  - unfold cacheService.getUser, bind, kv_read. cbv zeta.
    change (cacheService.USER_CACHE_PREFIX +:+ pretty userId +:+ ":data")
      with (user_key userId "data"). by rewrite Hd.
  - intros other suffix Hne. rewrite Hkv, foldr_del_strings.
    rewrite bool_decide_eq_false_2; [done|].
    intros Hin%scan_prefix_elem. by apply user_key_prefix in Hin.
  - intros k. apply cached_result_ext. rewrite Hkv, foldr_del_strings.
    rewrite bool_decide_eq_false_2; [done|]. intros Hin%scan_prefix_elem. done.
  - intros other. rewrite Hkv. apply foldr_del_zsets.
    intros Hin%scan_prefix_elem. done.
  - done.
Qed.

Lemma invalidateUserCache_drops_the_user_only_witness :
  let w := Example.two_users_cached in
  let w' := (cacheService.invalidateUserCache 2000 1 w).2 in
  2000 ≤ 2500
  ∧ (cacheService.getUserVoucherCount 2500 1 w).1 = Ok (Some 3)
  ∧ (cacheService.getUserVoucherCount 2500 1 w').1 = Ok None
  ∧ strings (kv w') !! user_key 12 "vouchers" = strings (kv w) !! user_key 12 "vouchers".
Proof.
  cbv zeta. split; [lia|]. split; [by vm_compute|].
  destruct (invalidateUserCache_drops_the_user_only 2000 2500 1 Example.two_users_cached)
    as (H1 & _ & H12 & _); [lia|].
  split; [exact H1|]. by apply H12.
Defined.

(** ** The user cache *)

(** X8: a user loaded from the database is served from the cache for the
    next 300 seconds: until then [getUser] returns the copy made at the
    load in every world that still holds the entry, without consulting the
    database, whatever has become of the row. *)
Theorem getUser_serves_the_cached_copy (now now' userId : Z) (w w' w2 : World)
    (user : User.t) :
  (cacheService.getUser now userId w).1 = Ok None →
  voucherService.getUser now userId w = (Ok user, w') →
  now' < now + 300 * 1000 →
  strings (kv w2) !! user_key userId "data" = strings (kv w') !! user_key userId "data" →
  voucherService.getUser now' userId w2 = (Ok user, w2)
  ∧ db w' = db w
  ∧ ∃ row rest, select_active_user userId (db w) = row :: rest
                ∧ User.vouchersClaimed user = Users.vouchers_claimed row
                ∧ User.isPremium user = Users.is_premium row.
Proof.
  intros Hmiss H Hlt Hsame.
  assert (Hc : cacheService.getUser now userId w = (Ok None, w)).
  { unfold cacheService.getUser, bind, kv_read in *. cbv zeta in *.
    destruct (redis.get _ _ _) as [[n|u|r]|]; simpl in *;
      first [reflexivity|discriminate]. }
  unfold voucherService.getUser in H. erewrite bind_ok in H by exact Hc.
  cbv beta iota in H. rewrite bind_query in H.
  destruct (select_active_user userId (db w)) as [|row rest] eqn:Hsel; [done|].
  unfold cacheService.setUser, bind, kv_write, ret in H. cbv zeta in H.
  injection H as <- <-. simpl in *. split; [|split; [done|by exists row, rest]].
  assert (Hid : Users.id row = userId).
  { assert (Hin : row ∈ select_active_user userId (db w)) by (rewrite Hsel; left).
    unfold select_active_user in Hin. by apply list_elem_of_filter in Hin as [[? _] _]. }
  rewrite Hid in Hsame.
  unfold voucherService.getUser, cacheService.getUser, bind, kv_read. cbv zeta.
  unfold redis.get.
  change (cacheService.USER_CACHE_PREFIX +:+ pretty userId +:+ ":data")
    with (user_key userId "data") in *.
  rewrite Hsame, lookup_insert_eq. simpl. unfold live. simpl.
  replace (now + cacheService.USER_CACHE_TTL * 1000 <=? now') with false;
    [by rewrite <- Hid|].
  symmetry. apply Z.leb_gt. unfold cacheService.USER_CACHE_TTL. lia.
Qed.

(** User 3 is loaded at instant 1000; at instant 200000 the copy is still
    served, although the table has no rows any more. *)
Lemma getUser_serves_the_cached_copy_witness :
  let w' := (voucherService.getUser 1000 3 Scenario.fresh).2 in
  let w2 := set_db (set_users [] (db w')) w' in
  ∃ user, voucherService.getUser 200000 3 w2 = (Ok user, w2)
          ∧ User.id user = 3 ∧ select_active_user 3 (db w2) = [].
Proof.
  cbv zeta.
  destruct (voucherService.getUser 1000 3 Scenario.fresh) as [r w'] eqn:H.
  assert (Hr : ∃ user, r = Ok user ∧ User.id user = 3).
  { vm_compute in H. injection H as <- _. by eexists. }
  destruct Hr as (user & -> & Hid). exists user.
  pose proof (getUser_serves_the_cached_copy 1000 200000 3 Scenario.fresh w'
                (set_db (set_users [] (db w')) w') user) as Hserve.
  destruct Hserve as (Hget & _); [by vm_compute|exact H|lia|done|].
  simpl. split; [exact Hget|]. split; [exact Hid|done].
Defined.

(** X9: a cached voucher count lives 300 seconds: written at [now], it is
    read back at every instant before [now + 300000] and misses from that
    instant on. *)
Theorem cached_voucher_count_lives_300_seconds (now now' userId count : Z) (w : World) :
  (cacheService.getUserVoucherCount now' userId
     (cacheService.setUserVoucherCount now userId count w).2).1
  = Ok (if bool_decide (now' < now + 300000) then Some count else None).
Proof.
  unfold cacheService.getUserVoucherCount, cacheService.setUserVoucherCount,
    bind, kv_read, kv_write. cbv zeta. simpl.
  unfold redis.get. simpl. rewrite lookup_insert_eq. simpl. unfold live. simpl.
  unfold cacheService.VOUCHER_COUNT_TTL.
  destruct (decide (now' < now + 300000)) as [Hlt|Hge].
  - rewrite bool_decide_eq_true_2 by done.
    by replace (now + 300 * 1000 <=? now') with false by (symmetry; apply Z.leb_gt; lia).
  - rewrite bool_decide_eq_false_2 by done.
    by replace (now + 300 * 1000 <=? now') with true by (symmetry; apply Z.leb_le; lia).
Qed.

(** ** Sequences of calls through the breaker *)

Section BreakerSequences.
Import CircuitBreaker.
Context {S T : Type}.
Implicit Types (cs : list (Z * (S → result T * S))) (fn : S → result T * S).

Lemma calls_app cs1 cs2 (cb : t) (s : S) :
  calls (cs1 ++ cs2) cb s = calls cs2 (calls cs1 cb s).1 (calls cs1 cb s).2.
Proof.
  unfold calls. rewrite fold_left_app.
  by destruct (fold_left _ cs1 (cb, s)).
Qed.

Lemma calls_cons now fn cs (cb : t) (s : S) :
  calls ((now, fn) :: cs) cb s
  = calls cs (execute now fn cb s).1.2 (execute now fn cb s).2.
Proof. unfold calls. simpl. by destruct (execute now fn cb s) as [[r cb'] s']. Qed.

Lemma closed_failure now fn (cb : t) (s : S) :
  state cb = CLOSED → always_fails fn →
  (execute now fn cb s).1.2 = onFailure now cb.
Proof.
  intros Hst Hfn. unfold execute, is_open. rewrite Hst. simpl.
  destruct (Hfn s) as (e & s' & ->). done.
Qed.

Lemma closed_failures_below_threshold cs (cb : t) (s : S) :
  state cb = CLOSED →
  Forall (λ c, always_fails c.2) cs →
  failureCount cb + Z.of_nat (length cs) < failureThreshold (options cb) →
  let cb' := (calls cs cb s).1 in
  state cb' = CLOSED
  ∧ failureCount cb' = failureCount cb + Z.of_nat (length cs)
  ∧ options cb' = options cb.
Proof.
  revert cb s. induction cs as [|[now fn] cs IH]; intros cb s Hst Hall Hlt.
  - simpl. split_and!; [done|lia|done].
  - apply Forall_cons in Hall as [Hfn Hall]. simpl in Hfn.
    rewrite calls_cons, (closed_failure now fn cb s Hst Hfn).
    assert (Hone : onFailure now cb = set_failureCount (failureCount cb + 1) cb).
    { unfold onFailure. simpl.
      replace (failureCount cb + 1 >=? failureThreshold (options cb)) with false; [done|].
      symmetry. rewrite Z.geb_leb. apply Z.leb_gt.
      rewrite length_cons in Hlt. lia. }
    rewrite Hone. rewrite length_cons in *.
    destruct (IH (set_failureCount (failureCount cb + 1) cb)
                 (execute now fn cb s).2) as (H1 & H2 & H3);
      [done|done|simpl; lia|].
    cbv zeta. rewrite H1, H2, H3. simpl. split_and!; [done|lia|done].
Qed.

(** X10: a closed breaker opens at the call that brings the run of failures
    to [failureThreshold], and not before: after fewer failures it is still
    closed and has counted each of them; the failure that reaches the
    threshold opens it and sets [nextAttempt] to the instant of that call
    plus [resetTimeout]. *)
Theorem closed_breaker_opens_at_the_threshold cs now fn (cb : t) (s : S) :
  state cb = CLOSED →
  Forall (λ c, always_fails c.2) cs →
  always_fails fn →
  failureCount cb + Z.of_nat (length cs) + 1 = failureThreshold (options cb) →
  let before := (calls cs cb s).1 in
  let after := (calls (cs ++ [(now, fn)]) cb s).1 in
  state before = CLOSED
  ∧ failureCount before = failureCount cb + Z.of_nat (length cs)
  ∧ state after = OPEN
  ∧ nextAttempt after = now + resetTimeout (options cb).
Proof.
  intros Hst Hall Hfn Hth.
  destruct (closed_failures_below_threshold cs cb s Hst Hall) as (H1 & H2 & H3); [lia|].
  cbv zeta in *. split; [done|]. split; [done|].
  rewrite calls_app, calls_cons. simpl.
  rewrite (closed_failure now fn _ _ H1 Hfn). unfold onFailure. simpl.
  rewrite H2, H3.
  replace (failureCount cb + Z.of_nat (length cs) + 1 >=? failureThreshold (options cb))
    with true by (symmetry; apply Z.geb_le; lia).
  done.
Qed.

Lemma half_open_success now fn (cb : t) (s : S) :
  state cb = HALF_OPEN → always_succeeds fn →
  (execute now fn cb s).1.2 = onSuccess cb.
Proof.
  intros Hst Hfn. unfold execute, is_open. rewrite Hst. simpl.
  destruct (Hfn s) as (r & s' & ->). done.
Qed.

Lemma half_open_successes_below_threshold cs (cb : t) (s : S) :
  state cb = HALF_OPEN →
  Forall (λ c, always_succeeds c.2) cs →
  successCount cb + Z.of_nat (length cs) < successThreshold (options cb) →
  let cb' := (calls cs cb s).1 in
  state cb' = HALF_OPEN
  ∧ successCount cb' = successCount cb + Z.of_nat (length cs)
  ∧ options cb' = options cb
  ∧ nextAttempt cb' = nextAttempt cb.
Proof.
  revert cb s. induction cs as [|[now fn] cs IH]; intros cb s Hst Hall Hlt.
  - simpl. split_and!; [done|lia|done|done].
  - apply Forall_cons in Hall as [Hfn Hall]. simpl in Hfn.
    rewrite calls_cons, (half_open_success now fn cb s Hst Hfn).
    assert (Hone : onSuccess cb
                   = set_successCount (successCount cb + 1) (set_failureCount 0 cb)).
    { unfold onSuccess, is_half_open. simpl. rewrite Hst. simpl.
      replace (successCount cb + 1 >=? successThreshold (options cb)) with false; [done|].
      symmetry. rewrite Z.geb_leb. apply Z.leb_gt.
      rewrite length_cons in Hlt. lia. }
    rewrite Hone. rewrite length_cons in *.
    destruct (IH (set_successCount (successCount cb + 1) (set_failureCount 0 cb))
                 (execute now fn cb s).2) as (H1 & H2 & H3 & H4);
      [done|done|simpl; lia|].
    cbv zeta. rewrite H1, H2, H3, H4. simpl. split_and!; [done|lia|done|done].
Qed.

(** X11: a half-open breaker closes at the success that brings
    [successCount] to [successThreshold] and not before.  The count it
    starts from is whatever earlier half-open episodes have left: nothing
    resets it when the breaker opens again. *)
Theorem half_open_breaker_closes_at_the_threshold cs now fn (cb : t) (s : S) :
  state cb = HALF_OPEN →
  Forall (λ c, always_succeeds c.2) cs →
  always_succeeds fn →
  successCount cb + Z.of_nat (length cs) + 1 = successThreshold (options cb) →
  let before := (calls cs cb s).1 in
  let after := (calls (cs ++ [(now, fn)]) cb s).1 in
  state before = HALF_OPEN
  ∧ successCount before = successCount cb + Z.of_nat (length cs)
  ∧ state after = CLOSED ∧ successCount after = 0 ∧ failureCount after = 0.
Proof.
  intros Hst Hall Hfn Hth.
  destruct (half_open_successes_below_threshold cs cb s Hst Hall)
    as (H1 & H2 & H3 & _); [lia|].
  cbv zeta in *. split; [done|]. split; [done|].
  rewrite calls_app, calls_cons. simpl.
  rewrite (half_open_success now fn _ _ H1 Hfn).
  unfold onSuccess, is_half_open. simpl. rewrite H1. simpl. rewrite H2, H3.
  replace (successCount cb + Z.of_nat (length cs) + 1 >=? successThreshold (options cb))
    with true by (symmetry; apply Z.geb_le; lia).
  done.
Qed.

End BreakerSequences.

Lemma closed_breaker_opens_at_the_threshold_witness :
  let four := [(1, Scenario.failing); (2, Scenario.failing);
               (3, Scenario.failing); (4, Scenario.failing)] in
  let before := (calls four Scenario.breaker tt).1 in
  let after := (calls (four ++ [(5, Scenario.failing)]) Scenario.breaker tt).1 in
  CircuitBreaker.state before = CircuitBreaker.CLOSED
  ∧ CircuitBreaker.failureCount before = 4
  ∧ CircuitBreaker.state after = CircuitBreaker.OPEN
  ∧ CircuitBreaker.nextAttempt after = 30005.
Proof.
  assert (Hf : always_fails Scenario.failing) by (intros []; by eexists _, _).
  apply (closed_breaker_opens_at_the_threshold
           [(1, Scenario.failing); (2, Scenario.failing);
            (3, Scenario.failing); (4, Scenario.failing)]
           5 Scenario.failing Scenario.breaker tt);
    [reflexivity | by repeat constructor | exact Hf | reflexivity].
Defined.

(** The breaker that has recorded one success in HALF_OPEN closes at the
    next success. *)
Lemma half_open_breaker_closes_at_the_threshold_witness :
  let after := (calls ([] ++ [(40001, Scenario.succeeding)])
                  Scenario.half_open_after_one_success tt).1 in
  CircuitBreaker.state after = CircuitBreaker.CLOSED
  ∧ CircuitBreaker.successCount after = 0.
Proof.
  assert (Hs : always_succeeds Scenario.succeeding) by (intros []; by eexists _, _).
  destruct (half_open_breaker_closes_at_the_threshold
              [] 40001 Scenario.succeeding Scenario.half_open_after_one_success tt)
    as (_ & _ & H1 & H2 & _);
    [reflexivity | constructor | exact Hs | reflexivity | ].
  split; [exact H1|exact H2].
Defined.

(** ** The breaker of the service *)

Lemma set_dbCircuitBreaker_same (w : World) :
  set_dbCircuitBreaker (dbCircuitBreaker w) w = w.
Proof. by destruct w. Qed.

(** X12: the breaker of the service counts every error of the claim
    transaction as a failure, the rejection of a user who is at the limit
    included.  When the count is one below the threshold, such a rejection
    opens the breaker (whether the caller is given the rejection or, the
    timer of the breaker having fired first, the timeout), and until
    [resetTimeout] has passed the fast path rejects every claim of every
    user with the breaker's error, without running the transaction. *)
Theorem limit_rejection_opens_the_breaker (now : Z) (late : bool)
    (request : ClaimVoucherRequest.t)
    (w : World) (user : Users.row) (rest : list Users.row) :
  let cb := dbCircuitBreaker w in
  CircuitBreaker.state cb = CircuitBreaker.CLOSED →
  CircuitBreaker.failureCount cb + 1
  = CircuitBreaker.failureThreshold (CircuitBreaker.options cb) →
  select_active_user (ClaimVoucherRequest.userId request) (db w) = user :: rest →
  Users.voucher_limit user ≤ Users.vouchers_claimed user →
  ∃ w',
    voucherService.processClaimImmediate now late request w
    = (Err (if late then PlainError "Circuit breaker timeout"
            else VoucherLimitExceeded "Voucher limit exceeded"), w')
    ∧ CircuitBreaker.state (dbCircuitBreaker w') = CircuitBreaker.OPEN
    ∧ db w' = db w
    ∧ ∀ now2 late2 request2,
        now2 < now + CircuitBreaker.resetTimeout (CircuitBreaker.options cb) →
        voucherService.processClaimImmediate now2 late2 request2 w'
        = (Err (PlainError "Circuit breaker is OPEN"), w').
Proof.
  intros cb Hst Hth Hsel Hlim.
  pose proof (processClaimImmediate_body_at_limit now request w user rest Hsel Hlim)
    as Hbody.
  apply transaction_err_unchanged in Hbody.
  eexists. split.
  { unfold voucherService.processClaimImmediate, CircuitBreaker.execute,
      CircuitBreaker.is_open, voucherService.raced. fold cb. rewrite Hst. simpl.
    rewrite Hbody. destruct late; reflexivity. }
  unfold CircuitBreaker.onFailure. simpl. fold cb.
  replace (CircuitBreaker.failureCount cb + 1
           >=? CircuitBreaker.failureThreshold (CircuitBreaker.options cb))
    with true by (symmetry; apply Z.geb_le; lia).
  simpl. split; [done|]. split; [done|].
  intros now2 late2 request2 Hlt.
  unfold voucherService.processClaimImmediate, CircuitBreaker.execute,
    CircuitBreaker.is_open. simpl.
  replace (now2 <? now + CircuitBreaker.resetTimeout (CircuitBreaker.options cb))
    with true by (symmetry; apply Z.ltb_lt; lia).
  done.
Qed.

(** User 5 is at the limit and has been rejected four times; the fifth
    rejection opens the breaker, and the claim of user 3, who has claimed
    nothing, is refused one second later. *)
Lemma limit_rejection_opens_the_breaker_witness :
  ∃ w',
    voucherService.processClaimImmediate 5 false (Scenario.request 5 "SUMMER2024" Scenario.r5)
      Example.four_rejections
    = (Err (VoucherLimitExceeded "Voucher limit exceeded"), w')
    ∧ voucherService.processClaimImmediate 1005 false
        (Scenario.request 3 "SUMMER2024" Scenario.r1) w'
      = (Err (PlainError "Circuit breaker is OPEN"), w').
Proof.
  destruct (limit_rejection_opens_the_breaker 5 false
              (Scenario.request 5 "SUMMER2024" Scenario.r5)
              Example.four_rejections Scenario.user5 [])
    as (w' & H & _ & _ & Hopen); [by vm_compute..|].
  exists w'. split; [exact H|]. apply Hopen. by vm_compute.
Defined.

(** ** The IP limiter *)

Section IPLimiter.
Import redis.
Context (ip : string) (windowSeconds : Z).

Lemma live_entry_live {V : Type} (now : Z) (e : V * option Z) :
  live_entry now e = None ↔ live now e = None.
Proof. unfold live_entry. by destruct (live now e). Qed.

Lemma gtb_bool_decide (count maxRequests : Z) :
  (count >? maxRequests) = negb (bool_decide (count ≤ maxRequests)).
Proof.
  destruct (decide (count ≤ maxRequests)).
  - rewrite bool_decide_eq_true_2 by done. rewrite Z.gtb_ltb. apply Z.ltb_ge. lia.
  - rewrite bool_decide_eq_false_2 by done. rewrite Z.gtb_ltb. apply Z.ltb_lt. lia.
Qed.

(** The first call of a window: the counter is created with the expiry of
    the window. *)
Lemma checkIPRateLimit_first (now maxRequests : Z) (w : World) :
  0 < windowSeconds →
  get now (ip_key ip) (kv w) = None →
  ∃ w', rateLimitService.checkIPRateLimit now ip maxRequests windowSeconds w
        = (Ok (bool_decide (1 ≤ maxRequests)), w')
        ∧ strings (kv w') !! ip_key ip
          = Some (PInt 1, Some (now + windowSeconds * 1000))
        ∧ only_redis w w'.
Proof.
  intros Hw Hget. unfold rateLimitService.checkIPRateLimit. cbv zeta.
  fold (ip_key ip). unfold bind at 1. unfold incr.
  assert (Hmiss : strings (kv w) !! ip_key ip ≫= live_entry now = None).
  { unfold get in Hget. destruct (strings (kv w) !! ip_key ip) as [e|]; [|done].
    simpl in *. by apply live_entry_live. }
  rewrite Hmiss. simpl. unfold bind, kv_write, ret. simpl.
  rewrite gtb_bool_decide.
  assert (Hexp : ∀ r : Redis,
            strings r !! ip_key ip = Some (PInt 1, None) →
            strings (expire now (ip_key ip) windowSeconds r) !! ip_key ip
            = Some (PInt 1, Some (now + windowSeconds * 1000))).
  { intros r Hr. unfold expire.
    replace (windowSeconds <=? 0) with false by (symmetry; apply Z.leb_gt; lia).
    simpl. rewrite Hr. simpl. by rewrite lookup_insert_eq. }
  destruct (bool_decide (1 ≤ maxRequests)); simpl;
    (eexists; split; [reflexivity|]; split; [|done]; simpl;
     apply Hexp; simpl; by rewrite lookup_insert_eq).
Qed.




End IPLimiter.


(** ** Bursts against the sliding window *)

Section SlidingBurst.
Import redis.
Context (userId maxRequests windowSeconds : Z) (Hw : 0 < windowSeconds).
Let key := rate_key userId.

Lemma filter_all {A : Type} (P : A → Prop) `{!∀ x, Decision (P x)} (l : list A) :
  Forall P l → filter P l = l.
Proof.
  induction 1 as [|x l Hx Hl IH]; [done|]. by rewrite filter_cons_True, IH.
Qed.

Lemma zput_entry (now : Z) (k : string) (z : zset) (r : Redis) :
  z ≠ [] →
  ∃ e, zsets (zput now k z r) !! k = Some (z, e) ∧ live now (z, e) = Some z.
Proof.
  destruct z as [|x z]; [done|]. intros _. unfold zput. simpl.
  rewrite lookup_insert_eq. eexists. split; [done|].
  destruct (zsets r !! k) as [[z0 e0]|]; simpl; [|done].
  destruct (live_entry now (z0, e0)) as [[z1 e1]|] eqn:Hl; [|done].
  apply live_entry_Some in Hl as [_ Hl]. apply Hl.
Qed.

Lemma expire_zset_entry (now : Z) (k : string) (z : zset) (e : option Z) (r : Redis) :
  zsets r !! k = Some (z, e) → live now (z, e) = Some z →
  zsets (expire now k windowSeconds r) !! k
  = Some (z, Some (now + windowSeconds * 1000)).
Proof.
  intros Hk Hl. unfold expire.
  replace (windowSeconds <=? 0) with false by (symmetry; apply Z.leb_gt; lia).
  simpl. rewrite Hk. simpl. unfold live_entry. rewrite Hl.
  by rewrite lookup_insert_eq.
Qed.

(** One call of the limiter: the reply and the record it leaves. *)
Lemma checkRateLimit_run (now : Z) (w : World) :
  let n := Z.of_nat (length (recorded now userId windowSeconds w)) in
  ∃ res w',
    rateLimitService.checkRateLimit now userId maxRequests windowSeconds w = (Ok res, w')
    ∧ (n < maxRequests
       ∧ res = {| RateLimitResult.allowed := true;
                  RateLimitResult.remainingRequests := maxRequests - n - 1;
                  RateLimitResult.resetTime := now + windowSeconds * 1000 |}
       ∨ maxRequests ≤ n
         ∧ ∃ score,
             lowest_score score (recorded_with_current now userId windowSeconds w)
             ∧ res = {| RateLimitResult.allowed := false;
                        RateLimitResult.remainingRequests := 0;
                        RateLimitResult.resetTime := score + windowSeconds * 1000 |})
    ∧ zsets (kv w') !! key
      = Some (recorded_with_current now userId windowSeconds w,
              Some (now + windowSeconds * 1000)).
Proof.
  intros n.
  destruct (checkRateLimit_pipeline now userId maxRequests windowSeconds (kv w) Hw)
    as [H1 H3].
  unfold rateLimitService.checkRateLimit, bind, kv_write, kv_read, ret.
  cbn [kv set_kv]. fold (rate_key userId). fold key. fold key in H1, H3.
  set (r1 := zremrangebyscore now key 0 (now - windowSeconds * 1000) (kv w)) in *.
  set (r3 := expire now key windowSeconds (zadd now key now (pretty now) r1)) in *.
  assert (Hn : zcard now key r1 = n).
  { unfold zcard, n, recorded. fold key. by rewrite H1. }
  assert (Hfinal : zget now key r3 = recorded_with_current now userId windowSeconds w).
  { unfold recorded_with_current, recorded. fold key. by rewrite H3, H1. }
  assert (Hentry : zsets r3 !! key
                   = Some (recorded_with_current now userId windowSeconds w,
                           Some (now + windowSeconds * 1000))).
  { unfold r3, zadd.
    destruct (zput_entry now key
                (filter (λ e : Z * string, e.2 ≠ pretty now) (zget now key r1)
                 ++ [(now, pretty now)]) r1) as (e & He & Hl);
      [by intros [_ ?]%app_nil|].
    rewrite (expire_zset_entry now key _ e _ He Hl). do 2 f_equal.
    unfold recorded_with_current, recorded. fold key. by rewrite H1. }
  rewrite Hn. destruct (n >=? maxRequests) eqn:Hge.
  - rewrite Z.geb_leb in Hge. apply Z.leb_le in Hge.
    eexists _, _. split; [reflexivity|]. cbn. split; [|done]. right. split; [done|].
    pose proof (zrange_first_lowest now key r3) as Hlow.
    destruct (zrange_first now key r3) as [[score member]|].
    + exists score. by rewrite <- Hfinal.
    + rewrite Hfinal in Hlow. unfold recorded_with_current in Hlow.
      by apply app_nil in Hlow as [_ ?].
  - rewrite Z.geb_leb in Hge. apply Z.leb_gt in Hge.
    eexists _, _. split; [reflexivity|]. cbn. split; [|done]. left. done.
Qed.

(** A call at [t] when the set holds the attempts [seen], all of them
    within the window of [t] and before [t]. *)
Lemma checkRateLimit_burst_step (seen : list Z) (first tl t : Z) (w : World) :
  zsets (kv w) !! key = Some (attempts seen, Some (tl + windowSeconds * 1000)) →
  first ∈ seen ++ [t] →
  Forall (λ s, first ≤ s ∧ s ≤ tl) seen →
  tl < t → first ≤ t → t < first + windowSeconds * 1000 →
  ∃ w',
    rateLimitService.checkRateLimit t userId maxRequests windowSeconds w
    = (Ok (burst_reply maxRequests windowSeconds first (length seen) t), w')
    ∧ zsets (kv w') !! key
      = Some (attempts (seen ++ [t]), Some (t + windowSeconds * 1000)).
Proof.
  intros Hk Hfirst Hdone Htl Hft Hlt.
  assert (Hget : zget t key (kv w) = attempts seen).
  { unfold zget. rewrite Hk. simpl. unfold live. simpl.
    assert (first ≤ tl ∨ seen = []) as [?| ->].
    { destruct seen as [|s seen']; [by right|left].
      apply Forall_cons in Hdone as [[? ?] _]. lia. }
    - by replace (tl + windowSeconds * 1000 <=? t) with false
        by (symmetry; apply Z.leb_gt; lia).
    - by destruct (_ <=? t). }
  assert (Hrec : recorded t userId windowSeconds w = attempts seen).
  { unfold recorded. fold key. rewrite Hget. apply filter_all.
    unfold attempts. apply Forall_fmap. eapply Forall_impl; [exact Hdone|].
    intros s [? ?]. simpl. lia. }
  assert (Hcur : recorded_with_current t userId windowSeconds w = attempts (seen ++ [t])).
  { unfold recorded_with_current. rewrite Hrec. unfold attempts at 2.
    rewrite fmap_app. f_equal. apply filter_all.
    unfold attempts. apply Forall_fmap. eapply Forall_impl; [exact Hdone|].
    intros s [? ?]. simpl. intros Heq%(inj pretty). lia. }
  destruct (checkRateLimit_run t w) as (res & w' & Hrun & Hres & Hentry).
  rewrite Hrec in Hres. rewrite Hcur in Hres, Hentry.
  assert (Hlen : Z.of_nat (length (attempts seen)) = Z.of_nat (length seen))
    by (unfold attempts; by rewrite length_fmap).
  rewrite Hlen in Hres.
  exists w'. split; [|done]. rewrite Hrun. do 2 f_equal. unfold burst_reply.
  destruct Hres as [[Hn ->]|(Hn & score & [Hin Hmin] & ->)].
  - by rewrite bool_decide_eq_true_2.
  - rewrite bool_decide_eq_false_2 by lia. do 2 f_equal.
    assert (Hscores : (attempts (seen ++ [t])).*1 = seen ++ [t]).
    { unfold attempts. rewrite <- list_fmap_compose. apply list_fmap_id. }
    rewrite Hscores in Hin, Hmin.
    assert (first ≤ score).
    { apply elem_of_app in Hin as [Hin|Hin%list_elem_of_singleton]; [|lia].
      rewrite Forall_forall in Hdone. by apply Hdone. }
    specialize (Hmin first Hfirst). lia.
Qed.

Lemma checkRateLimit_burst (later seen : list Z) (first tl : Z) (w : World) :
  zsets (kv w) !! key = Some (attempts seen, Some (tl + windowSeconds * 1000)) →
  first ∈ seen →
  Forall (λ s, first ≤ s ∧ s ≤ tl) seen →
  increasing tl later →
  Forall (λ t, t < first + windowSeconds * 1000) later →
  (each (λ t, rateLimitService.checkRateLimit t userId maxRequests windowSeconds)
     later w).1
  = imap (λ i t, Ok (burst_reply maxRequests windowSeconds first (length seen + i) t))
      later.
Proof.
  revert seen tl w. induction later as [|t later IH];
    intros seen tl w Hk Hfirst Hdone Hinc Hall; [done|].
  destruct Hinc as [Htl Hinc]. apply Forall_cons in Hall as [Ht Hall].
  assert (Hft : first ≤ t).
  { rewrite Forall_forall in Hdone. destruct (Hdone _ Hfirst). lia. }
  destruct (checkRateLimit_burst_step seen first tl t w Hk
              ltac:(apply elem_of_app; by left) Hdone Htl Hft Ht) as (w' & Hrun & Hk').
  simpl. rewrite Hrun.
  specialize (IH (seen ++ [t]) t w' Hk' ltac:(apply elem_of_app; by left)).
  destruct (each _ later w') as [rs w2]. simpl in *. rewrite IH; [| |done..].
  - f_equal; [by rewrite Nat.add_0_r|].
    apply imap_ext. intros i t' _. simpl. rewrite length_app. simpl.
    do 2 f_equal. lia.
  - apply Forall_app. split.
    + eapply Forall_impl; [exact Hdone|]. intros s [? ?]. simpl. lia.
    + apply Forall_singleton. lia.
Qed.

(** X14: a burst against the sliding window.  From a world without recorded
    attempts of the user, of the calls made at increasing instants before
    [windowSeconds] have passed since the first one, exactly the first
    [maxRequests] are admitted, the call number [i] (from 0) with
    [maxRequests - i - 1] remaining; every later call is refused with 0
    remaining and the reset instant of the first call, yet recorded. *)
Theorem sliding_window_admits_the_first_max_of_a_burst (now : Z) (later : list Z)
    (w : World) :
  zget now (rate_key userId) (kv w) = [] →
  increasing now later →
  Forall (λ t, t < now + windowSeconds * 1000) later →
  (each (λ t, rateLimitService.checkRateLimit t userId maxRequests windowSeconds)
     (now :: later) w).1
  = imap (λ i t, Ok (burst_reply maxRequests windowSeconds now i t)) (now :: later).
Proof.
  intros Hget Hinc Hall.
  assert (Hrec : recorded now userId windowSeconds w = []).
  { unfold recorded. by rewrite Hget. }
  assert (Hcur : recorded_with_current now userId windowSeconds w = attempts [now]).
  { unfold recorded_with_current. by rewrite Hrec. }
  destruct (checkRateLimit_run now w) as (res & w' & Hrun & Hres & Hentry).
  rewrite Hrec in Hres. rewrite Hcur in Hres, Hentry. simpl in Hres.
  assert (Hreply : res = burst_reply maxRequests windowSeconds now 0 now).
  { unfold burst_reply. destruct Hres as [[Hn ->]|(Hn & score & [Hin Hmin] & ->)].
    - by rewrite bool_decide_eq_true_2 by done.
    - rewrite bool_decide_eq_false_2 by (simpl; lia). do 2 f_equal.
      simpl in Hin. apply list_elem_of_singleton in Hin. lia. }
  simpl. rewrite Hrun, Hreply.
  pose proof (checkRateLimit_burst later [now] now now w' Hentry
                ltac:(left) ltac:(apply Forall_singleton; lia) Hinc Hall) as Hrest.
  destruct (each _ later w') as [rs w2]. simpl in *. by rewrite Hrest.
Qed.

End SlidingBurst.

(** With a ceiling of 2 per minute: three calls within the minute. *)
Lemma sliding_window_admits_the_first_max_of_a_burst_witness :
  (each (λ t, rateLimitService.checkRateLimit t 7 2 60) [1000; 30000; 60999]
     Scenario.fresh).1
  = [Ok {| RateLimitResult.allowed := true; RateLimitResult.remainingRequests := 1;
           RateLimitResult.resetTime := 61000 |};
     Ok {| RateLimitResult.allowed := true; RateLimitResult.remainingRequests := 0;
           RateLimitResult.resetTime := 90000 |};
     Ok {| RateLimitResult.allowed := false; RateLimitResult.remainingRequests := 0;
           RateLimitResult.resetTime := 61000 |}].
Proof.
  apply (sliding_window_admits_the_first_max_of_a_burst 7 2 60 ltac:(lia) 1000
           [30000; 60999] Scenario.fresh); [reflexivity|simpl; lia|].
  repeat constructor; lia.
Defined.

(** ** The address of the client *)

Lemma append_inj_l (a b c : string) : a +:+ b = a +:+ c → b = c.
Proof.
  induction a as [|x a IH]; [done|]. rewrite !append_cons. intros [= H]. by apply IH.
Qed.

Lemma getClientIp_forwarded (h : string) (req : http.Request) :
  http.first_segment h ≠ "" →
  rateLimit.getClientIp (forwarded h req) = http.first_segment h.
Proof.
  intros Hne. unfold rateLimit.getClientIp, http.or_else, http.truthy. simpl.
  by destruct (http.first_segment h).
Qed.

Lemma keeps_checkIPRateLimit_other (key : string) (now : Z) (ip : string) (m s : Z) :
  ip_key ip ≠ key →
  keeps_entry key (rateLimitService.checkIPRateLimit now ip m s).
Proof.
  intros Hk. unfold rateLimitService.checkIPRateLimit. cbv zeta. fold (ip_key ip).
  apply keeps_bind; [by apply keeps_incr|intros count].
  apply keeps_bind.
  - destruct (count =? 1); [|apply keeps_ret].
    apply keeps_kv_write. intros r0. by apply expire_other.
  - intros _. destruct (count >? m); apply keeps_ret.
Qed.

(** X15: the address the limiters count under is the first segment of the
    [X-Forwarded-For] header whenever the request carries one that is not
    empty; the address of the socket is not looked at then.  So requests
    from one socket that carry pairwise different headers, none counted
    before, are all passed on by the IP middleware, whatever its ceiling
    of at least 1. *)
Theorem ip_limiter_is_keyed_by_the_forwarded_header (base : http.Request)
    (hs : list (Z * string)) (maxRequests windowSeconds : Z) (w : World) :
  0 < windowSeconds → 1 ≤ maxRequests →
  Forall (λ c, http.first_segment c.2 ≠ "") hs →
  NoDup ((λ c, http.first_segment c.2) <$> hs) →
  Forall (λ c, strings (kv w) !! ip_key (http.first_segment c.2) = None) hs →
  Forall (λ c, rateLimit.getClientIp (forwarded c.2 base) = http.first_segment c.2) hs
  ∧ (each (λ c, rateLimit.ipRateLimitMiddleware maxRequests windowSeconds c.1
                  (forwarded c.2 base)) hs w).1
    = (λ _, Ok (rateLimit.next [])) <$> hs.
Proof.
  intros Hw Hmax Hne Hnd Hfresh. split.
  { eapply Forall_impl; [exact Hne|]. intros c Hc. by apply getClientIp_forwarded. }
  revert w Hne Hnd Hfresh.
  induction hs as [|[t h] hs IH]; intros w Hne Hnd Hfresh; [done|].
  apply Forall_cons in Hne as [Hh Hne]. simpl in Hh.
  apply Forall_cons in Hfresh as [Hf Hfresh]. simpl in Hf.
  rewrite fmap_cons in Hnd. apply NoDup_cons in Hnd as [Hnot Hnd]. simpl in Hnot.
  simpl. unfold rateLimit.ipRateLimitMiddleware at 1. cbv zeta.
  rewrite (getClientIp_forwarded h base Hh).
  destruct (checkIPRateLimit_first (http.first_segment h) windowSeconds t maxRequests w Hw)
    as (w' & Hrun & _ & _).
  { unfold redis.get. by rewrite Hf. }
  rewrite (bind_ok _ _ _ _ _ Hrun). rewrite bool_decide_eq_true_2 by done. simpl.
  specialize (IH w' Hne Hnd).
  destruct (each _ hs w') as [rs w2]. simpl in *. rewrite IH; [done|].
  rewrite Forall_forall in Hfresh. apply Forall_forall. intros c Hc.
  rewrite <- (Hfresh c Hc).
  eapply (keeps_checkIPRateLimit_other _ t (http.first_segment h)); [|exact Hrun].
  intros Heq%append_inj_l. apply Hnot. rewrite Heq.
  apply list_elem_of_fmap. by exists c.
Qed.

Lemma ip_limiter_is_keyed_by_the_forwarded_header_witness :
  (each (λ c, rateLimit.ipRateLimitMiddleware 1 60 c.1 (forwarded c.2 Example.request))
     [(1000, "203.0.113.1"); (1001, "203.0.113.2, 10.0.0.1"); (1002, "203.0.113.3")]
     Scenario.fresh).1
  = [Ok (rateLimit.next []); Ok (rateLimit.next []); Ok (rateLimit.next [])]
  ∧ (each (λ c, rateLimit.ipRateLimitMiddleware 1 60 c.1 Example.request)
       [(1000, ""); (1001, "")] Scenario.fresh).1
    = [Ok (rateLimit.next []);
       Ok (rateLimit.sent
             {| http.status := 429; http.headers := [];
                http.body := http.Failure "Rate limit exceeded"
                               (Some "Too many requests from this IP address")
                               None None |})].
Proof.
  split; [|by vm_compute].
  apply (ip_limiter_is_keyed_by_the_forwarded_header Example.request
           [(1000, "203.0.113.1"); (1001, "203.0.113.2, 10.0.0.1"); (1002, "203.0.113.3")]
           1 60 Scenario.fresh); [lia|lia|..].
  - repeat constructor; by vm_compute.
  - apply (bool_decide_unpack _). by vm_compute.
  - repeat constructor.
Defined.

(** ** The rate-limit middleware *)

Lemma ceil_div_1000_bound (x windowSeconds : Z) :
  x ≤ windowSeconds * 1000 →
  voucherService.ceil_div_1000 x ≤ windowSeconds
  ∧ (1 ≤ voucherService.ceil_div_1000 x ↔ 0 < x).
Proof.
  intros H1. unfold voucherService.ceil_div_1000.
  pose proof (Z.div_mod (- x) 1000 ltac:(lia)) as Hdm.
  pose proof (Z.mod_pos_bound (- x) 1000 ltac:(lia)) as Hm. lia.
Qed.

(** The middleware for a request that carries a user id. *)
Lemma rateLimitMiddleware_authenticated (maxRequests windowSeconds now now' userId : Z)
    (req : http.Request) (w : World) :
  http.userId req = Some userId → userId ≠ 0 →
  rateLimit.rateLimitMiddleware maxRequests windowSeconds now now' req w
  = (let* result := rateLimitService.checkRateLimit now userId maxRequests
                      windowSeconds in
     let headers :=
       [("X-RateLimit-Limit", maxRequests);
        ("X-RateLimit-Remaining", RateLimitResult.remainingRequests result);
        ("X-RateLimit-Reset", RateLimitResult.resetTime result)] in
     if negb (RateLimitResult.allowed result) then
       let retryAfter :=
         voucherService.ceil_div_1000 (RateLimitResult.resetTime result - now') in
       ret (rateLimit.sent
              {| http.status := 429;
                 http.headers := headers ++ [("Retry-After", retryAfter)];
                 http.body :=
                   http.Failure "Rate limit exceeded"
                     (Some ("Too many requests. Please try again in "
                            +:+ pretty retryAfter +:+ " seconds"))
                     None (Some retryAfter) |})
     else ret (rateLimit.next headers)) w.
Proof.
  intros Huser Hne. unfold rateLimit.rateLimitMiddleware. rewrite Huser.
  by destruct userId.
Qed.

(** X16: the rate-limit middleware decides on the attempts of the window.
    With [n] of them on record, a request of an authenticated user is
    passed on iff [n < maxRequests], with the three [X-RateLimit] headers;
    otherwise it is answered 429.  The reset instant it announces lies
    after the instant [now] of the check and at most one window after it
    (the recorded scores being instants, not negative).  [Retry-After] is
    computed from a second reading of the clock, at [now']: it is the
    number of seconds from [now'] to the reset, rounded up, at most the
    window, and at least 1 only while [now'] is before the reset; when the
    clock has reached the reset in between, the header is 0 or negative.
    Only Redis is touched. *)
Theorem rateLimitMiddleware_decides_on_the_window
    (maxRequests windowSeconds now now' userId : Z)
    (req : http.Request) (w : World) :
  0 < windowSeconds →
  http.userId req = Some userId → userId ≠ 0 →
  Forall (λ e : Z * string, 0 ≤ e.1) (redis.zget now (rate_key userId) (kv w)) →
  now ≤ now' →
  let n := Z.of_nat (length (recorded now userId windowSeconds w)) in
  ∃ o w',
    rateLimit.rateLimitMiddleware maxRequests windowSeconds now now' req w = (Ok o, w')
    ∧ only_redis w w'
    ∧ (n < maxRequests →
       o = rateLimit.next
             [("X-RateLimit-Limit", maxRequests);
              ("X-RateLimit-Remaining", maxRequests - n - 1);
              ("X-RateLimit-Reset", now + windowSeconds * 1000)])
    ∧ (maxRequests ≤ n →
       ∃ retryAfter reset,
         now < reset ∧ reset ≤ now + windowSeconds * 1000
         ∧ retryAfter = voucherService.ceil_div_1000 (reset - now')
         ∧ retryAfter ≤ windowSeconds
         ∧ (1 ≤ retryAfter ↔ now' < reset)
         ∧ o = rateLimit.sent
                 {| http.status := 429;
                    http.headers :=
                      [("X-RateLimit-Limit", maxRequests);
                       ("X-RateLimit-Remaining", 0);
                       ("X-RateLimit-Reset", reset);
                       ("Retry-After", retryAfter)];
                    http.body :=
                      http.Failure "Rate limit exceeded"
                        (Some ("Too many requests. Please try again in "
                               +:+ pretty retryAfter +:+ " seconds"))
                        None (Some retryAfter) |}).
Proof.
  intros Hw Huser Hne Hpos Hle n.
  destruct (checkRateLimit_run userId maxRequests windowSeconds Hw now w)
    as (res & w' & Hrun & Hres & _).
  pose proof (frames_checkRateLimit only_redis _ _ _ _ _ _ _ Hrun) as Hframe.
  fold n in Hres.
  rewrite (rateLimitMiddleware_authenticated _ _ _ _ userId) by done.
  rewrite (bind_ok _ _ _ _ _ Hrun). cbv zeta.
  destruct Hres as [[Hn ->]|(Hn & score & [Hin Hmin] & ->)]; simpl.
  - eexists _, _. split; [reflexivity|]. split; [done|]. split; [done|lia].
  - eexists _, _. split; [reflexivity|]. split; [done|]. split; [lia|]. intros _.
    assert (Hscore : now - windowSeconds * 1000 < score).
    { unfold recorded_with_current in Hin. rewrite fmap_app in Hin.
      apply elem_of_app in Hin as [Hin|Hin%list_elem_of_singleton]; [|simpl in Hin; lia].
      apply list_elem_of_fmap in Hin as ([s m] & -> & Hin%list_elem_of_filter).
      destruct Hin as [_ Hin]. unfold recorded in Hin.
      apply list_elem_of_filter in Hin as [Hout Hin]. simpl in *.
      rewrite Forall_forall in Hpos. specialize (Hpos _ Hin). simpl in Hpos. lia. }
    assert (Hnow : score ≤ now).
    { apply Hmin. unfold recorded_with_current. rewrite fmap_app. apply elem_of_app.
      right. simpl. left. }
    destruct (ceil_div_1000_bound (score + windowSeconds * 1000 - now') windowSeconds)
      as [Hmax Hone]; [lia|].
    eexists _, _. split_and!; [| |reflexivity|exact Hmax| |reflexivity]; [lia|lia|].
    rewrite Hone. lia.
Qed.

(** One attempt of user 7 at instant 1000 is on record; with a ceiling of
    1 the request at instant 5000 is refused, with [Retry-After: 56] when
    the clock is read again at once, and with [Retry-After: 0] when it is
    read again at the reset, the instant 61000. *)
Lemma rateLimitMiddleware_decides_on_the_window_witness :
  (∃ retryAfter reset,
     retryAfter = 56 ∧ reset = 61000
     ∧ (rateLimit.rateLimitMiddleware 1 60 5000 5000 Example.request
          Scenario.one_attempt).1
       = Ok (rateLimit.sent
               {| http.status := 429;
                  http.headers :=
                    [("X-RateLimit-Limit", 1); ("X-RateLimit-Remaining", 0);
                     ("X-RateLimit-Reset", reset); ("Retry-After", retryAfter)];
                  http.body :=
                    http.Failure "Rate limit exceeded"
                      (Some ("Too many requests. Please try again in "
                             +:+ pretty retryAfter +:+ " seconds"))
                      None (Some retryAfter) |}))
  ∧ (rateLimit.rateLimitMiddleware 1 60 5000 61000 Example.request
       Scenario.one_attempt).1
    = Ok (rateLimit.sent
            {| http.status := 429;
               http.headers :=
                 [("X-RateLimit-Limit", 1); ("X-RateLimit-Remaining", 0);
                  ("X-RateLimit-Reset", 61000); ("Retry-After", 0)];
               http.body :=
                 http.Failure "Rate limit exceeded"
                   (Some "Too many requests. Please try again in 0 seconds")
                   None (Some 0) |}).
Proof.
  split; [|by vm_compute].
  destruct (rateLimitMiddleware_decides_on_the_window 1 60 5000 5000 7 Example.request
              Scenario.one_attempt)
    as (o & w' & Hrun & _ & _ & Hrej);
    [lia | reflexivity | lia | by vm_compute; repeat constructor | lia |].
  destruct Hrej as (retryAfter & reset & _ & _ & _ & _ & _ & ->); [by vm_compute|].
  rewrite Hrun in *. vm_compute in Hrun.
  eexists _, _. split; [|split]; [| |reflexivity].
  - by injection Hrun.
  - by injection Hrun.
Defined.

(** ** The error handler *)

(** X17: the error handler answers every error with the status its class
    declares, and an error of a [VoucherError] class with the code the class
    declares and its own message; any other error is answered 500 without
    a code, and in production without its message.  The headers already
    set are kept. *)
Theorem errorHandler_answers_with_the_declared_status (production : bool)
    (headers : list (string * Z)) (e : error) :
  http.status (errorHandler production headers e) = statusCode e
  ∧ http.headers (errorHandler production headers e) = headers
  ∧ ∃ title,
      http.body (errorHandler production headers e)
      = if is_voucher_error e
        then http.Failure title (Some (message_of e)) (Some (code e)) None
        else http.Failure "Internal server error"
               (Some (if production then "An unexpected error occurred" else message_of e))
               None None.
Proof. destruct e; simpl; split_and!; try done; by eexists. Qed.

(** ** The claim route *)

Section ClaimRoute.
Context (now1 now1' now2 now2' : Z) (late production : bool) (uuid : string)
  (req : http.Request).
Context (userId : Z) (voucherCode : string).
Context (Huser : http.userId req = Some userId) (Hid : userId ≠ 0).
Context (Hcode : http.truthy (http.voucherCode req) = Some voucherCode).
Let key := http.or_else (http.idempotency_key req) uuid.

(** The middleware passes the request on when fewer than 10 attempts are
    on record; the record it leaves lives until [now1 + 60000]. *)
Lemma postClaim_passed (w : World) :
  let n := Z.of_nat (length (recorded now1 userId 60 w)) in
  n < 10 →
  ∃ w1,
    rateLimit.rateLimitMiddleware 10 60 now1 now1' req w
    = (Ok (rateLimit.next (passed_headers 10 (10 - n - 1) (now1 + 60 * 1000))), w1)
    ∧ only_redis w w1
    ∧ (∀ k, cached_result now2 k w1 = cached_result now2 k w)
    ∧ zsets (kv w1) !! rate_key userId
      = Some (recorded_with_current now1 userId 60 w, Some (now1 + 60 * 1000)).
Proof.
  intros n Hn.
  destruct (checkRateLimit_run userId 10 60 ltac:(lia) now1 w)
    as (res & w1 & Hrun & Hres & Hentry).
  fold n in Hres. destruct Hres as [[_ ->]|[? _]]; [|lia].
  exists w1. split_and!; [|by eapply (frames_checkRateLimit only_redis)| |done].
  - rewrite (rateLimitMiddleware_authenticated _ _ _ _ userId) by done.
    by rewrite (bind_ok _ _ _ _ _ Hrun).
  - intros k. apply cached_result_ext. by eapply keeps_checkRateLimit.
Qed.

(** X18: on the claim route a result held by the idempotency cache is
    replayed only through the rate-limit middleware.  While fewer than 10
    attempts of the user are on record, the request is answered with the
    cached result (200 when it is a success, 400 otherwise, so the
    [limit_reached] result of the worker is a 400), the database is left as
    it was, and the replay itself has been recorded as an attempt.  With 10
    attempts on record the cached result is not replayed: the answer is
    429. *)
Theorem postClaim_replays_under_the_limiter (w : World) (r : ClaimVoucherResponse.t) :
  cached_result now2 key w = Some r →
  let n := Z.of_nat (length (recorded now1 userId 60 w)) in
  let done := routes.postClaim now1 now1' now2 now2' late production uuid req w in
  (n < 10 →
   done.1 = {| http.status := if ClaimVoucherResponse.success r then 200 else 400;
               http.headers := passed_headers 10 (10 - n - 1) (now1 + 60 * 1000);
               http.body := http.ClaimResult r |}
   ∧ db done.2 = db w
   ∧ redis.zget now1 (rate_key userId) (kv done.2)
     = recorded_with_current now1 userId 60 w)
  ∧ (10 ≤ n → http.status done.1 = 429 ∧ db done.2 = db w).
Proof.
  intros Hhit n. cbv zeta. split.
  - intros Hn. destruct (postClaim_passed w Hn) as (w1 & Hmw & Hframe & Hcache & Hentry).
    unfold routes.postClaim. rewrite Hmw. unfold routes.answered, routes.claim.
    rewrite Hcode. cbv zeta. fold key.
    erewrite bind_ok; cycle 1.
    { apply claimVoucher_cache_hit. simpl. by rewrite Hcache. }
    simpl. split; [done|]. split; [by destruct Hframe|].
    unfold redis.zget. rewrite Hentry. simpl. unfold live. simpl.
    by replace (now1 + 60 * 1000 <=? now1) with false by (symmetry; apply Z.leb_gt; lia).
  - intros Hn.
    destruct (checkRateLimit_run userId 10 60 ltac:(lia) now1 w)
      as (res & w1 & Hrun & Hres & _).
    fold n in Hres. destruct Hres as [[? _]|(_ & score & _ & ->)]; [lia|].
    unfold routes.postClaim.
    rewrite (rateLimitMiddleware_authenticated _ _ _ _ userId) by done.
    rewrite (bind_ok _ _ _ _ _ Hrun). simpl. split; [done|].
    by destruct (frames_checkRateLimit only_redis _ _ _ _ _ _ _ Hrun).
Qed.

(** X19: on the claim route every request is counted twice against the
    ceiling of 10 per minute: by the middleware, and again by the
    coordinator, which finds the record the middleware has just made.  A
    request that the middleware has passed on (fewer than 10 attempts on
    record) and whose result is not cached is refused by the coordinator
    with RATE_LIMIT_EXCEEDED, answered 429, as soon as the coordinator
    counts 10 records, the one of the middleware among them; the database
    is left as it was. *)
Theorem postClaim_counts_the_request_twice (w : World) :
  cached_result now2 key w = None →
  now2 < now1 + 60 * 1000 →
  let n := Z.of_nat (length (recorded now1 userId 60 w)) in
  n < 10 →
  10 ≤ Z.of_nat (length (seen_by_coordinator now1 now2 userId w)) →
  let done := routes.postClaim now1 now1' now2 now2' late production uuid req w in
  (now1, pretty now1) ∈ seen_by_coordinator now1 now2 userId w
  ∧ (∃ message,
       done.1 = {| http.status := 429;
                   http.headers := passed_headers 10 (10 - n - 1) (now1 + 60 * 1000);
                   http.body := http.Failure "Rate limit exceeded" (Some message)
                                  (Some "RATE_LIMIT_EXCEEDED") None |})
  ∧ db done.2 = db w.
Proof.
  intros Hmiss Hlive n Hn Hseen. cbv zeta. split.
  { unfold seen_by_coordinator, recorded_with_current.
    rewrite filter_app. apply elem_of_app. right.
    rewrite filter_cons_True by (simpl; lia). left. }
  destruct (postClaim_passed w Hn) as (w1 & Hmw & Hframe & Hcache & Hentry).
  assert (Hrec : recorded now2 userId 60 w1 = seen_by_coordinator now1 now2 userId w).
  { unfold recorded, seen_by_coordinator, redis.zget. rewrite Hentry. simpl.
    unfold live. simpl.
    by replace (now1 + 60 * 1000 <=? now2) with false by (symmetry; apply Z.leb_gt; lia). }
  destruct (checkRateLimit_run userId 10 60 ltac:(lia) now2 w1)
    as (res & w2 & Hrun & Hres & _).
  rewrite Hrec in Hres. destruct Hres as [[? _]|(_ & score & _ & ->)]; [lia|].
  pose proof (frames_checkRateLimit only_redis _ _ _ _ _ _ _ Hrun) as Hframe2.
  assert (Hclaim : ∀ request,
            ClaimVoucherRequest.userId request = userId →
            ClaimVoucherRequest.idempotencyKey request = key →
            ∃ message,
              voucherService.claimVoucher now2 now2' late request w1
              = (Err (RateLimitExceeded message), w2)).
  { intros request Hu Hk. unfold voucherService.claimVoucher. cbv zeta.
    rewrite Hu, Hk.
    rewrite (bind_ok _ _ _ _ _ (getClaimResult_run now2 key w1)).
    rewrite Hcache, Hmiss. rewrite (bind_ok _ _ _ _ _ Hrun). simpl. by eexists. }
  unfold routes.postClaim. rewrite Hmw. unfold routes.answered, routes.claim.
  rewrite Hcode. cbv zeta. fold key. rewrite Huser. simpl.
  edestruct Hclaim as [message Hc]; [| |erewrite bind_err by exact Hc]; [done..|].
  simpl. split; [by eexists|].
  destruct Hframe as (H1 & _), Hframe2 as (H2 & _). by rewrite H2, H1.
Qed.

End ClaimRoute.

(** The queued path has cached [limit_reached] for the request id [k1]; the
    request is answered 400 with that result. *)
Lemma postClaim_replays_under_the_limiter_witness :
  (routes.postClaim 2000 2000 2001 2001 false true Scenario.r8 Example.request
     Example.limit_reached_cached).1
  = {| http.status := 400;
       http.headers := passed_headers 10 9 62000;
       http.body := http.ClaimResult limit_reached_result |}.
Proof.
  pose proof (postClaim_replays_under_the_limiter 2000 2000 2001 2001 false true Scenario.r8
                Example.request
                7 "SUMMER2024" eq_refl ltac:(lia) eq_refl
                Example.limit_reached_cached limit_reached_result) as H.
  cbv zeta in H. destruct H as [H _]; [by vm_compute|].
  destruct H as (H & _); [by vm_compute|].
  etrans; [exact H|]. by vm_compute.
Defined.

(** Nine attempts are on record; the middleware passes the tenth on with
    0 remaining, and the coordinator refuses it. *)
Lemma postClaim_counts_the_request_twice_witness :
  ∃ message,
    (routes.postClaim 10000 10000 10001 10001 false true Scenario.r8 Example.request
       Example.nine_attempts).1
    = {| http.status := 429;
         http.headers := passed_headers 10 0 70000;
         http.body := http.Failure "Rate limit exceeded" (Some message)
                        (Some "RATE_LIMIT_EXCEEDED") None |}.
Proof.
  pose proof (postClaim_counts_the_request_twice 10000 10000 10001 10001 false true Scenario.r8
                Example.request
                7 "SUMMER2024" eq_refl ltac:(lia) eq_refl Example.nine_attempts) as H.
  cbv zeta in H.
  destruct H as (_ & (message & H) & _); [by vm_compute|lia|by vm_compute..|].
  exists message. etrans; [exact H|]. by vm_compute.
Defined.

(** ** The refund route *)

Lemma committed_refund_claims (now claimId : Z) (reason : string)
    (adminId : option Z) (w w' : World) (u : unit) :
  voucherService.refundVoucher now claimId reason adminId w = (Ok u, w') →
  voucher_claims (db w')
  = map (λ c, if VoucherClaims.id c =? claimId
              then VoucherClaims.set_refunded now adminId reason c else c)
      (voucher_claims (db w)).
Proof.
  unfold voucherService.refundVoucher, transaction.
  destruct (voucherService.refundVoucher_body now claimId reason adminId w)
    as [[u0|e] w0] eqn:H; intros [= <- <-].
  unfold voucherService.refundVoucher_body in H. rewrite bind_query in H.
  destruct (select_claim claimId (db w)) as [|claim rest]; [done|].
  destruct (bool_decide (VoucherClaims.status claim = refunded)); [done|].
  apply bind_ok_inv in H as (? & w1 & (d1 & Hd1 & ->)%exec_ok_inv & H).
  apply bind_ok_inv in H as (? & w2 & (d2 & Hd2 & ->)%exec_ok_inv & H).
  apply bind_ok_inv in H as (? & w3 & Hcode & H).
  apply bind_ok_inv in H as (? & w4 & (d4 & Hd4 & ->)%exec_ok_inv & H).
  assert (Hdb : db w0 = d4).
  { unfold cacheService.invalidateUserCache, bind, kv_read, kv_write in H.
    cbv zeta in H. by injection H as _ <-. }
  rewrite Hdb. injection Hd4 as <-. simpl in *.
  unfold update_claim_refunded in Hd1.
  destruct (update_where _ _ _ (voucher_claims (db w))) as [cs|] eqn:Hcs; [|done].
  destruct (refunded_by_fkey adminId claimId (db w)); [|done].
  injection Hd1 as <-. apply update_where_Some in Hcs as ->.
  unfold update_user_claimed_decr in Hd2. simpl in Hd2.
  destruct (update_where _ _ _ (users (db w))) as [us|] eqn:Hus; [|done].
  injection Hd2 as <-. simpl in *.
  destruct (VoucherClaims.voucher_code_id claim) as [vid|].
  - destruct (vid =? 0); [by injection Hcode as _ <-|].
    apply exec_ok_inv in Hcode as (d3 & Hd3 & ->).
    unfold update_voucher_usage_decr in Hd3. simpl in Hd3.
    destruct (update_where _ _ _ (voucher_codes (db w))) as [vs|]; [|done].
    by injection Hd3 as <-.
  - by injection Hcode as _ <-.
Qed.

(** X20: the refund route, for a request that carries a claim id and a
    reason, on a database whose users and codes satisfy their check
    constraints.  A claim that does not exist or is already refunded is
    answered 500 (in production without the reason), and nothing changes;
    any other claim is refunded and answered 200, and the refunded row
    carries no [refunded_by].  Who sends the request plays no part: the
    handler reads the claim id and the reason only. *)
Theorem postRefund_outcomes (now : Z) (production : bool) (req : http.Request)
    (claimId : Z) (reason : string) (w : World) :
  http.claimId req = Some claimId → claimId ≠ 0 →
  http.truthy (http.reason req) = Some reason →
  Forall (λ u, Users.check u = true) (users (db w)) →
  Forall (λ v, VoucherCodes.check v = true) (voucher_codes (db w)) →
  let failed message :=
    ({| http.status := 500; http.headers := [];
        http.body := http.Failure "Internal server error"
                       (Some (if production then "An unexpected error occurred"
                              else message)) None None |}, w) in
  match select_claim claimId (db w) with
  | [] => routes.postRefund now production req w = failed "Claim not found"
  | claim :: _ =>
      if bool_decide (VoucherClaims.status claim = refunded) then
        routes.postRefund now production req w = failed "Claim already refunded"
      else
        ∃ w', routes.postRefund now production req w
              = ({| http.status := 200; http.headers := [];
                    http.body := http.Success "Voucher refunded successfully" |}, w')
              ∧ Forall (λ c, VoucherClaims.id c = claimId →
                             VoucherClaims.status c = refunded
                             ∧ VoucherClaims.refunded_by c = None)
                  (voucher_claims (db w'))
  end.
Proof.
  intros Hclaim Hne Hreason Hu Hv failed.
  pose proof (refundVoucher_outcome now claimId reason None w Hu Hv
                ltac:(by intros ? [=])) as Hout.
  assert (Hroute : routes.postRefund now production req w
                   = routes.answered production []
                       (voucherService.refundVoucher now claimId reason None;;
                        ret {| http.status := 200; http.headers := [];
                               http.body := http.Success "Voucher refunded successfully" |})
                       w).
  { unfold routes.postRefund, routes.refund. rewrite Hclaim, Hreason.
    by replace (claimId =? 0) with false by (symmetry; apply Z.eqb_neq; lia). }
  rewrite Hroute. unfold routes.answered.
  destruct (select_claim claimId (db w)) as [|claim rest].
  - by rewrite (bind_err _ _ _ _ _ Hout).
  - destruct (bool_decide (VoucherClaims.status claim = refunded)).
    + by rewrite (bind_err _ _ _ _ _ Hout).
    + destruct Hout as [w' Hout]. exists w'. rewrite (bind_ok _ _ _ _ _ Hout).
      split; [done|]. rewrite (committed_refund_claims _ _ _ _ _ _ _ Hout).
      apply Forall_forall. intros c' Hin.
      apply list_elem_of_In, in_map_iff in Hin as (c & <- & _).
      destruct (VoucherClaims.id c =? claimId) eqn:Hid; [done|].
      apply Z.eqb_neq in Hid. done.
Qed.

(** User 4, who is not an admin, refunds the claim of user 3. *)
Lemma postRefund_outcomes_witness :
  ∃ w', routes.postRefund 3000 true Example.refund_request Scenario.happy_path
        = ({| http.status := 200; http.headers := [];
              http.body := http.Success "Voucher refunded successfully" |}, w')
        ∧ claimed_of 3 (db Scenario.happy_path) = [1]
        ∧ Forall (λ c, VoucherClaims.id c = 1 →
                       VoucherClaims.status c = refunded
                       ∧ VoucherClaims.refunded_by c = None)
            (voucher_claims (db w')).
Proof.
  pose proof (postRefund_outcomes 3000 true Example.refund_request 1 "changed my mind"
                Scenario.happy_path eq_refl ltac:(lia) eq_refl) as H.
  destruct H as (w' & H1 & H2); [by vm_compute; repeat constructor..|].
  exists w'. split; [exact H1|]. split; [by vm_compute|exact H2].
Defined.

(** ** The functions of the schema *)

Lemma length_filter_impl {A : Type} (P Q : A → Prop) `{!∀ x, Decision (P x)}
    `{!∀ x, Decision (Q x)} (l : list A) :
  (∀ x, P x → Q x) → (length (filter P l) ≤ length (filter Q l))%nat.
Proof.
  intros HPQ. induction l as [|x l IH]; [done|].
  destruct (decide (P x)) as [HP|HP].
  - rewrite (filter_cons_True P) by done.
    rewrite (filter_cons_True Q) by auto. simpl. lia.
  - rewrite (filter_cons_False P) by done.
    destruct (decide (Q x)).
    + rewrite (filter_cons_True Q) by done. simpl. lia.
    + by rewrite (filter_cons_False Q) by done.
Qed.

Lemma length_remove_dups {A : Type} `{!EqDecision A} (l : list A) :
  (length (remove_dups l) ≤ length l)%nat.
Proof.
  induction l as [|x l IH]; simpl; [done|].
  destruct (decide_rel elem_of x l); simpl; lia.
Qed.

Lemma length_omap {A B : Type} (f : A → option B) (l : list A) :
  (length (omap f l) ≤ length l)%nat.
Proof.
  induction l as [|x l IH]; [done|]. csimpl. destruct (f x); csimpl; lia.
Qed.

(** X21: a user is flagged as suspicious only with at least four claims
    in the last hour, whatever their status: six claims in ten minutes, or
    claims from four addresses or four devices. *)
Theorem suspicious_activity_needs_four_claims_in_the_hour (now p_user_id : Z) (d : DB) :
  detect_suspicious_activity now p_user_id d = true →
  4 ≤ get_user_claim_rate now p_user_id 60 d.
Proof.
  unfold detect_suspicious_activity, get_user_claim_rate. cbv zeta.
  destruct (_ >? 5) eqn:H10.
  - intros _. rewrite Z.gtb_ltb in H10. apply Z.ltb_lt in H10.
    assert (length (claims_since now p_user_id 10 d)
            ≤ length (claims_since now p_user_id 60 d))%nat; [|lia].
    apply length_filter_impl. intros c [? ?]. split; [done|lia].
  - destruct (_ >? 3) eqn:Hip.
    + intros _. rewrite Z.gtb_ltb in Hip. apply Z.ltb_lt in Hip.
      pose proof (length_remove_dups
                    (VoucherClaims.ip_address <$> claims_since now p_user_id 60 d)) as Hle.
      rewrite length_fmap in Hle. lia.
    + destruct (Z.of_nat (length (remove_dups (omap _ _))) >? 3) eqn:Hdev; [|done].
      intros _. rewrite Z.gtb_ltb in Hdev. apply Z.ltb_lt in Hdev.
      pose proof (length_remove_dups
                    (omap VoucherClaims.device_id (claims_since now p_user_id 60 d))) as Hle.
      pose proof (length_omap VoucherClaims.device_id
                    (claims_since now p_user_id 60 d)) as Hle'.
      lia.
Qed.

Lemma suspicious_activity_needs_four_claims_in_the_hour_witness :
  detect_suspicious_activity 4100000 3 Example.four_addresses = true
  ∧ 4 ≤ get_user_claim_rate 4100000 3 60 Example.four_addresses.
Proof.
  assert (H : detect_suspicious_activity 4100000 3 Example.four_addresses = true)
    by (by vm_compute).
  split; [exact H|].
  apply (suspicious_activity_needs_four_claims_in_the_hour 4100000 3
           Example.four_addresses H).
Defined.

(** ** What an answer of the coordinator implies *)

Ltac eligible_field :=
  first [ done | lia | by intros ? [=]
        | intros ? [= <-]; first [lia|done]
        | intros ? [= <-] ?; first [done|assumption|by right] ].

(** A code that the coordinator's check accepts is eligible for the
    user. *)
Lemma isVoucherCodeValid_eligible (now userId : Z) (row : VoucherCodes.row) :
  voucherService.isVoucherCodeValid now
    {| VoucherCode.id := VoucherCodes.id row;
       VoucherCode.code := VoucherCodes.code row;
       VoucherCode.isActive := VoucherCodes.is_active row;
       VoucherCode.isUsed := VoucherCodes.is_used row;
       VoucherCode.usageLimit := VoucherCodes.usage_limit row;
       VoucherCode.usageCount := VoucherCodes.usage_count row;
       VoucherCode.validFrom := VoucherCodes.valid_from row;
       VoucherCode.expiresAt := VoucherCodes.expires_at row;
       VoucherCode.allowedUserIds := VoucherCodes.allowed_user_ids row |} userId = true
  → eligible now userId row.
Proof.
  unfold voucherService.isVoucherCodeValid, eligible. simpl.
  destruct (VoucherCodes.is_active row); simpl; [|done].
  rewrite Z.geb_leb.
  destruct (Z.leb_spec (VoucherCodes.usage_limit row) (VoucherCodes.usage_count row))
    as [Hc|Hc]; [done|].
  destruct (VoucherCodes.valid_from row) as [f|];
    [rewrite Z.gtb_ltb; destruct (Z.ltb_spec now f) as [Hf|Hf]; [done|]|];
    (destruct (VoucherCodes.expires_at row) as [x|];
     [destruct (Z.ltb_spec x now) as [Hx|Hx]; [done|]|]);
    (destruct (VoucherCodes.allowed_user_ids row) as [[|i ids]|];
     [|rewrite bool_decide_eq_true|];
     intros Hin; split_and!; eligible_field).
Qed.

(** X22: the coordinator answers a request that is not in the idempotency
    cache only after every check has passed: fewer than 10 attempts of the
    user were on record, the code is well formed, and its row in the
    database is eligible for the user at that instant (active, below its
    usage limit, within [valid_from] and [expires_at], and open to the
    user); the answer is then [success] or [pending]. *)
Theorem claimVoucher_answers_only_after_every_check (now reread : Z) (late : bool)
    (request : ClaimVoucherRequest.t) (w w' : World) (r : ClaimVoucherResponse.t) :
  let userId := ClaimVoucherRequest.userId request in
  let voucherCode := ClaimVoucherRequest.voucherCode request in
  cached_result now (ClaimVoucherRequest.idempotencyKey request) w = None →
  voucherService.claimVoucher now reread late request w = (Ok r, w') →
  Z.of_nat (length (recorded now userId 60 w)) < 10
  ∧ voucherService.isValidVoucherCodeFormat voucherCode = true
  ∧ (∃ row rest, select_voucher_code voucherCode (db w) = row :: rest
                 ∧ eligible now userId row)
  ∧ ClaimVoucherResponse.success r = true
  ∧ (ClaimVoucherResponse.status r = Some ClaimStatus.success
     ∨ ClaimVoucherResponse.status r = Some ClaimStatus.pending).
Proof.
  intros userId voucherCode Hmiss H.
  unfold voucherService.claimVoucher in H. cbv zeta in H.
  erewrite bind_ok in H by apply getClaimResult_run. rewrite Hmiss in H.
  apply bind_ok_inv in H as (rateLimit & wa & Ha & H).
  pose proof (frames_checkRateLimit only_redis _ _ _ _ _ _ _ Ha) as Fa.
  destruct (RateLimitResult.allowed rateLimit) eqn:Hallowed; [|done]. simpl in H.
  assert (Hn : Z.of_nat (length (recorded now userId 60 w)) < 10).
  { destruct (checkRateLimit_run userId 10 60 ltac:(lia) now w)
      as (res & w1 & Hrun & Hres & _).
    unfold userId in Hrun. rewrite Hrun in Ha. injection Ha as -> _.
    destruct Hres as [[? _]|(_ & score & _ & ->)]; [done|done]. }
  apply bind_ok_inv in H as (ipAllowed & wb & Hb & H).
  pose proof (frames_checkIPRateLimit only_redis _ _ _ _ _ _ _ Hb) as Fb.
  destruct (negb _); [done|].
  apply bind_ok_inv in H as (cachedCount & wc & Hc & H).
  pose proof (frames_getUserVoucherCount only_redis _ _ _ _ _ Hc) as Fc.
  apply bind_ok_inv in H as (? & wd & Hd & H).
  assert (Fd : only_redis wc wd).
  { destruct cachedCount as [c|]; [|by injection Hd as _ <-].
    apply bind_ok_inv in Hd as (user & wu & Hu & Hd).
    pose proof (frames_getUser only_redis _ _ _ _ _ Hu) as Fu.
    destruct (_ >=? _); [done|]. by injection Hd as _ <-. }
  destruct (voucherService.isValidVoucherCodeFormat _) eqn:Hformat; [|done].
  simpl in H.
  apply bind_ok_inv in H as (vc & we & He & H).
  assert (Fw : only_redis w wd) by (repeat (etrans; [eassumption|]); done).
  destruct Fw as (Hdb & _).
  unfold voucherService.getVoucherCode in He. rewrite bind_query, Hdb in He.
  fold voucherCode in He.
  destruct (select_voucher_code voucherCode (db w)) as [|row rest] eqn:Hsel;
    [by injection He as <- _|].
  injection He as <- <-.
  destruct (voucherService.isVoucherCodeValid now _ _) eqn:Hvalid; [|done].
  simpl in H. apply isVoucherCodeValid_eligible in Hvalid.
  split; [done|]. split; [done|]. split; [by exists row, rest|].
  apply bind_ok_inv in H as (user & wf & Hf & H).
  destruct (User.isPremium user).
  - apply bind_ok_inv in H as (result & wg & Hg & H).
    apply bind_ok_inv in H as ([] & wh & _ & H).
    injection H as -> _. apply processClaimImmediate_ok_status in Hg as [? ?].
    split; [done|by left].
  - apply bind_ok_inv in H as (jobId & wg & _ & H).
    injection H as <- _. split; [done|by right].
Qed.

Lemma claimVoucher_answers_only_after_every_check_witness :
  ∃ row rest,
    select_voucher_code "SUMMER2024" (db Scenario.fresh) = row :: rest
    ∧ eligible 1000 3 row.
Proof.
  destruct (claimVoucher_answers_only_after_every_check 1000 1000 false
              (Scenario.request 3 "SUMMER2024" Scenario.r1) Scenario.fresh
              Scenario.happy_path (Scenario.claimed 9))
    as (_ & _ & H & _); [by vm_compute..|].
  exact H.
Defined.

(** ** The cached count at commit *)

(** The active rows of a user after the increment of [claimed]. *)
Lemma select_active_user_after_incr (userId : Z) (us : list Users.row) :
  filter (λ u, Users.id u = userId ∧ Users.is_active u = true)
    (map (λ u, if Users.id u =? userId
               then Users.set_vouchers_claimed (Users.vouchers_claimed u + 1) u
               else u) us)
  = map (λ u, Users.set_vouchers_claimed (Users.vouchers_claimed u + 1) u)
      (filter (λ u, Users.id u = userId ∧ Users.is_active u = true) us).
Proof.
  induction us as [|u us IH]; [done|]. simpl. rewrite !filter_cons.
  destruct (Users.id u =? userId) eqn:Hid.
  - apply Z.eqb_eq in Hid.
    destruct (decide (Users.id u = userId ∧ Users.is_active u = true)) as [H|H].
    + rewrite decide_True by done. simpl. by rewrite IH.
    + rewrite decide_False by done. done.
  - apply Z.eqb_neq in Hid.
    rewrite !decide_False by (intros [? _]; done). done.
Qed.

(** What the cache update at the end of a claim transaction leaves under
    the count key of the user. *)
Lemma cache_update_count (now now' userId count : Z) (r r' : ClaimVoucherResponse.t)
    (w w' : World) :
  bind (cacheService.invalidateUserCache now userId)
    (λ _, bind (cacheService.setUserVoucherCount now userId count) (λ _, ret r)) w
  = (Ok r', w') →
  now' < now + 300 * 1000 →
  cacheService.getUserVoucherCount now' userId w' = (Ok (Some count), w')
  ∧ (now ≤ now' → (cacheService.getUser now' userId w').1 = Ok None).
Proof.
  intros H Hlt.
  pose proof (invalidated_key_misses now now' userId "data" w) as Hd.
  unfold bind in H. simpl in H. injection H as _ <-.
  unfold cacheService.getUserVoucherCount, cacheService.getUser, bind, kv_read.
  cbv zeta. simpl. unfold redis.get, redis.set. simpl.
  split.
  - rewrite lookup_insert. rewrite decide_True by done. simpl. unfold live. simpl.
    unfold cacheService.VOUCHER_COUNT_TTL.
    replace (now + 300 * 1000 <=? now') with false by (symmetry; apply Z.leb_gt; lia).
    done.
  - intros Hle. specialize (Hd Hle). unfold redis.get in Hd.
    rewrite lookup_insert_ne.
    + change (cacheService.USER_CACHE_PREFIX +:+ pretty userId +:+ ":data")
        with (user_key userId "data"). simpl in Hd. by rewrite Hd.
    + intros Heq. apply append_inj_l in Heq. apply append_inj_l in Heq. done.
Qed.

(** X23: the claim transactions leave the cache in step with the table.
    After a fast claim or a queued job has been committed, the count cached
    for the user is, for the next 300 seconds, the [claimed] of the user's
    row in the committed database, and nothing else is cached for the user;
    after a committed refund nothing is cached for the owner of the claim,
    so the next reader goes to the database. *)
Theorem committed_change_refreshes_the_cached_count (now now' : Z) (w w' : World) :
  now ≤ now' →
  (∀ request r,
     transaction (voucherService.processClaimImmediate_body now request) w = (Ok r, w') →
     now' < now + 300 * 1000 →
     ∃ user rest,
       select_active_user (ClaimVoucherRequest.userId request) (db w') = user :: rest
       ∧ cacheService.getUserVoucherCount now' (ClaimVoucherRequest.userId request) w'
         = (Ok (Some (Users.vouchers_claimed user)), w')
       ∧ (cacheService.getUser now' (ClaimVoucherRequest.userId request) w').1 = Ok None)
  ∧ (∀ job r,
       transaction (voucherWorker.processJob_body now job) w = (Ok r, w') →
       ClaimVoucherResponse.status r = Some ClaimStatus.success →
       now' < now + 300 * 1000 →
       ∃ user rest,
         select_active_user (QueueJob.userId job) (db w') = user :: rest
         ∧ cacheService.getUserVoucherCount now' (QueueJob.userId job) w'
           = (Ok (Some (Users.vouchers_claimed user)), w')
         ∧ (cacheService.getUser now' (QueueJob.userId job) w').1 = Ok None)
  ∧ (∀ claimId reason adminId u,
       voucherService.refundVoucher now claimId reason adminId w = (Ok u, w') →
       ∃ claim rest,
         select_claim claimId (db w) = claim :: rest
         ∧ (cacheService.getUserVoucherCount now' (VoucherClaims.user_id claim) w').1
           = Ok None
         ∧ (cacheService.getUser now' (VoucherClaims.user_id claim) w').1 = Ok None).
Proof.
  intros Hle. split_and!.
  - intros request r. unfold transaction.
    destruct (voucherService.processClaimImmediate_body now request w)
      as [[r0|e] w0] eqn:H; intros [= <- <-] Hlt.
    unfold voucherService.processClaimImmediate_body in H. cbv zeta in H.
    rewrite bind_query in H.
    destruct (select_active_user _ _) as [|user urest] eqn:Hu; [done|].
    destruct (_ >=? _); [done|]. rewrite bind_query in H.
    destruct (select_voucher_code _ _) as [|voucher rest]; [done|].
    destruct (negb _); [done|].
    set (expired := match VoucherCodes.expires_at voucher with
                    | Some t => t <? now | None => false end) in H.
    destruct expired; [done|].
    destruct (_ >=? _); [done|]. rewrite bind_query in H.
    destruct (0 <? _)%nat; [done|].
    apply bind_ok_inv in H as (? & w1 & (d1 & Hd1 & ->)%exec_ok_inv & H).
    apply bind_ok_inv in H as (? & w2 & (d2 & Hd2 & ->)%exec_ok_inv & H).
    apply bind_ok_inv in H as (NEW & w3 & (d3 & Hd3 & ->)%stmt_ok_inv & H).
    pose proof (cache_update_keeps_db _ _ _ _ _ _ _ H) as Hdb.
    apply (cache_update_count now now') in H as [Hc Hg]; [|done].
    simpl in *.
    assert (Hus : users d3 = users d2).
    { pose proof (f_equal (λ p, users p.2) Hd3) as E. cbv beta in E.
      rewrite insert_claim_keeps_users in E. symmetry. exact E. }
    apply update_voucher_usage_fast_keeps_users in Hd2.
    unfold update_user_claimed_incr in Hd1.
    destruct (update_where _ _ _ (users (db w))) as [us|] eqn:Hup; [|done].
    injection Hd1 as <-. apply update_where_Some in Hup as ->. simpl in Hd2.
    eexists _, _. split.
    { unfold select_active_user. rewrite Hdb, Hus, Hd2.
      rewrite select_active_user_after_incr.
      unfold select_active_user in Hu. rewrite Hu. reflexivity. }
    split; [exact Hc|by apply Hg].
  - intros job r. unfold transaction.
    destruct (voucherWorker.processJob_body now job w) as [[r0|e] w0] eqn:H;
      intros [= <- <-] Hst Hlt.
    unfold voucherWorker.processJob_body in H. cbv zeta in H.
    rewrite bind_query in H.
    destruct (select_active_user _ _) as [|user urest] eqn:Hu; [done|].
    destruct (_ >=? _); [by injection H as <- _|]. rewrite bind_query in H.
    destruct (select_voucher_code _ _) as [|voucher rest]; [done|].
    destruct (_ || _); [done|].
    apply bind_ok_inv in H as (? & w1 & (d1 & Hd1 & ->)%exec_ok_inv & H).
    apply bind_ok_inv in H as (? & w2 & (d2 & Hd2 & ->)%exec_ok_inv & H).
    apply bind_ok_inv in H as (NEW & w3 & (d3 & Hd3 & ->)%stmt_ok_inv & H).
    pose proof (cache_update_keeps_db _ _ _ _ _ _ _ H) as Hdb.
    apply (cache_update_count now now') in H as [Hc Hg]; [|done].
    simpl in *.
    assert (Hus : users d3 = users d2).
    { pose proof (f_equal (λ p, users p.2) Hd3) as E. cbv beta in E.
      rewrite insert_claim_keeps_users in E. symmetry. exact E. }
    apply update_voucher_usage_keeps_users in Hd2.
    unfold update_user_claimed_incr in Hd1.
    destruct (update_where _ _ _ (users (db w))) as [us|] eqn:Hup; [|done].
    injection Hd1 as <-. apply update_where_Some in Hup as ->. simpl in Hd2.
    eexists _, _. split.
    { unfold select_active_user. rewrite Hdb, Hus, Hd2.
      rewrite select_active_user_after_incr.
      unfold select_active_user in Hu. rewrite Hu. reflexivity. }
    split; [exact Hc|by apply Hg].
  - intros claimId reason adminId u.
    unfold voucherService.refundVoucher, transaction.
    destruct (voucherService.refundVoucher_body now claimId reason adminId w)
      as [[u0|e] w0] eqn:H; intros [= <- <-].
    unfold voucherService.refundVoucher_body in H. rewrite bind_query in H.
    destruct (select_claim claimId (db w)) as [|claim rest]; [done|].
    destruct (bool_decide (VoucherClaims.status claim = refunded)); [done|].
    apply bind_ok_inv in H as (? & w1 & _ & H).
    apply bind_ok_inv in H as (? & w2 & _ & H).
    apply bind_ok_inv in H as (? & w3 & _ & H).
    apply bind_ok_inv in H as (? & w4 & _ & H).
    assert (Hw0 : w0 = (cacheService.invalidateUserCache now (VoucherClaims.user_id claim)
                          w4).2) by (by rewrite H).
    exists claim, rest. split; [done|].
    destruct (invalidateUserCache_misses now now' (VoucherClaims.user_id claim) w4 Hle)
      as [Hv Hd].
    rewrite Hw0. by split.
Qed.

Lemma committed_change_refreshes_the_cached_count_witness :
  let request := Scenario.request 3 "SUMMER2024" Scenario.r1 in
  let w' := (transaction (voucherService.processClaimImmediate_body 1000 request)
               Scenario.fresh).2 in
  1000 ≤ 2000
  ∧ claimed_of 3 (db w') = [1]
  ∧ cacheService.getUserVoucherCount 2000 3 w' = (Ok (Some 1), w')
  ∧ (cacheService.getUserVoucherCount 4000 4
       (voucherService.refundVoucher 3000 1 "fraud" (Some 1) Scenario.asked_again).2).1
    = Ok None.
Proof.
  cbv zeta. split; [lia|]. split; [by vm_compute|]. split.
  - destruct (committed_change_refreshes_the_cached_count 1000 2000 Scenario.fresh
                (transaction (voucherService.processClaimImmediate_body 1000
                                (Scenario.request 3 "SUMMER2024" Scenario.r1)) Scenario.fresh).2)
      as (Hfast & _ & _); [lia|].
    destruct (Hfast (Scenario.request 3 "SUMMER2024" Scenario.r1) (Scenario.claimed 9))
      as (user & rest & Hu & Hc & _); [by vm_compute|lia|].
    vm_compute in Hu. injection Hu as <- _. exact Hc.
  - destruct (committed_change_refreshes_the_cached_count 3000 4000 Scenario.asked_again
                (voucherService.refundVoucher 3000 1 "fraud" (Some 1)
                   Scenario.asked_again).2) as (_ & _ & Hrefund); [lia|].
    destruct (Hrefund 1 "fraud" (Some 1) tt) as (claim & rest & Hcl & Hc & _);
      [by vm_compute|].
    vm_compute in Hcl. injection Hcl as <- _. exact Hc.
Defined.

(** ** Instances of the general lemmas *)

(** User 3 has claimed nothing: the increment of the claim transaction is
    accepted. *)
Lemma guarded_increment_is_accepted_witness :
  ∃ d', update_user_claimed_incr 3 (db Scenario.fresh) = Ok d'.
Proof.
  apply (guarded_increment_is_accepted 3 (db Scenario.fresh) Scenario.user3 []).
  - apply (bool_decide_unpack _). by vm_compute.
  - unfold users_within_limit, user_within_limit. simpl.
    repeat constructor; simpl; lia.
  - reflexivity.
  - simpl. lia.
Defined.

(** The claim of the happy path: SUMMER2024 goes from 0 to 2. *)
Lemma committed_fast_claim_increments_usage_twice_witness :
  let request := Scenario.request 3 "SUMMER2024" Scenario.r1 in
  let w' := (transaction (voucherService.processClaimImmediate_body 1000 request)
               Scenario.fresh).2 in
  ∃ voucher rest,
    select_voucher_code "SUMMER2024" (db Scenario.fresh) = voucher :: rest
    ∧ VoucherCodes.usage_count <$> voucher_codes (db w')
      = (λ v, if VoucherCodes.id v =? VoucherCodes.id voucher
              then VoucherCodes.usage_count v + 2 else VoucherCodes.usage_count v)
        <$> voucher_codes (db Scenario.fresh).
Proof.
  cbv zeta.
  apply (committed_fast_claim_increments_usage_twice 1000
           (Scenario.request 3 "SUMMER2024" Scenario.r1) Scenario.fresh _ (Scenario.claimed 9)).
  by vm_compute.
Defined.

(** The second job of user 4 for SUMMER2024 adds a second [success] row. *)
Lemma committed_job_adds_success_row_witness :
  let job := Scenario.job 4 "SUMMER2024" Scenario.q1 2000 in
  let w' := (transaction (voucherWorker.processJob_body 2500 job) Scenario.asked_again).2 in
  success_count 4 "SUMMER2024" (db w')
  = S (success_count 4 "SUMMER2024" (db Scenario.asked_again)).
Proof.
  cbv zeta.
  apply (committed_job_adds_success_row 2500 (Scenario.job 4 "SUMMER2024" Scenario.q1 2000)
           Scenario.asked_again _ (Scenario.claimed 8)); [by vm_compute|reflexivity].
Defined.

(** The refund of the claim of the happy path. *)
Lemma committed_refund_effects_witness :
  let w' := (voucherService.refundVoucher 3000 1 "fraud" (Some 1) Scenario.happy_path).2 in
  ∃ a, voucher_audit_log (db w') = voucher_audit_log (db Scenario.happy_path) ++ [a]
       ∧ AuditLog.action a = REFUND
       ∧ AuditLog.claim_id a = Some 1
       ∧ AuditLog.meta a = MetaRefund "fraud" (Some 1).
Proof.
  cbv zeta.
  destruct (committed_refund_effects 3000 1 "fraud" (Some 1) Scenario.happy_path
              (voucherService.refundVoucher 3000 1 "fraud" (Some 1) Scenario.happy_path).2 tt)
    as (claim & rest & _ & _ & _ & _ & _ & H); [by vm_compute|].
  exact H.
Defined.

(** User 3 asks for SUMMER2024 a second time on the fast path. *)
Lemma processClaimImmediate_rejects_repeated_claim_witness :
  transaction (voucherService.processClaimImmediate_body 2000
                 (Scenario.request 3 "SUMMER2024" Scenario.r2)) Scenario.happy_path
  = (Err (InvalidVoucherCode "You have already claimed this voucher"), Scenario.happy_path).
Proof.
  destruct (select_voucher_code "SUMMER2024" (db Scenario.happy_path))
    as [|voucher rest'] eqn:Hv; [by vm_compute in Hv|].
  destruct (select_active_user 3 (db Scenario.happy_path))
    as [|user rest] eqn:Hu; [by vm_compute in Hu|].
  apply (processClaimImmediate_rejects_repeated_claim 2000
           (Scenario.request 3 "SUMMER2024" Scenario.r2) Scenario.happy_path user rest
           voucher rest'); [exact Hu| |exact Hv| |by vm_compute].
  - vm_compute in Hu. injection Hu as <- _. simpl. lia.
  - vm_compute in Hv. injection Hv as <- _. unfold passes_step4. simpl.
    split; [done|]. split; [|lia]. intros t [= <-]. lia.
Defined.

(** A job for FLASH20 is rejected by the store, not as an invalid
    voucher; so is a job for SUMMER2024 whose request id is no UUID. *)
Lemma processJob_never_invalid_voucher_witness :
  (voucherWorker.processJob 1000 (Scenario.job 4 "FLASH20" Scenario.q9 900) Scenario.fresh).1
  = Err (StoreError "check_usage_count_not_exceed_limit")
  ∧ code (StoreError "check_usage_count_not_exceed_limit") ≠ "INVALID_VOUCHER"
  ∧ (voucherWorker.processJob 1000 (Scenario.job 4 "SUMMER2024" "q9" 900) Scenario.fresh).1
    = Err (StoreError "invalid_text_representation")
  ∧ code (StoreError "invalid_text_representation") ≠ "INVALID_VOUCHER".
Proof.
  split; [by vm_compute|]. split; [|split; [by vm_compute|]].
  - apply (processJob_never_invalid_voucher 1000 (Scenario.job 4 "FLASH20" Scenario.q9 900)
             Scenario.fresh
             (voucherWorker.processJob 1000 (Scenario.job 4 "FLASH20" Scenario.q9 900)
                Scenario.fresh).2).
    by vm_compute.
  - apply (processJob_never_invalid_voucher 1000 (Scenario.job 4 "SUMMER2024" "q9" 900)
             Scenario.fresh
             (voucherWorker.processJob 1000 (Scenario.job 4 "SUMMER2024" "q9" 900)
                Scenario.fresh).2).
    by vm_compute.
Defined.

(** The breaker of the service, opened by five failures: the probe at
    instant 40000 fails and re-opens it until 70000. *)
Lemma first_probe_failure_reopens_witness :
  let opened :=
    Scenario.after 5 Scenario.failing (Scenario.after 4 Scenario.failing
      (Scenario.after 3 Scenario.failing (Scenario.after 2 Scenario.failing
        (Scenario.after 1 Scenario.failing Scenario.breaker)))) in
  let cb' := (CircuitBreaker.execute 40000 Scenario.failing opened tt).1.2 in
  CircuitBreaker.state cb' = CircuitBreaker.OPEN
  ∧ CircuitBreaker.nextAttempt cb' = 70000.
Proof.
  cbv zeta.
  exact (first_probe_failure_reopens 40000 Scenario.failing
           (Scenario.after 5 Scenario.failing (Scenario.after 4 Scenario.failing
             (Scenario.after 3 Scenario.failing (Scenario.after 2 Scenario.failing
               (Scenario.after 1 Scenario.failing Scenario.breaker))))) tt
           (PlainError "connection refused") tt
           eq_refl ltac:(by vm_compute) ltac:(by vm_compute) eq_refl).
Defined.
